(** * Lys: device-side protocol engine (lys.h, lys.c)

    A shallow embedding of the framing codec, the transport adapter and the
    session state machine of [lys.c], followed by the properties of the
    specification that were checked against it.

    Conventions.
    - Every C integer is a [Z]; the wrap-around of [uint8_t] and [uint32_t]
      arithmetic is written out with [uint8] and [uint32].  The target is
      the nRF5 family (ARM, ILP32): [unsigned long] and [uint32_t] are both
      32 bits wide and [sizeof(bool)] is 1.
    - The file-scope variables of [lys.c] are the fields of one [engine]
      record that every function threads through.
    - A C function that returns [lys_error_t] and writes through pointers
      returns its error code together with the values written.
    - Blocking loops take fuel; running out of fuel is the outcome
      [Diverge].  Behaviour that C leaves undefined (division by zero,
      a copy outside an object, a null dereference) is the outcome
      [Undefined]. *)

From Stdlib Require Import ZArith Lia Bool.
From stdpp Require Import base tactics option list.

Local Open Scope Z_scope.

(** ** lys.h: constants and enumerations *)

Definition LYS_MAX_STR_LEN : Z := 64.
Definition LYS_MAX_ARRAY_LEN : Z := 64.
Definition LYS_MAX_MSG_LEN : Z := 64.
Definition LYS_PARAM_VARIABLE_SIZE : Z := 0.

Inductive lys_error_t :=
| LYS_ERROR_SUCCESS
| LYS_ERROR_INVALID_STATE
| LYS_ERROR_INVALID_PARAM.

Inductive lys_state_t :=
| LYS_STATE_UNKNOWN
| LYS_STATE_WAIT_FOR_START
| LYS_STATE_RUNNING
| LYS_STATE_RESULT
| LYS_STATE_FINISHED.

Inductive lys_op_t :=
| LYS_OP_UNKNOWN
| LYS_OP_INIT
| LYS_OP_START
| LYS_OP_RESULT
| LYS_OP_FINISHED
| LYS_OP_PARAM
| LYS_OP_ACK
| LYS_OP_LOG.

Inductive lys_param_type_t :=
| LYS_PARAM_TYPE_UINT32
| LYS_PARAM_TYPE_INT32
| LYS_PARAM_TYPE_UINT8
| LYS_PARAM_TYPE_INT8
| LYS_PARAM_TYPE_BOOL
| LYS_PARAM_TYPE_STRING
| LYS_PARAM_TYPE_ARRAY.

#[global] Instance lys_error_eq_dec : EqDecision lys_error_t.
Proof. solve_decision. Defined.
#[global] Instance lys_state_eq_dec : EqDecision lys_state_t.
Proof. solve_decision. Defined.

(** The ordinal of each enumerator: the value the C compiler gives it, and
    the byte that stands for it on the wire. *)
Definition op_ord (op : lys_op_t) : Z :=
  match op with
  | LYS_OP_UNKNOWN => 0 | LYS_OP_INIT => 1 | LYS_OP_START => 2
  | LYS_OP_RESULT => 3 | LYS_OP_FINISHED => 4 | LYS_OP_PARAM => 5
  | LYS_OP_ACK => 6 | LYS_OP_LOG => 7
  end.

Definition type_ord (t : lys_param_type_t) : Z :=
  match t with
  | LYS_PARAM_TYPE_UINT32 => 0 | LYS_PARAM_TYPE_INT32 => 1
  | LYS_PARAM_TYPE_UINT8 => 2 | LYS_PARAM_TYPE_INT8 => 3
  | LYS_PARAM_TYPE_BOOL => 4 | LYS_PARAM_TYPE_STRING => 5
  | LYS_PARAM_TYPE_ARRAY => 6
  end.

(** A variable of enumeration type can hold any integer; a [switch] over it
    selects the enumerator with that value, or [default]. *)
Definition lys_op_of (z : Z) : option lys_op_t :=
  match z with
  | 0 => Some LYS_OP_UNKNOWN | 1 => Some LYS_OP_INIT | 2 => Some LYS_OP_START
  | 3 => Some LYS_OP_RESULT | 4 => Some LYS_OP_FINISHED
  | 5 => Some LYS_OP_PARAM | 6 => Some LYS_OP_ACK | 7 => Some LYS_OP_LOG
  | _ => None
  end.

Definition lys_param_type_of (z : Z) : option lys_param_type_t :=
  match z with
  | 0 => Some LYS_PARAM_TYPE_UINT32 | 1 => Some LYS_PARAM_TYPE_INT32
  | 2 => Some LYS_PARAM_TYPE_UINT8 | 3 => Some LYS_PARAM_TYPE_INT8
  | 4 => Some LYS_PARAM_TYPE_BOOL | 5 => Some LYS_PARAM_TYPE_STRING
  | 6 => Some LYS_PARAM_TYPE_ARRAY
  | _ => None
  end.

(** ** Machine integers *)

Definition uint8 (z : Z) : Z := z mod 256.
Definition uint32 (z : Z) : Z := z mod 4294967296.

(** ** lys.c: offsets *)

Definition LYS_LEN_INDEX : Z := 0.
Definition LYS_OP_INDEX : Z := 1.
Definition LYS_PARAM_TYPE_INDEX : Z := 2.
Definition LYS_DATA_INDEX : Z := 3.
Definition LYS_ARRAY_PARAM_TYPE_INDEX : Z := 3.
Definition LYS_ARRAY_DATA_INDEX : Z := 4.
Definition LYS_MSG_NO_PARAM_LEN : Z := 2.

(** ** Memory

    A [uint8_t *] is null, points to storage owned by the caller (the
    bytes found there), or points into the scratch buffer [m_buf].  A
    pointer to one of the structures is null, points to a structure of the
    caller, or points to the engine's own static one ([m_str], [m_array],
    [m_param]). *)

Inductive ptr :=
| NULL
| Mem (bytes : list Z)
| Buf (off : Z).

Inductive ref (A : Type) :=
| Null
| Own (a : A)
| Static.
Arguments Null {A}.
Arguments Own {A} a.
Arguments Static {A}.

Record lys_str_t := {
  len : Z;
  p_data : ptr
}.

Record lys_array_t := {
  array_param_type : Z;
  item_count : Z;
  array_data : ptr
}.

(** The union [data] of [lys_param_t]: which member the pointer was stored
    through.  The five scalar members are all read as [p_uint8]. *)
Inductive lys_data :=
| P_uint8 (p : ptr)
| P_str (r : ref lys_str_t)
| P_array (r : ref lys_array_t).

Record lys_param_t := {
  param_type : Z;
  data : lys_data
}.

(** Reading a member of the union.  A null pointer reads as null through
    every member; any other pointer reads back only through the member it
    was stored through. *)
Definition data_p_uint8 (d : lys_data) : option ptr :=
  match d with
  | P_uint8 p => Some p
  | P_str Null | P_array Null => Some NULL
  | _ => None
  end.

Definition data_p_str (d : lys_data) : option (ref lys_str_t) :=
  match d with
  | P_str r => Some r
  | P_uint8 NULL | P_array Null => Some Null
  | _ => None
  end.

Definition data_p_array (d : lys_data) : option (ref lys_array_t) :=
  match d with
  | P_array r => Some r
  | P_uint8 NULL | P_str Null => Some Null
  | _ => None
  end.

(** ** The transport (SEGGER RTT channel 0)

    [SEGGER_RTT.c] is not part of the sources; the channel is modelled from
    the transport contract of the specification: read and write are
    best-effort, each may move fewer bytes than asked for, zero included.

    [rx] holds what the successive calls of [SEGGER_RTT_Read] find in the
    down buffer: one chunk for each call, possibly empty; a chunk longer
    than the capacity asked for stays in front with its rest.  When [rx]
    is empty the host has nothing more to say and every read returns 0.
    [tx] collects the bytes accepted by [SEGGER_RTT_Write].  [tx_room] is
    the room the successive writes find in the up buffer; when it is empty
    a write is accepted whole. *)

Record channel := {
  rx : list (list Z);
  tx : list Z;
  tx_room : list Z
}.

(** Modelled from the spec: [SEGGER_RTT_Read] of SEGGER_RTT.c, which is
    missing; it delivers at most [cap] bytes of what the down buffer
    holds. *)
Definition SEGGER_RTT_Read (cap : Z) (c : channel) : list Z * channel :=
  match rx c with
  | [] => ([], c)
  | chunk :: rest =>
      let n := Z.to_nat cap in
      (take n chunk,
       {| rx := if (length chunk <=? n)%nat then rest
                else drop n chunk :: rest;
          tx := tx c; tx_room := tx_room c |})
  end.

(** Modelled from the spec: [SEGGER_RTT_Write] of SEGGER_RTT.c, which is
    missing; it accepts a prefix of [bytes] and returns its length. *)
Definition SEGGER_RTT_Write (bytes : list Z) (c : channel) : Z * channel :=
  match tx_room c with
  | [] =>
      (Z.of_nat (length bytes),
       {| rx := rx c; tx := tx c ++ bytes; tx_room := [] |})
  | room :: rest =>
      let n := Z.to_nat room in
      (Z.of_nat (length (take n bytes)),
       {| rx := rx c; tx := tx c ++ take n bytes; tx_room := rest |})
  end.

(** ** The engine: the file-scope variables of lys.c *)

Record engine := {
  m_buf : list Z;
  m_buf_index : Z;
  m_state : lys_state_t;
  m_error : bool;
  m_str : lys_str_t;
  m_array : lys_array_t;
  m_param : lys_param_t;
  rtt : channel
}.

Definition set_buf (b : list Z) (e : engine) : engine :=
  {| m_buf := b; m_buf_index := m_buf_index e; m_state := m_state e;
     m_error := m_error e; m_str := m_str e; m_array := m_array e;
     m_param := m_param e; rtt := rtt e |}.

Definition set_buf_index (i : Z) (e : engine) : engine :=
  {| m_buf := m_buf e; m_buf_index := i; m_state := m_state e;
     m_error := m_error e; m_str := m_str e; m_array := m_array e;
     m_param := m_param e; rtt := rtt e |}.

Definition set_state (s : lys_state_t) (e : engine) : engine :=
  {| m_buf := m_buf e; m_buf_index := m_buf_index e; m_state := s;
     m_error := m_error e; m_str := m_str e; m_array := m_array e;
     m_param := m_param e; rtt := rtt e |}.

Definition set_error (b : bool) (e : engine) : engine :=
  {| m_buf := m_buf e; m_buf_index := m_buf_index e; m_state := m_state e;
     m_error := b; m_str := m_str e; m_array := m_array e;
     m_param := m_param e; rtt := rtt e |}.

Definition set_str (s : lys_str_t) (e : engine) : engine :=
  {| m_buf := m_buf e; m_buf_index := m_buf_index e; m_state := m_state e;
     m_error := m_error e; m_str := s; m_array := m_array e;
     m_param := m_param e; rtt := rtt e |}.

Definition set_array (a : lys_array_t) (e : engine) : engine :=
  {| m_buf := m_buf e; m_buf_index := m_buf_index e; m_state := m_state e;
     m_error := m_error e; m_str := m_str e; m_array := a;
     m_param := m_param e; rtt := rtt e |}.

Definition set_param (p : lys_param_t) (e : engine) : engine :=
  {| m_buf := m_buf e; m_buf_index := m_buf_index e; m_state := m_state e;
     m_error := m_error e; m_str := m_str e; m_array := m_array e;
     m_param := p; rtt := rtt e |}.

Definition set_rtt (c : channel) (e : engine) : engine :=
  {| m_buf := m_buf e; m_buf_index := m_buf_index e; m_state := m_state e;
     m_error := m_error e; m_str := m_str e; m_array := m_array e;
     m_param := m_param e; rtt := c |}.

(** What a structure pointer points to. *)
Class Global (A : Type) := global : engine -> A.
#[global] Instance global_str : Global lys_str_t := m_str.
#[global] Instance global_array : Global lys_array_t := m_array.
#[global] Instance global_param : Global lys_param_t := m_param.

Definition deref {A} `{Global A} (e : engine) (r : ref A) : option A :=
  match r with
  | Null => None
  | Own a => Some a
  | Static => Some (global e)
  end.

(** [m_buf[i]] *)
Definition buf_get (e : engine) (i : Z) : Z :=
  default 0 (m_buf e !! Z.to_nat i).

(** [m_buf[i] = v] *)
Definition buf_set (i v : Z) (e : engine) : engine :=
  set_buf (<[Z.to_nat i := uint8 v]> (m_buf e)) e.

(** [m_buf[m_buf_index++] = v] *)
Definition buf_push (v : Z) (e : engine) : engine :=
  set_buf_index (uint8 (m_buf_index e + 1)) (buf_set (m_buf_index e) v e).

(** The [n] bytes a [uint8_t *] points to, when they all lie inside the
    object it points into. *)
Definition load (e : engine) (p : ptr) (n : Z) : option (list Z) :=
  match p with
  | NULL => None
  | Mem bytes =>
      if (0 <=? n) && (n <=? Z.of_nat (length bytes))
      then Some (take (Z.to_nat n) bytes) else None
  | Buf off =>
      if (0 <=? off) && (0 <=? n) &&
         (off + n <=? Z.of_nat (length (m_buf e)))
      then Some (take (Z.to_nat n) (drop (Z.to_nat off) (m_buf e)))
      else None
  end.

(** Whether [n] bytes at [src] stay clear of [n] bytes at [&m_buf[off]]. *)
Definition clear_of_buf (src : ptr) (off n : Z) : bool :=
  match src with
  | Buf s => (n =? 0) || (s + n <=? off) || (off + n <=? s)
  | _ => true
  end.

(** [memcpy(&m_buf[off], src, n)]: defined when source and destination lie
    inside their objects and do not overlap. *)
Definition memcpy_to_buf (off : Z) (src : ptr) (n : Z) (e : engine)
  : option engine :=
  match load e src n with
  | None => None
  | Some bytes =>
      if (off + n <=? Z.of_nat (length (m_buf e))) && clear_of_buf src off n
      then Some (set_buf (take (Z.to_nat off) (m_buf e) ++ bytes ++
                          drop (Z.to_nat (off + n)) (m_buf e)) e)
      else None
  end.

(** [memcpy(dst, src, n)] into storage of the caller: the new contents of
    that storage. *)
Definition memcpy_to_mem (e : engine) (dst src : ptr) (n : Z)
  : option (list Z) :=
  match dst, load e src n with
  | Mem old, Some bytes =>
      if n <=? Z.of_nat (length old)
      then Some (bytes ++ drop (Z.to_nat n) old) else None
  | _, _ => None
  end.

(** ** Outcomes and the engine monad *)

Inductive outcome (A : Type) :=
| Ret (a : A)
| Diverge
| Undefined.
Arguments Ret {A} a.
Arguments Diverge {A}.
Arguments Undefined {A}.

Definition M (A : Type) : Type := engine -> outcome (A * engine).

Definition ret {A} (a : A) : M A := fun e => Ret (a, e).

Definition bind {A B} (m : M A) (k : A -> M B) : M B := fun e =>
  match m e with
  | Ret (a, e') => k a e'
  | Diverge => Diverge
  | Undefined => Undefined
  end.

Definition modify (f : engine -> engine) : M unit := fun e => Ret (tt, f e).

Definition undefined {A} : M A := fun _ => Undefined.

Declare Scope lys_scope.
Delimit Scope lys_scope with lys.
Notation "x <- m ;; k" := (bind m (fun x => k))
  (at level 100, m at next level, k at level 200, right associativity)
  : lys_scope.
Notation "m ;; k" := (bind m (fun _ => k))
  (at level 100, k at level 200, right associativity) : lys_scope.
(** [err = f(...); if (LYS_ERROR_SUCCESS != err) return err; k] *)
Notation "'check' m ;; k" :=
  (bind m (fun err => match err with
                      | LYS_ERROR_SUCCESS => k
                      | _ => ret err
                      end))
  (at level 100, m at next level, k at level 200, right associativity)
  : lys_scope.
Local Open Scope lys_scope.

(** A result passed back through an out-parameter, or the error code. *)
Inductive res (A : Type) :=
| Ok (a : A)
| Err (err : lys_error_t).
Arguments Ok {A} a.
Arguments Err {A} err.

(** ** Type table *)

Definition lys_param_len_lookup (param_type : Z) : res Z :=
  match lys_param_type_of param_type with
  | Some LYS_PARAM_TYPE_UINT32 => Ok 4
  | Some LYS_PARAM_TYPE_INT32 => Ok 4
  | Some LYS_PARAM_TYPE_UINT8 => Ok 1
  | Some LYS_PARAM_TYPE_INT8 => Ok 1
  | Some LYS_PARAM_TYPE_BOOL => Ok 1
  | Some LYS_PARAM_TYPE_STRING
  | Some LYS_PARAM_TYPE_ARRAY => Ok LYS_PARAM_VARIABLE_SIZE
  | None => Err LYS_ERROR_INVALID_PARAM
  end.

(** ** Codec: encoding *)

Definition verify_array_len (e : engine) (p_array : ref lys_array_t)
  : res Z :=
  match deref e p_array with
  | None => Err LYS_ERROR_INVALID_PARAM
  | Some a =>
      if item_count a =? 0 then Err LYS_ERROR_INVALID_PARAM
      else
        match lys_param_len_lookup (array_param_type a) with
        | Err err => Err err
        | Ok data_len =>
            if data_len =? LYS_PARAM_VARIABLE_SIZE
            then Err LYS_ERROR_INVALID_PARAM
            else
              let data_len := uint32 (data_len * item_count a) in
              if LYS_MAX_MSG_LEN <? uint32 (LYS_ARRAY_DATA_INDEX + data_len)
              then Err LYS_ERROR_INVALID_PARAM
              else Ok data_len
        end
  end.

Definition verify_str_len (e : engine) (p_str : ref lys_str_t) : res Z :=
  match deref e p_str with
  | None => Err LYS_ERROR_INVALID_PARAM
  | Some s =>
      if len s =? 0 then Err LYS_ERROR_INVALID_PARAM
      else
        let data_len := len s in
        if LYS_MAX_MSG_LEN <? uint32 (LYS_DATA_INDEX + data_len)
        then Err LYS_ERROR_INVALID_PARAM
        else Ok data_len
  end.

(** The last three statements of [param_add]:
    [m_buf[m_buf_index++] = param_type; memcpy(&m_buf[m_buf_index],
    p_param_data, param_len); m_buf_index += param_len;] *)
Definition param_emit (param_type : Z) (p_param_data : ptr) (param_len : Z)
  : M lys_error_t := fun e =>
  let e := buf_push param_type e in
  match memcpy_to_buf (m_buf_index e) p_param_data param_len e with
  | None => Undefined
  | Some e =>
      Ret (LYS_ERROR_SUCCESS,
           set_buf_index (uint8 (m_buf_index e + param_len)) e)
  end.

Definition param_add (p_param : ref lys_param_t) : M lys_error_t := fun e =>
  match deref e p_param with
  | None => Ret (LYS_ERROR_INVALID_PARAM, e)
  | Some p =>
      let param_type := param_type p in
      match lys_param_len_lookup param_type with
      | Err err => Ret (err, e)
      | Ok param_len =>
          if param_len =? LYS_PARAM_VARIABLE_SIZE then
            if type_ord LYS_PARAM_TYPE_ARRAY =? param_type then
              match data_p_array (data p) with
              | None => Undefined
              | Some p_array =>
                  match verify_array_len e p_array, deref e p_array with
                  | Err err, _ => Ret (err, e)
                  | Ok param_len, Some a =>
                      let e := buf_push (type_ord LYS_PARAM_TYPE_ARRAY) e in
                      param_emit (array_param_type a) (array_data a)
                                 param_len e
                  | Ok _, None => Undefined
                  end
              end
            else if type_ord LYS_PARAM_TYPE_STRING =? param_type then
              match data_p_str (data p) with
              | None => Undefined
              | Some p_str =>
                  match verify_str_len e p_str, deref e p_str with
                  | Err err, _ => Ret (err, e)
                  | Ok param_len, Some s =>
                      param_emit param_type (p_data s) param_len e
                  | Ok _, None => Undefined
                  end
              end
            else Ret (LYS_ERROR_INVALID_PARAM, e)
          else if LYS_MAX_MSG_LEN <? uint32 (LYS_DATA_INDEX + param_len)
          then Ret (LYS_ERROR_INVALID_PARAM, e)
          else
            match data_p_uint8 (data p) with
            | None => Undefined
            | Some p_param_data => param_emit param_type p_param_data
                                              param_len e
            end
      end
  end.

Definition msg_create (op : Z) (p_param : ref lys_param_t) : M lys_error_t :=
  modify (set_buf_index LYS_OP_INDEX) ;;
  modify (buf_push op) ;;
  match lys_op_of op with
  | Some LYS_OP_UNKNOWN | Some LYS_OP_INIT | Some LYS_OP_START
  | Some LYS_OP_RESULT | Some LYS_OP_FINISHED | Some LYS_OP_ACK =>
      modify (fun e => buf_set LYS_LEN_INDEX (m_buf_index e) e) ;;
      ret LYS_ERROR_SUCCESS
  | Some LYS_OP_PARAM | Some LYS_OP_LOG =>
      check param_add p_param ;;
      modify (fun e => buf_set LYS_LEN_INDEX (m_buf_index e) e) ;;
      ret LYS_ERROR_SUCCESS
  | None => ret LYS_ERROR_INVALID_PARAM
  end.

(** ** Codec: decoding *)

(** [a % b] and [a / b] on unsigned operands; dividing by zero is
    undefined. *)
Definition c_mod (a b : Z) : option Z :=
  if b =? 0 then None else Some (a mod b).
Definition c_div (a b : Z) : option Z :=
  if b =? 0 then None else Some (a / b).

Definition param_parse : M lys_error_t := fun e =>
  if type_ord LYS_PARAM_TYPE_ARRAY =? buf_get e LYS_PARAM_TYPE_INDEX then
    let e := set_param {| param_type := type_ord LYS_PARAM_TYPE_ARRAY;
                          data := P_array Static |} e in
    let e := set_array
               {| array_param_type := buf_get e LYS_ARRAY_PARAM_TYPE_INDEX;
                  item_count := item_count (m_array e);
                  array_data := array_data (m_array e) |} e in
    let data_len :=
      uint32 (buf_get e LYS_LEN_INDEX - LYS_ARRAY_DATA_INDEX) in
    match lys_param_len_lookup (array_param_type (m_array e)) with
    | Err err => Ret (err, e)
    | Ok param_len =>
        match c_mod data_len param_len, c_div data_len param_len with
        | Some r, Some q =>
            if negb (0 =? r) then Ret (LYS_ERROR_INVALID_PARAM, e)
            else
              Ret (LYS_ERROR_SUCCESS,
                   set_array
                     {| array_param_type := array_param_type (m_array e);
                        item_count := q;
                        array_data := Buf LYS_ARRAY_DATA_INDEX |} e)
        | _, _ => Undefined
        end
    end
  else
    let data_len := uint32 (buf_get e LYS_LEN_INDEX - LYS_DATA_INDEX) in
    if type_ord LYS_PARAM_TYPE_STRING =? buf_get e LYS_PARAM_TYPE_INDEX then
      let e := set_param {| param_type := type_ord LYS_PARAM_TYPE_STRING;
                            data := P_str Static |} e in
      let e := set_str {| len := data_len;
                          p_data := Buf LYS_DATA_INDEX |} e in
      Ret (LYS_ERROR_SUCCESS, e)
    else
      let e := set_param {| param_type := buf_get e LYS_PARAM_TYPE_INDEX;
                            data := P_uint8 (Buf LYS_DATA_INDEX) |} e in
      match lys_param_len_lookup (param_type (m_param e)) with
      | Err err => Ret (err, e)
      | Ok param_len =>
          if negb (param_len =? data_len)
          then Ret (LYS_ERROR_INVALID_PARAM, e)
          else Ret (LYS_ERROR_SUCCESS, e)
      end.

(** What [msg_parse] hands back: its error code, [*p_op] and [*p_param]. *)
Record parsed := {
  r_err : lys_error_t;
  r_op : Z;
  r_param : ref lys_param_t
}.

Definition msg_parse : M parsed := fun e =>
  let op := buf_get e LYS_OP_INDEX in
  match lys_op_of op with
  | Some LYS_OP_UNKNOWN | Some LYS_OP_INIT | Some LYS_OP_START
  | Some LYS_OP_RESULT | Some LYS_OP_FINISHED | Some LYS_OP_ACK =>
      Ret ({| r_err := LYS_ERROR_SUCCESS; r_op := op; r_param := Null |}, e)
  | Some LYS_OP_PARAM | Some LYS_OP_LOG =>
      match param_parse e with
      | Ret (LYS_ERROR_SUCCESS, e) =>
          Ret ({| r_err := LYS_ERROR_SUCCESS; r_op := op;
                  r_param := Static |}, e)
      | Ret (err, e) =>
          Ret ({| r_err := err; r_op := op; r_param := Null |}, e)
      | Diverge => Diverge
      | Undefined => Undefined
      end
  | None =>
      Ret ({| r_err := LYS_ERROR_INVALID_PARAM; r_op := op;
              r_param := Null |}, e)
  end.

(** ** Transport adapter *)

(** Returns true if [m_buf] contains a complete lys message. *)
Definition msg_complete (e : engine) : bool :=
  negb ((LYS_LEN_INDEX >=? m_buf_index e) ||
        (buf_get e LYS_LEN_INDEX >? m_buf_index e)).

(** The loop shared by [msg_send] and [ack_msg_send]: write [count] bytes
    of [src], starting over with what is left after each short write. *)
Fixpoint write_loop (fuel : nat) (src : list Z) (count bytes_written : Z)
  : M unit := fun e =>
  match fuel with
  | O => Diverge
  | S fuel =>
      if bytes_written <? count then
        let '(n, c) :=
          SEGGER_RTT_Write
            (take (Z.to_nat (count - bytes_written))
                  (drop (Z.to_nat bytes_written) src)) (rtt e) in
        write_loop fuel src count (uint32 (bytes_written + n)) (set_rtt c e)
      else Ret (tt, e)
  end.

Definition msg_send (fuel : nat) : M unit := fun e =>
  write_loop fuel (m_buf e) (m_buf_index e) 0 e.

Definition m_ack_buf : list Z := [LYS_MSG_NO_PARAM_LEN; op_ord LYS_OP_ACK].

Definition ack_msg_send (fuel : nat) : M unit :=
  write_loop fuel m_ack_buf LYS_MSG_NO_PARAM_LEN 0.

(** [m_buf_index += SEGGER_RTT_Read(0, &m_buf[m_buf_index],
    LYS_MAX_MSG_LEN - m_buf_index)] until the message is complete. *)
Fixpoint read_loop (fuel : nat) : M unit := fun e =>
  match fuel with
  | O => Diverge
  | S fuel =>
      if msg_complete e then Ret (tt, e)
      else
        let i := m_buf_index e in
        let '(bytes, c) :=
          SEGGER_RTT_Read (uint32 (LYS_MAX_MSG_LEN - i)) (rtt e) in
        let n := Z.of_nat (length bytes) in
        let b := take (Z.to_nat i) (m_buf e) ++ bytes ++
                 drop (Z.to_nat (i + n)) (m_buf e) in
        read_loop fuel (set_buf_index (uint8 (i + n)) (set_buf b (set_rtt c e)))
  end.

Definition msg_receive (fuel : nat) : M parsed :=
  modify (set_buf_index 0) ;;
  read_loop fuel ;;
  msg_parse.

Definition wait_for_ack (fuel : nat) : M lys_error_t :=
  r <- msg_receive fuel ;;
  match r_err r with
  | LYS_ERROR_SUCCESS =>
      if negb (op_ord LYS_OP_ACK =? r_op r)
      then ret LYS_ERROR_INVALID_STATE
      else ret LYS_ERROR_SUCCESS
  | err => ret err
  end.

Definition msg_send_and_ack (fuel : nat) (op : lys_op_t)
  (p_param : ref lys_param_t) : M lys_error_t :=
  check msg_create (op_ord op) p_param ;;
  msg_send fuel ;;
  wait_for_ack fuel.

Definition msg_receive_and_ack (fuel : nat) : M parsed :=
  r <- msg_receive fuel ;;
  match r_err r with
  | LYS_ERROR_SUCCESS => ack_msg_send fuel ;; ret r
  | _ => ret r
  end.

(** ** Session engine *)

Definition error : M unit :=
  modify (fun e => set_state LYS_STATE_UNKNOWN (set_error true e)).

(** [str_copy] and [array_copy] write through [lhs] into storage of the
    caller; they return the error code and what [lhs] points to
    afterwards. *)
Definition str_copy (e : engine) (lhs rhs : ref lys_str_t)
  : outcome (lys_error_t * ref lys_str_t) :=
  match deref e rhs with
  | None => Undefined
  | Some r =>
      if (len r >? LYS_MAX_STR_LEN) || (0 =? len r)
      then Ret (LYS_ERROR_INVALID_PARAM, lhs)
      else
        match lhs with
        | Own l =>
            match memcpy_to_mem e (p_data l) (p_data r) (len r) with
            | Some bytes =>
                Ret (LYS_ERROR_SUCCESS,
                     Own {| len := len r; p_data := Mem bytes |})
            | None => Undefined
            end
        | _ => Undefined
        end
  end.

Definition array_copy (e : engine) (lhs rhs : ref lys_array_t)
  : outcome (lys_error_t * ref lys_array_t) :=
  match deref e rhs with
  | None => Undefined
  | Some r =>
      let item_type := array_param_type r in
      match lys_param_len_lookup item_type with
      | Err err => Ret (err, lhs)
      | Ok data_len =>
          if (LYS_PARAM_VARIABLE_SIZE =? data_len) || (0 =? data_len)
          then Ret (LYS_ERROR_INVALID_PARAM, lhs)
          else
            let data_len := uint32 (data_len * item_count r) in
            if data_len >? LYS_MAX_ARRAY_LEN
            then Ret (LYS_ERROR_INVALID_PARAM, lhs)
            else
              match lhs with
              | Own l =>
                  match memcpy_to_mem e (array_data l) (array_data r)
                                      data_len with
                  | Some bytes =>
                      Ret (LYS_ERROR_SUCCESS,
                           Own {| array_param_type := item_type;
                                  item_count := item_count r;
                                  array_data := Mem bytes |})
                  | None => Undefined
                  end
              | _ => Undefined
              end
      end
  end.

Definition lys_init : M unit :=
  modify (fun e =>
    set_error false (set_state LYS_STATE_UNKNOWN (set_buf_index 0 e))).

Definition lys_state_get (e : engine) : lys_state_t := m_state e.

Definition lys_has_error (e : engine) : bool := m_error e.

Definition get : M engine := fun e => Ret (e, e).

(** [if (LYS_ERROR_SUCCESS != err) { error(); return err; }] *)
Definition or_error (m : M lys_error_t) : M lys_error_t :=
  err <- m ;;
  match err with
  | LYS_ERROR_SUCCESS => ret LYS_ERROR_SUCCESS
  | _ => error ;; ret err
  end.

(** What [lys_param_wait] hands back: its error code and the values of
    [*p_param] and [*p_param_set], which keep the value they had on entry
    when the function returns before writing them. *)
Record waited := {
  w_err : lys_error_t;
  w_param : ref lys_param_t;
  w_param_set : bool
}.

Definition lys_param_wait (fuel : nat) (p_param : ref lys_param_t)
  (p_param_set : bool) : M waited :=
  e <- get ;;
  err <- (if bool_decide (LYS_STATE_UNKNOWN = m_state e) && negb (m_error e)
          then
            check or_error (msg_send_and_ack fuel LYS_OP_INIT Null) ;;
            modify (set_state LYS_STATE_WAIT_FOR_START) ;;
            ret LYS_ERROR_SUCCESS
          else ret LYS_ERROR_SUCCESS) ;;
  match err with
  | LYS_ERROR_SUCCESS =>
      e <- get ;;
      if negb (bool_decide (LYS_STATE_WAIT_FOR_START = m_state e))
      then ret {| w_err := LYS_ERROR_INVALID_STATE; w_param := p_param;
                  w_param_set := p_param_set |}
      else
        r <- msg_receive_and_ack fuel ;;
        err <- or_error (ret (r_err r)) ;;
        match err with
        | LYS_ERROR_SUCCESS =>
            match lys_op_of (r_op r) with
            | Some LYS_OP_START =>
                modify (set_state LYS_STATE_RUNNING) ;;
                ret {| w_err := LYS_ERROR_SUCCESS; w_param := r_param r;
                       w_param_set := false |}
            | Some LYS_OP_PARAM =>
                ret {| w_err := LYS_ERROR_SUCCESS; w_param := r_param r;
                       w_param_set := true |}
            | _ =>
                error ;;
                ret {| w_err := LYS_ERROR_INVALID_STATE;
                       w_param := r_param r; w_param_set := false |}
            end
        | _ => ret {| w_err := err; w_param := r_param r;
                      w_param_set := p_param_set |}
        end
  | _ => ret {| w_err := err; w_param := p_param;
                w_param_set := p_param_set |}
  end.

(** The body of the [switch] of [lys_params_receive]: copy the received
    param into the storage the expected entry points to.  Returns the error
    code and the entry with what its storage holds afterwards. *)
Definition param_store (e : engine) (p_params_i : lys_param_t)
  (p_received_param : lys_param_t) : outcome (lys_error_t * lys_param_t) :=
  let expected_type := param_type p_params_i in
  match lys_param_type_of expected_type with
  | Some LYS_PARAM_TYPE_UINT32 | Some LYS_PARAM_TYPE_INT32
  | Some LYS_PARAM_TYPE_UINT8 | Some LYS_PARAM_TYPE_INT8
  | Some LYS_PARAM_TYPE_BOOL =>
      match lys_param_len_lookup expected_type with
      | Err err => Ret (err, p_params_i)
      | Ok param_len =>
          if LYS_PARAM_VARIABLE_SIZE =? param_len
          then Ret (LYS_ERROR_INVALID_PARAM, p_params_i)
          else
            match data_p_uint8 (data p_params_i),
                  data_p_uint8 (data p_received_param) with
            | Some p_local_data, Some src =>
                match memcpy_to_mem e p_local_data src param_len with
                | Some bytes =>
                    Ret (LYS_ERROR_SUCCESS,
                         {| param_type := expected_type;
                            data := P_uint8 (Mem bytes) |})
                | None => Undefined
                end
            | _, _ => Undefined
            end
      end
  | Some LYS_PARAM_TYPE_STRING =>
      match data_p_str (data p_params_i),
            data_p_str (data p_received_param) with
      | Some lhs, Some rhs =>
          match str_copy e lhs rhs with
          | Ret (err, lhs) =>
              Ret (err, {| param_type := expected_type; data := P_str lhs |})
          | Diverge => Diverge
          | Undefined => Undefined
          end
      | _, _ => Undefined
      end
  | Some LYS_PARAM_TYPE_ARRAY =>
      match data_p_array (data p_params_i),
            data_p_array (data p_received_param) with
      | Some lhs, Some rhs =>
          match array_copy e lhs rhs with
          | Ret (err, lhs) =>
              Ret (err,
                   {| param_type := expected_type; data := P_array lhs |})
          | Diverge => Diverge
          | Undefined => Undefined
          end
      | _, _ => Undefined
      end
  | None => Ret (LYS_ERROR_INVALID_PARAM, p_params_i)
  end.

(** The [for] loop of [lys_params_receive] over the entries of [p_params],
    which stand for [p_params[0 .. param_count - 1]].  Returns the error
    code and the entries with what their storage holds afterwards. *)
Fixpoint params_receive_loop (fuel : nat) (p_params : list lys_param_t)
  : M (lys_error_t * list lys_param_t) :=
  match p_params with
  | [] => ret (LYS_ERROR_SUCCESS, [])
  | p_params_i :: rest =>
      let expected_type := param_type p_params_i in
      w <- lys_param_wait fuel Null false ;;
      match w_err w with
      | LYS_ERROR_SUCCESS =>
          e <- get ;;
          if negb (w_param_set w) then
            ret (LYS_ERROR_INVALID_PARAM, p_params)
          else
            match deref e (w_param w) with
            | None => undefined
            | Some p_received_param =>
                if negb (expected_type =? param_type p_received_param)
                then ret (LYS_ERROR_INVALID_PARAM, p_params)
                else
                  match param_store e p_params_i p_received_param with
                  | Ret (LYS_ERROR_SUCCESS, stored) =>
                      r <- params_receive_loop fuel rest ;;
                      ret (r.1, stored :: r.2)
                  | Ret (err, stored) => ret (err, stored :: rest)
                  | Diverge => fun _ => Diverge
                  | Undefined => undefined
                  end
            end
      | err => ret (err, p_params)
      end
  end.

Definition lys_params_receive (fuel : nat) (p_params : list lys_param_t)
  : M (lys_error_t * list lys_param_t) :=
  r <- params_receive_loop fuel p_params ;;
  let p_params := r.2 in
  match r.1 with
  | LYS_ERROR_SUCCESS =>
      w <- lys_param_wait fuel Null false ;;
      match w_err w with
      | LYS_ERROR_SUCCESS =>
          if w_param_set w then
            error ;; ret (LYS_ERROR_INVALID_STATE, p_params)
          else ret (LYS_ERROR_SUCCESS, p_params)
      | err => ret (err, p_params)
      end
  | err => ret (err, p_params)
  end.

(** The opening of [lys_param_send] and [lys_finish]: in state RUNNING,
    send RESULT and move to state RESULT. *)
Definition result_open (fuel : nat) : M lys_error_t :=
  e <- get ;;
  if bool_decide (LYS_STATE_RUNNING = m_state e) then
    check or_error (msg_send_and_ack fuel LYS_OP_RESULT Null) ;;
    modify (set_state LYS_STATE_RESULT) ;;
    ret LYS_ERROR_SUCCESS
  else ret LYS_ERROR_SUCCESS.

Definition lys_param_send (fuel : nat) (p_param : ref lys_param_t)
  : M lys_error_t :=
  check result_open fuel ;;
  e <- get ;;
  if negb (bool_decide (LYS_STATE_RESULT = m_state e))
  then ret LYS_ERROR_INVALID_STATE
  else
    check or_error (msg_send_and_ack fuel LYS_OP_PARAM p_param) ;;
    ret LYS_ERROR_SUCCESS.

Definition lys_finish (fuel : nat) : M lys_error_t :=
  check result_open fuel ;;
  e <- get ;;
  if negb (bool_decide (LYS_STATE_RESULT = m_state e))
  then ret LYS_ERROR_INVALID_STATE
  else
    check or_error (msg_send_and_ack fuel LYS_OP_FINISHED Null) ;;
    modify (set_state LYS_STATE_RESULT) ;;
    ret LYS_ERROR_SUCCESS.

Fixpoint lys_results_send (fuel : nat) (params : list lys_param_t)
  : M lys_error_t :=
  match params with
  | [] => lys_finish fuel
  | params_i :: rest =>
      check lys_param_send fuel (Own params_i) ;;
      lys_results_send fuel rest
  end.

Definition lys_error_send (fuel : nat) : M lys_error_t :=
  error ;;
  check msg_create (op_ord LYS_OP_UNKNOWN) Null ;;
  msg_send fuel ;;
  wait_for_ack fuel.

Definition lys_log_send (fuel : nat) (p_str : ref lys_str_t)
  : M lys_error_t :=
  e <- get ;;
  if bool_decide (LYS_STATE_WAIT_FOR_START = m_state e) ||
     bool_decide (LYS_STATE_RESULT = m_state e)
  then ret LYS_ERROR_INVALID_STATE
  else
    modify (set_param {| param_type := type_ord LYS_PARAM_TYPE_STRING;
                         data := P_str p_str |}) ;;
    check or_error (msg_send_and_ack fuel LYS_OP_LOG Static) ;;
    ret LYS_ERROR_SUCCESS.

(** ** Start-up and well-formedness *)

(** The engine as the C start-up code leaves it: every static object
    zero-initialised, attached to channel [c]. *)
Definition boot (c : channel) : engine :=
  {| m_buf := replicate 64 0; m_buf_index := 0;
     m_state := LYS_STATE_UNKNOWN; m_error := false;
     m_str := {| len := 0; p_data := NULL |};
     m_array := {| array_param_type := 0; item_count := 0;
                   array_data := NULL |};
     m_param := {| param_type := 0; data := P_uint8 NULL |};
     rtt := c |}.

(** [m_buf] is an array of [LYS_MAX_MSG_LEN] bytes. *)
Definition buf_ok (e : engine) : Prop :=
  Z.of_nat (length (m_buf e)) = LYS_MAX_MSG_LEN.

(** The message in the scratch buffer: its first [m_buf_index] bytes, which
    are the bytes [msg_send] writes. *)
Definition frame (e : engine) : list Z :=
  take (Z.to_nat (m_buf_index e)) (m_buf e).

(** The engine with the frame [f] in its scratch buffer. *)
Definition holding (f : list Z) (e : engine) : engine :=
  set_buf_index (Z.of_nat (length f))
    (set_buf (f ++ drop (length f) (m_buf e)) e).

(** * The vocabulary of the specification *)

(** ** Values and frames *)

(** What a parameter stands for: its tag, its length or item count, and
    its bytes. *)
Inductive value :=
| V_scalar (tag : Z) (bytes : list Z)
| V_string (bytes : list Z)
| V_array (item_tag : Z) (count : Z) (bytes : list Z).

#[global] Instance value_eq_dec : EqDecision value.
Proof. solve_decision. Defined.

(** The wire size of a tag with a fixed, nonzero size; 0 for every other
    tag. *)
Definition size_of (tag : Z) : Z :=
  match lys_param_len_lookup tag with
  | Ok n => n
  | Err _ => 0
  end.

Definition is_scalar (tag : Z) : bool := negb (size_of tag =? 0).

(** The tag a value travels under. *)
Definition tag_of (v : value) : Z :=
  match v with
  | V_scalar tag _ => tag
  | V_string _ => type_ord LYS_PARAM_TYPE_STRING
  | V_array _ _ _ => type_ord LYS_PARAM_TYPE_ARRAY
  end.

(** A parameter of the caller holding the value [v]. *)
Definition param_of (v : value) : lys_param_t :=
  match v with
  | V_scalar tag bytes => {| param_type := tag; data := P_uint8 (Mem bytes) |}
  | V_string bytes =>
      {| param_type := type_ord LYS_PARAM_TYPE_STRING;
         data := P_str (Own {| len := Z.of_nat (length bytes);
                               p_data := Mem bytes |}) |}
  | V_array item_tag count bytes =>
      {| param_type := type_ord LYS_PARAM_TYPE_ARRAY;
         data := P_array (Own {| array_param_type := item_tag;
                                 item_count := count;
                                 array_data := Mem bytes |}) |}
  end.

(** The value a parameter stands for, read through its pointers. *)
Definition value_of (e : engine) (p : lys_param_t) : option value :=
  match lys_param_type_of (param_type p) with
  | Some LYS_PARAM_TYPE_ARRAY =>
      r ← data_p_array (data p);
      a ← deref e r;
      bytes ← load e (array_data a)
                (size_of (array_param_type a) * item_count a);
      Some (V_array (array_param_type a) (item_count a) bytes)
  | Some LYS_PARAM_TYPE_STRING =>
      r ← data_p_str (data p);
      s ← deref e r;
      bytes ← load e (p_data s) (len s);
      Some (V_string bytes)
  | Some _ =>
      q ← data_p_uint8 (data p);
      bytes ← load e q (size_of (param_type p));
      Some (V_scalar (param_type p) bytes)
  | None => None
  end.

(** The values of the data model: a scalar of its exact wire size, a
    string of 1 to [LYS_MAX_STR_LEN] bytes, an array of at least one
    scalar item and at most [LYS_MAX_ARRAY_LEN] bytes. *)
Definition in_data_model (v : value) : bool :=
  match v with
  | V_scalar tag bytes =>
      is_scalar tag && (Z.of_nat (length bytes) =? size_of tag)
  | V_string bytes =>
      (1 <=? Z.of_nat (length bytes)) &&
      (Z.of_nat (length bytes) <=? LYS_MAX_STR_LEN)
  | V_array item_tag count bytes =>
      is_scalar item_tag && (1 <=? count) &&
      (count * size_of item_tag <=? LYS_MAX_ARRAY_LEN) &&
      (Z.of_nat (length bytes) =? count * size_of item_tag)
  end.

(** The values whose frame fits [LYS_MAX_MSG_LEN]: strings of at most
    64 - 3 bytes and arrays of at most 64 - 4 bytes. *)
Definition fits_frame (v : value) : bool :=
  match v with
  | V_scalar _ _ => true
  | V_string bytes =>
      LYS_DATA_INDEX + Z.of_nat (length bytes) <=? LYS_MAX_MSG_LEN
  | V_array item_tag count _ =>
      LYS_ARRAY_DATA_INDEX + count * size_of item_tag <=? LYS_MAX_MSG_LEN
  end.

(** A value the encoder can put in one frame. *)
Definition sendable (v : value) : bool := in_data_model v && fits_frame v.

(** The byte map of a PARAM or LOG frame holding [v] (wire format). *)
Definition wire (op : Z) (v : value) : list Z :=
  match v with
  | V_scalar tag bytes =>
      [LYS_DATA_INDEX + Z.of_nat (length bytes); op; tag] ++ bytes
  | V_string bytes =>
      [LYS_DATA_INDEX + Z.of_nat (length bytes); op;
       type_ord LYS_PARAM_TYPE_STRING] ++ bytes
  | V_array item_tag _ bytes =>
      [LYS_ARRAY_DATA_INDEX + Z.of_nat (length bytes); op;
       type_ord LYS_PARAM_TYPE_ARRAY; item_tag] ++ bytes
  end.

(** The frame of an op that carries no parameter. *)
Definition simple_frame (op : lys_op_t) : list Z :=
  [LYS_MSG_NO_PARAM_LEN; op_ord op].

(** A frame as the wire format has it: its first byte is its length, and
    it fits the scratch buffer. *)
Definition framed (f : list Z) : bool :=
  bool_decide (f !! 0%nat = Some (Z.of_nat (length f))) &&
  (Z.of_nat (length f) <=? LYS_MAX_MSG_LEN).

(** ** Observations *)

(** The value an outcome returns, without the engine. *)
Definition returned {A} (o : outcome (A * engine)) : option A :=
  match o with
  | Ret (a, _) => Some a
  | _ => None
  end.

(** What the caller and the host can see of an outcome: the value
    returned, the session state, the sticky error flag and the bytes
    written to the transport. *)
Definition observed {A} (o : outcome (A * engine))
  : option (A * lys_state_t * bool * list Z) :=
  match o with
  | Ret (a, e) => Some (a, m_state e, m_error e, tx (rtt e))
  | _ => None
  end.

(** Decode the scratch buffer: the error code of [msg_parse], its op, and
    the value the parameter it hands back stands for. *)
Definition decode : M (lys_error_t * Z * option value) :=
  r <- msg_parse ;;
  e <- get ;;
  ret (r_err r, r_op r, deref e (r_param r) ≫= value_of e).

(** Encode a PARAM frame holding [v] into the scratch buffer, then decode
    the buffer. *)
Definition encode_decode (v : value)
  : M (lys_error_t + lys_error_t * Z * option value) :=
  err <- msg_create (op_ord LYS_OP_PARAM) (Own (param_of v)) ;;
  match err with
  | LYS_ERROR_SUCCESS => r <- decode ;; ret (inr r)
  | _ => ret (inl err)
  end.

(** Receive one frame from the host and say what it decodes to. *)
Definition receive_decode (fuel : nat)
  : M (lys_error_t * Z * option value) :=
  modify (set_buf_index 0) ;;
  read_loop fuel ;;
  decode.

(** ** The host and the transport *)

(** A transport with room and a host that stays silent. *)
Definition idle : channel := {| rx := []; tx := []; tx_room := [] |}.

(** A host that delivers the given chunks to a transport with room. *)
Definition host (chunks : list (list Z)) : channel :=
  {| rx := chunks; tx := []; tx_room := [] |}.

(** The chunks [cs], read one after the other, bring exactly the frame
    [f], the last of them not empty. *)
Definition delivers (cs : list (list Z)) (f : list Z) : bool :=
  bool_decide (concat cs = f) &&
  match last cs with
  | Some (_ :: _) => true
  | _ => false
  end.

(** The chunk lists [css] bring the PARAM frames of the values [vs], one
    after the other. *)
Definition brings (css : list (list (list Z))) (vs : list value) : Prop :=
  Forall2 (fun cs v => delivers cs (wire (op_ord LYS_OP_PARAM) v) = true)
          css vs.

(** Polls and short writes still ahead of the engine: a bound on the fuel
    its loops need. *)
Definition pending (e : engine) : nat :=
  (length (rx (rtt e)) + length (tx_room (rtt e)))%nat.

(** What an operation did on the transport between [e] and [e']: it read
    the chunks [consumed], wrote the bytes [sent], and left the buffer an
    array of 64 bytes and the sticky error flag as it was. *)
Definition io (e e' : engine) (consumed : list (list Z)) (sent : list Z)
  : Prop :=
  buf_ok e' /\
  rx (rtt e) = consumed ++ rx (rtt e') /\
  tx (rtt e') = tx (rtt e) ++ sent /\
  (length (tx_room (rtt e')) <= length (tx_room (rtt e)))%nat /\
  m_error e' = m_error e.

(** ** The session *)

(** The part of the engine the handshake rules speak about. *)
Definition session (e : engine) : lys_state_t * bool :=
  (m_state e, m_error e).

(** An operation that leaves the session state and the sticky error flag
    alone, whatever it returns. *)
Definition quiet {A} (m : M A) : Prop :=
  forall e a e', m e = Ret (a, e') -> session e' = session e.

(** An operation that leaves [m_buf] an array of 64 bytes, whatever it
    returns. *)
Definition tidy {A} (m : M A) : Prop :=
  forall e a e', buf_ok e -> m e = Ret (a, e') -> buf_ok e'.

(** The engine after a fatal error. *)
Definition fatal (e : engine) : Prop :=
  m_error e = true /\ m_state e = LYS_STATE_UNKNOWN.

(** The three ways a public operation can end: with success, leaving the
    sticky error flag as it was and [ok] true; with a fatal error; or
    refused by its state check with InvalidState, the engine untouched and
    [refused] true. *)
Definition ends (e : engine) (err : lys_error_t) (e' : engine)
  (ok refused : Prop) : Prop :=
  (err = LYS_ERROR_SUCCESS /\ m_error e' = m_error e /\ ok) \/
  (err <> LYS_ERROR_SUCCESS /\ fatal e') \/
  (err = LYS_ERROR_INVALID_STATE /\ e' = e /\ refused).

(** [lys_param_wait] can go on to receive: the engine waits for START, or
    it is fresh, without a sticky error, and will send INIT first. *)
Definition may_wait (e : engine) : Prop :=
  m_state e = LYS_STATE_WAIT_FOR_START \/
  m_state e = LYS_STATE_UNKNOWN /\ m_error e = false.

(** The fourth way [lys_params_receive] can end: InvalidParam for a frame
    that was received and ACKed, the sticky error flag as it was. *)
Definition rejects_param (e : engine) (err : lys_error_t) (e' : engine)
  : Prop :=
  err = LYS_ERROR_INVALID_PARAM /\ m_error e' = m_error e /\ may_wait e /\
  (m_state e' = LYS_STATE_WAIT_FOR_START \/ m_state e' = LYS_STATE_RUNNING).

(** The engine is ready to receive parameters: it waits for START, or it
    is fresh and the chunks [acs] bring the host's ACK of its INIT. *)
Definition opened (e : engine) (acs : list (list Z)) : Prop :=
  m_state e = LYS_STATE_WAIT_FOR_START /\ acs = [] \/
  m_state e = LYS_STATE_UNKNOWN /\ m_error e = false /\
  delivers acs (simple_frame LYS_OP_ACK) = true.

(** What holds of the session in every state the public operations can
    reach from [lys_init]: the state is not FINISHED, and the sticky error
    flag is only set in state UNKNOWN. *)
Definition session_ok (e : engine) : Prop :=
  m_state e <> LYS_STATE_FINISHED /\
  (m_error e = true -> m_state e = LYS_STATE_UNKNOWN).

(** ** Lists of expected parameters *)

(** The expected entry [p] has the tag of [v] and points to storage of the
    caller large enough to take the bytes of [v]. *)
Definition accepts (p : lys_param_t) (v : value) : bool :=
  match v, data p with
  | V_scalar tag bytes, P_uint8 (Mem old) =>
      (param_type p =? tag) && (length bytes <=? length old)%nat
  | V_string bytes, P_str (Own {| p_data := Mem old |}) =>
      (param_type p =? type_ord LYS_PARAM_TYPE_STRING) &&
      (length bytes <=? length old)%nat
  | V_array _ _ bytes, P_array (Own {| array_data := Mem old |}) =>
      (param_type p =? type_ord LYS_PARAM_TYPE_ARRAY) &&
      (length bytes <=? length old)%nat
  | _, _ => false
  end.

(** The entries of [p_params] accept the values [vs], one by one. *)
Definition expects (p_params : list lys_param_t) (vs : list value) : Prop :=
  Forall2 (fun p v => accepts p v = true /\ sendable v = true) p_params vs.

(** The entries hold the values [vs]. *)
Definition holds (stored : list lys_param_t) (vs : list value) : Prop :=
  Forall2 (fun p v => forall e, value_of e p = Some v) stored vs.

(** ** User programs *)

(** A call of one of the public operations, with its arguments. *)
Inductive call :=
| Call_init
| Call_param_wait
| Call_params_receive (p_params : list lys_param_t)
| Call_param_send (p_param : ref lys_param_t)
| Call_results_send (params : list lys_param_t)
| Call_finish
| Call_error_send
| Call_log_send (p_str : ref lys_str_t).

Definition perform (fuel : nat) (c : call) : M unit :=
  match c with
  | Call_init => lys_init
  | Call_param_wait => lys_param_wait fuel Null false ;; ret tt
  | Call_params_receive p_params =>
      lys_params_receive fuel p_params ;; ret tt
  | Call_param_send p_param => lys_param_send fuel p_param ;; ret tt
  | Call_results_send params => lys_results_send fuel params ;; ret tt
  | Call_finish => lys_finish fuel ;; ret tt
  | Call_error_send => lys_error_send fuel ;; ret tt
  | Call_log_send p_str => lys_log_send fuel p_str ;; ret tt
  end.

(** A user program as far as the engine sees it: the public operations it
    calls, in order, whatever they return, each with the fuel it is given. *)
Fixpoint run (script : list (nat * call)) : M unit :=
  match script with
  | [] => ret tt
  | (fuel, c) :: script => perform fuel c ;; run script
  end.

(** ** Sample inputs *)

Definition ack : list Z := simple_frame LYS_OP_ACK.

Definition uint32_param (b0 b1 b2 b3 : Z) : lys_param_t :=
  {| param_type := type_ord LYS_PARAM_TYPE_UINT32;
     data := P_uint8 (Mem [b0; b1; b2; b3]) |}.

Definition uint8_param (b : Z) : lys_param_t :=
  {| param_type := type_ord LYS_PARAM_TYPE_UINT8;
     data := P_uint8 (Mem [b]) |}.

Definition empty_string_param : lys_param_t :=
  {| param_type := type_ord LYS_PARAM_TYPE_STRING;
     data := P_str (Own {| len := 0; p_data := Mem [] |}) |}.

Definition nested_array_param : lys_param_t :=
  {| param_type := type_ord LYS_PARAM_TYPE_ARRAY;
     data := P_array (Own {| array_param_type :=
                               type_ord LYS_PARAM_TYPE_ARRAY;
                             item_count := 1;
                             array_data := Mem [0] |}) |}.

Definition undefined_tag_param : lys_param_t :=
  {| param_type := 7; data := P_uint8 (Mem [0]) |}.

(** An engine in state RUNNING whose host will ACK three frames, the
    first ACK arriving in two pieces; and that engine after a
    [lys_finish]. *)
Definition running_engine : engine :=
  set_state LYS_STATE_RUNNING (boot (host [[2]; [6]; ack; ack])).

Definition finished_engine : engine :=
  Eval vm_compute in
    match lys_finish 6 running_engine with
    | Ret (_, e) => e
    | _ => running_engine
    end.

(** The scratch buffer after encoding a PARAM frame with the UINT32 42. *)
Definition encoded_42 : engine :=
  Eval vm_compute in
    match msg_create (op_ord LYS_OP_PARAM) (Own (uint32_param 42 0 0 0))
                     (boot idle) with
    | Ret (_, e) => e
    | _ => boot idle
    end.

(** ** The application (main.c)

    The example application receives two parameters, blinks the LEDs of
    the board and sends one result.  The macros [LEDS_CONFIGURE] and
    [LEDS_INVERT] (boards.h) and the function [nrf_delay_ms]
    (nrf_delay.h) belong to the SDK and are not part of the sources: a
    call of one of them is recorded as an event of the board, with its
    argument, in the order of the calls.  [LEDS_MASK] and [LEDS_LIST],
    which boards.h defines for the board at hand, are parameters.  The
    target is little-endian. *)




(** [m_params]: the two expected parameters, which point to the variables
    [m_param_num_loops] and [m_param_blink_delay_type]; the C start-up
    code has set both variables to zero. *)
Definition m_params : list lys_param_t :=
  [{| param_type := type_ord LYS_PARAM_TYPE_UINT32;
      data := P_uint8 (Mem [0; 0; 0; 0]) |};
   {| param_type := type_ord LYS_PARAM_TYPE_UINT8;
      data := P_uint8 (Mem [0]) |}].




Section main.

Variable LEDS_MASK : Z.
Variable LEDS_LIST : list Z.




End main.

(** ** A sample run *)

(** A caller that waits for a parameter, then calls [lys_finish] and
    [lys_error_send], and a host that ACKs INIT, sends a frame with an
    undefined op and ACKs the error report. *)
Definition sample_script : list (nat * call) :=
  [(4%nat, Call_param_wait); (4%nat, Call_finish);
   (4%nat, Call_error_send)].

Definition sample_start : engine :=
  Eval vm_compute in
    match lys_init (boot (host [[2; 6]; [2; 9]; [2; 6]])) with
    | Ret (_, e) => e
    | _ => boot idle
    end.

Definition sample_end : engine :=
  Eval vm_compute in
    match run sample_script sample_start with
    | Ret (_, e) => e
    | _ => boot idle
    end.

(** * Properties *)

Ltac eng_simpl :=
  cbn [m_buf m_buf_index m_state m_error m_str m_array m_param rtt
       set_buf set_buf_index set_state set_error set_str set_array
       set_param set_rtt buf_set buf_push] in *.

(** Turn the boolean tests of the model into propositions for [lia]. *)
Ltac zbool :=
  repeat match goal with
  | H : (_ >? _) = _ |- _ => rewrite Z.gtb_ltb in H
  | H : (_ >=? _) = _ |- _ => rewrite Z.geb_leb in H
  | H : negb _ = true |- _ => apply negb_true_iff in H
  | H : negb _ = false |- _ => apply negb_false_iff in H
  | H : _ && _ = true |- _ => apply andb_true_iff in H; destruct H
  | H : _ || _ = false |- _ => apply orb_false_iff in H; destruct H
  | H : (_ <=? _) = true |- _ => apply Z.leb_le in H
  | H : (_ <=? _) = false |- _ => apply Z.leb_gt in H
  | H : (_ <? _) = true |- _ => apply Z.ltb_lt in H
  | H : (_ <? _) = false |- _ => apply Z.ltb_ge in H
  | H : (_ =? _) = true |- _ => apply Z.eqb_eq in H
  | H : (_ =? _) = false |- _ => apply Z.eqb_neq in H
  | H : Nat.leb _ _ = true |- _ => apply Nat.leb_le in H
  end.

Ltac consts :=
  unfold LYS_MAX_STR_LEN, LYS_MAX_ARRAY_LEN, LYS_MAX_MSG_LEN,
    LYS_PARAM_VARIABLE_SIZE, LYS_LEN_INDEX, LYS_OP_INDEX,
    LYS_PARAM_TYPE_INDEX, LYS_DATA_INDEX, LYS_ARRAY_PARAM_TYPE_INDEX,
    LYS_ARRAY_DATA_INDEX, LYS_MSG_NO_PARAM_LEN in *.

Lemma uint8_small z : 0 <= z < 256 -> uint8 z = z.
Proof. intros; unfold uint8; apply Z.mod_small; lia. Qed.

Lemma uint32_small z : 0 <= z < 4294967296 -> uint32 z = z.
Proof. intros; unfold uint32; apply Z.mod_small; lia. Qed.

Lemma uint8_range z : 0 <= uint8 z < 256.
Proof. unfold uint8; apply Z.mod_pos_bound; lia. Qed.

Lemma uint32_range z : 0 <= uint32 z < 4294967296.
Proof. unfold uint32; apply Z.mod_pos_bound; lia. Qed.

Lemma load_length e p n bytes :
  load e p n = Some bytes -> 0 <= n /\ length bytes = Z.to_nat n.
Proof.
  destruct p as [|mem|off]; cbn; [done| |].
  - destruct (0 <=? n) eqn:H0, (n <=? Z.of_nat (length mem)) eqn:H1;
      cbn; try done.
    intros [= <-]. zbool. rewrite length_take. lia.
  - destruct (0 <=? off) eqn:H0, (0 <=? n) eqn:H1,
      (off + n <=? Z.of_nat (length (m_buf e))) eqn:H2; cbn; try done.
    intros [= <-]. zbool. rewrite length_take, length_drop. lia.
Qed.

Lemma memcpy_to_buf_spec off src n e e' :
  memcpy_to_buf off src n e = Some e' ->
  0 <= off ->
  exists bytes,
    load e src n = Some bytes /\
    0 <= n /\ off + n <= Z.of_nat (length (m_buf e)) /\
    e' = set_buf (take (Z.to_nat off) (m_buf e) ++ bytes ++
                  drop (Z.to_nat (off + n)) (m_buf e)) e /\
    length (m_buf e') = length (m_buf e).
Proof.
  unfold memcpy_to_buf. destruct (load e src n) as [bytes|] eqn:Hl; [|done].
  destruct (off + n <=? Z.of_nat (length (m_buf e))) eqn:Hb; cbn; [|done].
  destruct (clear_of_buf src off n); [|done].
  intros [= <-] Hoff. apply load_length in Hl as Hlen.
  destruct Hlen as [Hn Hlen]. zbool.
  exists bytes. repeat split; try done; try lia.
  eng_simpl. rewrite !length_app, length_take, length_drop. lia.
Qed.

Lemma param_emit_spec t p n e r e' :
  param_emit t p n e = Ret (r, e') ->
  buf_ok e -> 0 <= m_buf_index e < 64 ->
  r = LYS_ERROR_SUCCESS /\ buf_ok e' /\
  m_buf_index e' = m_buf_index e + 1 + n /\ 0 <= n /\
  m_buf_index e' <= 64 /\ rtt e' = rtt e /\ m_state e' = m_state e /\
  m_error e' = m_error e.
Proof.
  unfold param_emit, buf_ok. consts. intros H Hok Hi.
  destruct (memcpy_to_buf _ _ _ _) as [e1|] eqn:Hm; [|done].
  injection H as <- <-.
  apply memcpy_to_buf_spec in Hm; eng_simpl; [|pose proof (uint8_range (m_buf_index e + 1)); lia].
  destruct Hm as (bytes & _ & Hn & Hb & -> & Hlen). eng_simpl.
  rewrite length_insert in *. rewrite uint8_small in * by lia.
  rewrite Hlen, uint8_small by lia.
  repeat split; try done; try lia.
Qed.

#[local] Arguments uint8 : simpl never.
#[local] Arguments uint32 : simpl never.

Lemma lookup_err t err :
  lys_param_len_lookup t = Err err -> err = LYS_ERROR_INVALID_PARAM.
Proof. unfold lys_param_len_lookup. repeat case_match; congruence. Qed.

Lemma verify_array_len_err e p err :
  verify_array_len e p = Err err -> err = LYS_ERROR_INVALID_PARAM.
Proof.
  unfold verify_array_len. repeat case_match; try congruence.
  intros [= <-]. eauto using lookup_err.
Qed.

Lemma verify_str_len_err e p err :
  verify_str_len e p = Err err -> err = LYS_ERROR_INVALID_PARAM.
Proof. unfold verify_str_len. repeat case_match; congruence. Qed.

(** [param_add], entered as [msg_create] enters it, either appends a
    parameter that fits the buffer or rejects the argument and writes
    nothing. *)
Lemma param_add_spec p e r e' :
  param_add p e = Ret (r, e') ->
  buf_ok e -> m_buf_index e = 2 ->
  (r = LYS_ERROR_SUCCESS /\ buf_ok e' /\ 3 <= m_buf_index e' <= 64 /\
   rtt e' = rtt e /\ m_state e' = m_state e /\ m_error e' = m_error e) \/
  (r = LYS_ERROR_INVALID_PARAM /\ e' = e).
Proof.
  unfold param_add. intros H Hok Hi.
  repeat case_match; simplify_eq;
    try (right; split;
         eauto using lookup_err, verify_array_len_err, verify_str_len_err;
         fail);
    left; apply param_emit_spec in H; eng_simpl;
    rewrite ?Hi, ?uint8_small in * by lia;
    unfold buf_ok in *; eng_simpl; rewrite ?length_insert; try lia;
    destruct H as (-> & ? & ? & ? & ? & ? & ? & ?); repeat split; try done; lia.
Qed.

Lemma msg_create_spec op p e r e' :
  msg_create op p e = Ret (r, e') ->
  buf_ok e ->
  buf_ok e' /\ rtt e' = rtt e /\ m_state e' = m_state e /\
  m_error e' = m_error e /\
  (r = LYS_ERROR_SUCCESS /\ 2 <= m_buf_index e' <= 64 /\
   buf_get e' LYS_LEN_INDEX = m_buf_index e' \/
   r = LYS_ERROR_INVALID_PARAM).
Proof.
  unfold msg_create, bind, modify, ret. intros H Hok.
  assert (Hok1 : buf_ok (buf_push op (set_buf_index LYS_OP_INDEX e))).
  { unfold buf_ok in *. eng_simpl. by rewrite length_insert. }
  assert (Hlen0 : forall e1, buf_ok e1 -> 2 <= m_buf_index e1 <= 64 ->
    buf_ok (buf_set LYS_LEN_INDEX (m_buf_index e1) e1) /\
    buf_get (buf_set LYS_LEN_INDEX (m_buf_index e1) e1) LYS_LEN_INDEX =
    m_buf_index e1).
  { intros e1 H1 H2. unfold buf_ok, buf_get in *. consts. eng_simpl.
    rewrite length_insert. split; [done|].
    rewrite list_lookup_insert_eq by (cbn; lia). cbn.
    apply uint8_small; lia. }
  destruct (lys_op_of op) as [[]|]; simplify_eq; eng_simpl;
    try (destruct (Hlen0 _ Hok1) as [? ?]; [by eng_simpl|];
         eng_simpl; repeat split; try done; left; repeat split; done);
    try (repeat split; try done; by right).
  all: destruct (param_add p _) as [[r1 e1]| |] eqn:Hp; try done;
    apply param_add_spec in Hp; [|done|by eng_simpl];
    destruct Hp as [(-> & ? & ? & ? & ? & ?)|[-> ->]]; simplify_eq.
  all: try (repeat split; try done; by right).
  all: destruct (Hlen0 e1) as [? ?]; [done|lia|].
  all: eng_simpl; repeat split; try done; left; repeat split; try done; lia.
Qed.

(** ** Length prefix of an encoded frame *)

(** C7: whenever [msg_create] succeeds, for any op and any parameter, the
    byte at offset 0 of the frame it leaves in the scratch buffer is the
    number of bytes of the whole frame, the length byte included, and that
    number is at most [LYS_MAX_MSG_LEN] = 64. *)
Theorem msg_create_length_prefix op p_param e e' :
  buf_ok e ->
  msg_create op p_param e = Ret (LYS_ERROR_SUCCESS, e') ->
  frame e' !! 0%nat = Some (Z.of_nat (length (frame e'))) /\
  Z.of_nat (length (frame e')) = m_buf_index e' /\
  Z.of_nat (length (frame e')) <= LYS_MAX_MSG_LEN.
Proof.
  intros Hok H. apply msg_create_spec in H; [|done].
  destruct H as (Hok' & _ & _ & _ & [(_ & Hi & H0)|?]); [|done].
  unfold frame, buf_ok, buf_get in *. consts.
  assert (Hlen : Z.of_nat (length (take (Z.to_nat (m_buf_index e')) (m_buf e')))
                 = m_buf_index e') by (rewrite length_take; lia).
  rewrite Hlen. split; [|lia].
  rewrite lookup_take_lt by lia.
  destruct (m_buf e' !! Z.to_nat 0) as [b|] eqn:Hb.
  - cbn in H0. by rewrite <- H0.
  - apply lookup_ge_None in Hb. cbn in Hb. lia.
Qed.

Lemma msg_create_length_prefix_witness :
  msg_create (op_ord LYS_OP_PARAM) (Own (uint32_param 42 0 0 0)) (boot idle)
  = Ret (LYS_ERROR_SUCCESS, encoded_42) /\
  frame encoded_42 = [7; 5; 0; 42; 0; 0; 0] /\
  frame encoded_42 !! 0%nat = Some (Z.of_nat (length (frame encoded_42))) /\
  Z.of_nat (length (frame encoded_42)) <= LYS_MAX_MSG_LEN.
Proof.
  assert (H : msg_create (op_ord LYS_OP_PARAM) (Own (uint32_param 42 0 0 0))
                (boot idle) = Ret (LYS_ERROR_SUCCESS, encoded_42))
    by (vm_compute; reflexivity).
  assert (Hok : buf_ok (boot idle)) by reflexivity.
  destruct (msg_create_length_prefix _ _ _ _ Hok H) as (H0 & _ & Hle).
  split; [exact H|]. split; [reflexivity|]. split; [exact H0|exact Hle].
Defined.

(** ** Frames of parameters: what the encoder writes and the decoder reads *)

Lemma is_scalar_cases t :
  is_scalar t = true -> t = 0 \/ t = 1 \/ t = 2 \/ t = 3 \/ t = 4.
Proof.
  unfold is_scalar, size_of, lys_param_len_lookup, lys_param_type_of.
  destruct t as [|p|p]; [tauto| |done].
  repeat (destruct p as [p|p|]; try done; try tauto).
Qed.

Lemma load_mem e bs n : n = Z.of_nat (length bs) -> load e (Mem bs) n = Some bs.
Proof.
  intros ->. cbn. 
  rewrite (proj2 (Z.leb_le 0 _)), (proj2 (Z.leb_le _ _)) by lia. cbn.
  by rewrite Nat2Z.id, firstn_all.
Qed.

Lemma load_buf e pre bs tail off n :
  m_buf e = pre ++ bs ++ tail -> off = Z.of_nat (length pre) -> n = Z.of_nat (length bs) ->
  load e (Buf off) n = Some bs.
Proof.
  intros Hb -> ->. cbn. rewrite Hb.
  rewrite !(proj2 (Z.leb_le _ _)) by (rewrite ?length_app; lia). cbn.
  by rewrite !Nat2Z.id, drop_app_length, take_app_length.
Qed.

(** Concrete buffer offsets as [nat]. *)
Ltac znat :=
  change (Z.to_nat 0) with 0%nat; change (Z.to_nat 1) with 1%nat;
  change (Z.to_nat 2) with 2%nat; change (Z.to_nat 3) with 3%nat;
  change (Z.to_nat 4) with 4%nat.

Lemma engine_eq e1 e2 :
  m_buf e1 = m_buf e2 -> m_buf_index e1 = m_buf_index e2 ->
  m_state e1 = m_state e2 -> m_error e1 = m_error e2 ->
  m_str e1 = m_str e2 -> m_array e1 = m_array e2 ->
  m_param e1 = m_param e2 -> rtt e1 = rtt e2 -> e1 = e2.
Proof. destruct e1, e2; cbn; intros; by subst. Qed.

Lemma param_emit_mem t bs n e :
  buf_ok e -> 0 <= m_buf_index e -> m_buf_index e + 1 + n <= 64 ->
  n = Z.of_nat (length bs) ->
  param_emit t (Mem bs) n e =
  Ret (LYS_ERROR_SUCCESS,
       set_buf_index (m_buf_index e + 1 + n)
         (set_buf (take (Z.to_nat (m_buf_index e)) (m_buf e) ++ uint8 t :: bs ++
                   drop (Z.to_nat (m_buf_index e + 1 + n)) (m_buf e)) e)).
Proof.
  unfold buf_ok. consts. intros Hok Hi Hn ->.
  unfold param_emit, memcpy_to_buf. eng_simpl.
  rewrite load_mem by done. eng_simpl. rewrite length_insert.
  rewrite !uint8_small by lia.
  rewrite (proj2 (Z.leb_le _ _)) by lia. cbn [andb clear_of_buf].
  f_equal. f_equal. apply engine_eq; eng_simpl; try done.
  - replace (Z.to_nat (m_buf_index e + 1)) with (S (Z.to_nat (m_buf_index e))) by lia.
    erewrite take_S_r by (apply list_lookup_insert_eq; lia).
    rewrite take_insert_ge by lia. rewrite drop_insert_lt by lia.
    by rewrite <- app_assoc.
  - rewrite (uint8_small (m_buf_index e + 1)) by lia. apply uint8_small. lia.
Qed.

Lemma msg_create_with_param op p e :
  op = LYS_OP_PARAM \/ op = LYS_OP_LOG ->
  msg_create (op_ord op) p e =
  match param_add p (buf_push (op_ord op) (set_buf_index LYS_OP_INDEX e)) with
  | Ret (LYS_ERROR_SUCCESS, e) =>
      Ret (LYS_ERROR_SUCCESS, buf_set LYS_LEN_INDEX (m_buf_index e) e)
  | o => o
  end.
Proof.
  intros [-> | ->]; unfold msg_create, bind, modify, ret; cbn [lys_op_of op_ord];
    by repeat case_match.
Qed.

Lemma msg_create_param op v e :
  op = LYS_OP_PARAM \/ op = LYS_OP_LOG ->
  buf_ok e -> in_data_model v = true -> fits_frame v = true ->
  msg_create (op_ord op) (Own (param_of v)) e = Ret (LYS_ERROR_SUCCESS, holding (wire (op_ord op) v) e).
Proof.
  intros Hop Hok Hv Hf.
  assert (lys_op_of (op_ord op) = Some op) as Hop' by (by destruct op).
  assert (0 <= op_ord op < 256) as Hop8 by (destruct op; cbn; lia).
  assert (Hok1 : buf_ok (buf_push (op_ord op) (set_buf_index LYS_OP_INDEX e))).
  { unfold buf_ok in *. eng_simpl. by rewrite length_insert. }
  rewrite msg_create_with_param by done.
  unfold param_add. cbn [deref]. unfold buf_ok in Hok. consts.
  destruct v as [t bs|bs|t n bs]; cbn in Hv, Hf; zbool.
  - (* scalar *)
    cbn [param_of param_type data data_p_uint8].
    apply is_scalar_cases in H.
    assert (Hs : lys_param_len_lookup t = Ok (size_of t) /\ 1 <= size_of t <= 4 /\ 0 <= t < 256).
    { destruct H as [->|[->|[->|[->| ->]]]]; cbn; split; try done; lia. }
    destruct Hs as (-> & Hs & Ht).
    rewrite (proj2 (Z.eqb_neq (size_of t) _)) by lia.
    rewrite uint32_small by lia.
    rewrite (proj2 (Z.ltb_ge _ _)) by lia.
    change (uint8 (1 + 1)) with 2.
    rewrite param_emit_mem; eng_simpl; change (uint8 (1 + 1)) with 2; try lia; [|done].
    f_equal. f_equal. unfold holding, wire. consts.
    apply engine_eq; eng_simpl; try done; [|rewrite length_app; cbn; lia].
    destruct (m_buf e) as [|b0 [|b1 [|b2 buf]]]; cbn in Hok; try lia.
    replace (Z.to_nat (2 + 1 + size_of t)) with (3 + length bs)%nat by lia.
    znat. cbn. rewrite !uint8_small by lia. do 4 f_equal. lia.
  - (* string *)
    cbn [param_of param_type data data_p_str len p_data deref].
    cbn [lys_param_len_lookup type_ord lys_param_type_of Z.eqb Pos.eqb].
    unfold verify_str_len. cbn [deref len p_data].
    consts. rewrite (proj2 (Z.eqb_neq (Z.of_nat (length bs)) _)) by lia.
    rewrite uint32_small by lia.
    rewrite (proj2 (Z.ltb_ge _ _)) by lia.
    change (uint8 (1 + 1)) with 2.
    rewrite param_emit_mem; eng_simpl; change (uint8 (1 + 1)) with 2; try lia; [|done].
    f_equal. f_equal. unfold holding, wire. consts.
    apply engine_eq; eng_simpl; try done; [|rewrite length_app; cbn; lia].
    destruct (m_buf e) as [|b0 [|b1 [|b2 buf]]]; cbn in Hok; try lia.
    replace (Z.to_nat (2 + 1 + Z.of_nat (length bs))) with (3 + length bs)%nat by lia.
    znat. cbn. rewrite !uint8_small by lia. done.
  - (* array *)
    cbn [param_of param_type data data_p_array array_param_type item_count array_data deref].
    cbn [lys_param_len_lookup type_ord lys_param_type_of Z.eqb Pos.eqb].
    unfold verify_array_len. cbn [deref array_param_type item_count].
    apply is_scalar_cases in H.
    assert (Hs : lys_param_len_lookup t = Ok (size_of t) /\ 1 <= size_of t <= 4 /\ 0 <= t < 256).
    { destruct H as [->|[->|[->|[->| ->]]]]; cbn; split; try done; lia. }
    destruct Hs as (-> & Hs & Ht).
    consts. rewrite (proj2 (Z.eqb_neq n _)), (proj2 (Z.eqb_neq (size_of t) _)) by lia.
    rewrite !(uint32_small) by (rewrite ?uint32_small; nia).
    rewrite (proj2 (Z.ltb_ge _ _)) by lia.
    rewrite param_emit_mem; eng_simpl; change (uint8 (uint8 (1 + 1) + 1)) with 3;
      change (uint8 (1 + 1)) with 2; try lia.
    2: { unfold buf_ok. eng_simpl. by rewrite !length_insert. }
    f_equal. f_equal. unfold holding, wire. consts.
    apply engine_eq; eng_simpl; try done; [|rewrite length_app; cbn; lia].
    destruct (m_buf e) as [|b0 [|b1 [|b2 [|b3 buf]]]]; cbn in Hok; try lia.
    replace (Z.to_nat (3 + 1 + size_of t * n)) with (4 + length bs)%nat by lia.
    znat. cbn. rewrite !uint8_small by lia. do 5 f_equal. lia.
Qed.

Lemma msg_parse_with_param op e :
  op = LYS_OP_PARAM \/ op = LYS_OP_LOG ->
  buf_get e LYS_OP_INDEX = op_ord op ->
  msg_parse e =
  match param_parse e with
  | Ret (LYS_ERROR_SUCCESS, e) =>
      Ret ({| r_err := LYS_ERROR_SUCCESS; r_op := op_ord op;
              r_param := Static |}, e)
  | Ret (err, e) =>
      Ret ({| r_err := err; r_op := op_ord op; r_param := Null |}, e)
  | Diverge => Diverge
  | Undefined => Undefined
  end.
Proof. intros [-> | ->] H; unfold msg_parse; rewrite H; reflexivity. Qed.

Lemma msg_parse_param op v e tail :
  op = LYS_OP_PARAM \/ op = LYS_OP_LOG ->
  in_data_model v = true -> fits_frame v = true ->
  m_buf e = wire (op_ord op) v ++ tail ->
  exists e',
    msg_parse e = Ret ({| r_err := LYS_ERROR_SUCCESS; r_op := op_ord op;
                          r_param := Static |}, e') /\
    value_of e' (m_param e') = Some v /\
    m_buf e' = m_buf e /\ m_buf_index e' = m_buf_index e /\
    m_state e' = m_state e /\ m_error e' = m_error e /\ rtt e' = rtt e.
Proof.
  intros Hop Hv Hf Hb.
  assert (0 <= op_ord op < 256) as Hop8 by (destruct op; cbn; lia).
  rewrite (msg_parse_with_param op) by
    (try done; unfold buf_get; rewrite Hb; by destruct v).
  unfold param_parse.
  destruct v as [t bs|bs|t n bs]; cbn in Hv, Hf; zbool.
  - apply is_scalar_cases in H.
    assert (buf_get e LYS_PARAM_TYPE_INDEX = t) as -> by (unfold buf_get; by rewrite Hb).
    assert (buf_get e LYS_LEN_INDEX = 3 + Z.of_nat (length bs)) as -> by (unfold buf_get; by rewrite Hb).
    assert (Hs : 1 <= size_of t <= 4)
      by (destruct H as [->|[->|[->|[->| ->]]]]; cbn; lia).
    assert (Ht : 0 <= t < 5) by lia.
    cbn [type_ord]. rewrite !(proj2 (Z.eqb_neq _ t)) by lia.
    consts. rewrite uint32_small by lia.
    replace (3 + Z.of_nat (length bs) - 3) with (size_of t) by lia.
    destruct H as [->|[->|[->|[->| ->]]]]; cbn; (eexists; split; [done|]);
      (split; [|done]); unfold value_of; cbn -[load];
      erewrite (load_buf _ [_; _; _] bs tail);
      first [done | exact Hb | cbn in H0; lia].
  - assert (buf_get e LYS_PARAM_TYPE_INDEX = 5) as -> by (unfold buf_get; by rewrite Hb).
    assert (buf_get e LYS_LEN_INDEX = 3 + Z.of_nat (length bs)) as -> by (unfold buf_get; by rewrite Hb).
    cbn [type_ord Z.eqb Pos.eqb].
    consts. rewrite uint32_small by lia. cbn -[load].
    eexists; split; [done|]. split; [|done]. unfold value_of; cbn -[load].
    erewrite (load_buf _ [_; _; _] bs tail); first [done | exact Hb | lia].
  - apply is_scalar_cases in H.
    assert (buf_get e LYS_PARAM_TYPE_INDEX = 6) as -> by (unfold buf_get; by rewrite Hb).
    assert (Hs : 1 <= size_of t <= 4)
      by (destruct H as [->|[->|[->|[->| ->]]]]; cbn; lia).
    cbn [type_ord Z.eqb Pos.eqb]. eng_simpl.
    assert (buf_get e LYS_ARRAY_PARAM_TYPE_INDEX = t) as Ht by (unfold buf_get; by rewrite Hb).
    assert (buf_get e LYS_LEN_INDEX = 4 + Z.of_nat (length bs)) as Hl by (unfold buf_get; by rewrite Hb).
    unfold buf_get in *. eng_simpl. cbn [array_param_type]. rewrite Ht, Hl.
    consts. rewrite uint32_small by lia.
    replace (4 + Z.of_nat (length bs) - 4) with (n * size_of t) by lia.
    assert (Hl' : lys_param_len_lookup t = Ok (size_of t))
      by (destruct H as [->|[->|[->|[->| ->]]]]; done).
    rewrite Hl'. unfold c_mod, c_div.
    rewrite (proj2 (Z.eqb_neq (size_of t) 0)) by lia.
    rewrite Z.mod_mul, Z.div_mul by lia. cbn [Z.eqb negb].
    eexists; split; [done|]. split; [|done]. unfold value_of; cbn -[load].
    erewrite (load_buf _ [_; _; _; _] bs tail); first [done | exact Hb | lia].
Qed.


(** ** Round trip through the codec *)

(** C1 (amended): for every value [v] of the data model whose frame fits
    the scratch buffer (any scalar; a string of 1 to 61 bytes; an array of
    at least one scalar item and at most 60 bytes), encoding a PARAM frame
    with [v] and then decoding the buffer succeeds with op PARAM and a
    parameter that stands for [v]: same tag, same length or item count,
    same bytes. *)
Theorem codec_roundtrip v e :
  buf_ok e -> in_data_model v = true -> fits_frame v = true ->
  returned (encode_decode v e) =
  Some (inr (LYS_ERROR_SUCCESS, op_ord LYS_OP_PARAM, Some v)).
Proof.
  intros Hok Hv Hf. unfold encode_decode, decode, bind, get, ret.
  rewrite (msg_create_param LYS_OP_PARAM) by auto.
  destruct (msg_parse_param LYS_OP_PARAM v
              (holding (wire (op_ord LYS_OP_PARAM) v) e) _
              (or_introl eq_refl) Hv Hf eq_refl) as (e' & -> & Hval & _).
  cbn -[value_of]. unfold global, global_param. by rewrite Hval.
Qed.

Lemma codec_roundtrip_witness :
  returned (encode_decode (V_array 0 2 [1; 2; 3; 4; 5; 6; 7; 8]) (boot idle))
  = Some (inr (LYS_ERROR_SUCCESS, 5, Some (V_array 0 2 [1; 2; 3; 4; 5; 6; 7; 8]))).
Proof. apply codec_roundtrip; reflexivity. Defined.

(** C1 as stated fails: a string of 62 bytes and an array of 61 one-byte
    items are values of the data model (at most 64 bytes), yet
    [msg_create] rejects both, because byte 3 (byte 4 for an array) of the
    64-byte frame is where the data starts. *)
Lemma codec_roundtrip_long_values_rejected :
  in_data_model (V_string (replicate 62 7)) = true /\
  returned (encode_decode (V_string (replicate 62 7)) (boot idle)) =
  Some (inl LYS_ERROR_INVALID_PARAM) /\
  in_data_model (V_array 2 61 (replicate 61 7)) = true /\
  returned (encode_decode (V_array 2 61 (replicate 61 7)) (boot idle)) =
  Some (inl LYS_ERROR_INVALID_PARAM).
Proof. repeat split; reflexivity. Qed.

(** ** Decoding frames the encoder would not write *)

(** A STRING frame decodes whatever its length byte says; an ARRAY frame
    with a scalar inner tag decodes when its data length is a multiple of
    the item size, zero included. *)
Lemma string_frame_parse e op :
  op = LYS_OP_PARAM \/ op = LYS_OP_LOG ->
  buf_get e LYS_OP_INDEX = op_ord op ->
  buf_get e LYS_PARAM_TYPE_INDEX = type_ord LYS_PARAM_TYPE_STRING ->
  exists e',
    msg_parse e = Ret ({| r_err := LYS_ERROR_SUCCESS; r_op := op_ord op;
                          r_param := Static |}, e') /\
    m_str e' = {| len := uint32 (buf_get e LYS_LEN_INDEX - LYS_DATA_INDEX);
                  p_data := Buf LYS_DATA_INDEX |}.
Proof.
  intros Hop H1 H2. rewrite (msg_parse_with_param op) by done.
  unfold param_parse. rewrite H2. cbn [type_ord Z.eqb Pos.eqb].
  eexists. split; reflexivity.
Qed.

Lemma array_frame_parse e op S :
  op = LYS_OP_PARAM \/ op = LYS_OP_LOG ->
  buf_get e LYS_OP_INDEX = op_ord op ->
  buf_get e LYS_PARAM_TYPE_INDEX = type_ord LYS_PARAM_TYPE_ARRAY ->
  lys_param_len_lookup (buf_get e LYS_ARRAY_PARAM_TYPE_INDEX) = Ok S ->
  S <> 0 ->
  let data_len := uint32 (buf_get e LYS_LEN_INDEX - LYS_ARRAY_DATA_INDEX) in
  exists e',
    if data_len mod S =? 0 then
      msg_parse e = Ret ({| r_err := LYS_ERROR_SUCCESS; r_op := op_ord op;
                            r_param := Static |}, e') /\
      item_count (m_array e') = data_len / S
    else
      msg_parse e = Ret ({| r_err := LYS_ERROR_INVALID_PARAM;
                            r_op := op_ord op; r_param := Null |}, e').
Proof.
  intros Hop H1 H2 H3 HS data_len. rewrite (msg_parse_with_param op) by done.
  unfold param_parse. rewrite H2, Z.eqb_refl. eng_simpl.
  subst data_len. unfold buf_get in *. eng_simpl. cbn [array_param_type].
  rewrite H3. unfold c_mod, c_div. rewrite (proj2 (Z.eqb_neq S 0)) by done.
  rewrite (Z.eqb_sym 0).
  destruct (_ mod S =? 0); cbn [negb]; eexists; [split|]; reflexivity.
Qed.

(** An ARRAY frame whose inner tag is STRING or ARRAY makes [param_parse]
    divide by [LYS_PARAM_VARIABLE_SIZE], which is zero. *)
Lemma nested_array_frame_undefined e :
  buf_get e LYS_OP_INDEX = op_ord LYS_OP_PARAM \/
  buf_get e LYS_OP_INDEX = op_ord LYS_OP_LOG ->
  buf_get e LYS_PARAM_TYPE_INDEX = type_ord LYS_PARAM_TYPE_ARRAY ->
  buf_get e LYS_ARRAY_PARAM_TYPE_INDEX = type_ord LYS_PARAM_TYPE_STRING \/
  buf_get e LYS_ARRAY_PARAM_TYPE_INDEX = type_ord LYS_PARAM_TYPE_ARRAY ->
  msg_parse e = Undefined.
Proof.
  intros Hop Htag Hinner. unfold msg_parse, param_parse.
  rewrite Htag. cbn [type_ord Z.eqb Pos.eqb]. eng_simpl.
  unfold buf_get in *. eng_simpl. cbn [array_param_type].
  destruct Hop as [-> | ->], Hinner as [-> | ->]; reflexivity.
Qed.

(** C2: the complete frame [04 05 06 05] (PARAM, ARRAY of STRING, no
    data) does not decode to InvalidParam: [param_parse] evaluates
    [data_len % param_len] with [param_len] = 0. *)
Theorem nested_array_frame_divides_by_zero :
  receive_decode 2 (boot (host [[4; 5; 6; 5]])) = Undefined /\
  receive_decode 2 (boot (host [[8; 7; 6; 6; 0; 1; 2; 3]])) = Undefined.
Proof. split; reflexivity. Qed.

(** C3: the complete frame [04 05 06 00] (PARAM, ARRAY of UINT32, zero
    data bytes) is not rejected: it decodes to an array of 0 items. *)
Theorem empty_array_frame_accepted :
  returned (receive_decode 2 (boot (host [[4; 5; 6; 0]]))) =
  Some (LYS_ERROR_SUCCESS, 5, Some (V_array 0 0 [])).
Proof. reflexivity. Qed.

(** C4: the complete frame [03 05 05] (PARAM, STRING, zero data bytes) is
    not rejected: it decodes to a string of length 0. *)
Theorem empty_string_frame_accepted :
  returned (receive_decode 2 (boot (host [[3; 5; 5]]))) =
  Some (LYS_ERROR_SUCCESS, 5, Some (V_string [])).
Proof. reflexivity. Qed.

(** ** Transport adapter: every byte goes out, every frame comes in *)

Lemma channel_eq c1 c2 :
  rx c1 = rx c2 -> tx c1 = tx c2 -> tx_room c1 = tx_room c2 -> c1 = c2.
Proof. destruct c1, c2; cbn; intros; by subst. Qed.

(** [write_loop] gets all its bytes out once the transport has room:
    whatever short writes come first, the bytes accepted add up to the
    [count] bytes asked for. *)
Lemma write_loop_spec fuel : forall src count bytes_written e,
  0 <= bytes_written <= count ->
  count <= Z.of_nat (length src) -> count < 4294967296 ->
  (length (tx_room (rtt e)) + 1 <= fuel)%nat ->
  (bytes_written < count -> (length (tx_room (rtt e)) + 2 <= fuel)%nat) ->
  exists room',
    write_loop fuel src count bytes_written e =
    Ret (tt, set_rtt {| rx := rx (rtt e);
                        tx := tx (rtt e) ++
                              take (Z.to_nat (count - bytes_written))
                                   (drop (Z.to_nat bytes_written) src);
                        tx_room := room' |} e) /\
    (length room' <= length (tx_room (rtt e)))%nat.
Proof.
  induction fuel as [|fuel IH]; intros src count bw e Hbw Hsrc Hc Hf1 Hf2; [lia|].
  cbn [write_loop]. destruct (bw <? count) eqn:Hlt; zbool.
  - specialize (Hf2 Hlt).
    set (chunk := take (Z.to_nat (count - bw)) (drop (Z.to_nat bw) src)).
    assert (Hchunk : length chunk = Z.to_nat (count - bw)).
    { unfold chunk. rewrite length_take, length_drop. lia. }
    unfold SEGGER_RTT_Write. destruct (tx_room (rtt e)) as [|room rest] eqn:Hroom.
    + edestruct (IH src count (uint32 (bw + Z.of_nat (length chunk)))) as (room' & -> & Hr).
      5: { eng_simpl. cbn [tx_room rx tx]. rewrite uint32_small by lia. intros ?; lia. }
      all: eng_simpl; cbn [tx_room rx tx length]; rewrite ?uint32_small by lia; try lia.
      exists room'. split; [|cbn in Hr; cbn; lia].
      do 2 f_equal. apply engine_eq; eng_simpl; try done.
      apply channel_eq; cbn [rx tx tx_room]; try done.
      replace (Z.to_nat (count - (bw + Z.of_nat (length chunk)))) with 0%nat by lia.
      cbn. by rewrite app_nil_r.
    + set (n := Z.of_nat (length (take (Z.to_nat room) chunk))).
      assert (Hn : 0 <= n <= count - bw) by (unfold n; rewrite length_take; lia).
      cbn [length] in *.
      edestruct (IH src count (uint32 (bw + n))) as (room' & -> & Hr).
      5: { eng_simpl. cbn [tx_room rx tx]. rewrite uint32_small by lia. intros ?; lia. }
      all: eng_simpl; cbn [tx_room rx tx length]; rewrite ?uint32_small by lia; try lia.
      exists room'. split; [|cbn in Hr; cbn; lia].
      do 2 f_equal. apply engine_eq; eng_simpl; try done.
      apply channel_eq; cbn [rx tx tx_room]; try done.
      rewrite <- app_assoc. f_equal. unfold chunk.
      rewrite take_take.
      replace (Z.to_nat (count - (bw + n))) with (Z.to_nat (count - bw) - Z.to_nat n)%nat by lia.
      replace (Z.to_nat (bw + n)) with (Z.to_nat bw + Z.to_nat n)%nat by lia.
      rewrite <- drop_drop.
      replace (Z.to_nat room `min` Z.to_nat (count - bw))%nat with (Z.to_nat n)
        by (unfold n; rewrite length_take; lia).
      rewrite take_take_drop. f_equal. lia.
  - exists (tx_room (rtt e)). split; [|done].
    do 2 f_equal. apply engine_eq; eng_simpl; try done.
    apply channel_eq; cbn [rx tx tx_room]; try done.
    replace (Z.to_nat (count - bw)) with 0%nat by lia. cbn. by rewrite app_nil_r.
Qed.

Lemma last_cons_nonempty {A} (c : list A) cs :
  match last (c :: cs) with Some (_ :: _) => true | _ => false end = true ->
  (cs = [] /\ c <> []) \/
  match last cs with Some (_ :: _) => true | _ => false end = true.
Proof.
  destruct cs as [|c' cs]; cbn.
  - destruct c; [done|]. by left.
  - intros H. by right.
Qed.

Lemma last_nonempty_concat {A} (cs : list (list A)) :
  match last cs with Some (_ :: _) => true | _ => false end = true ->
  (0 < length (concat cs))%nat.
Proof.
  induction cs as [|c cs IH]; [done|]. intros H.
  apply last_cons_nonempty in H as [[-> Hc]|H].
  - destruct c; [done|]. cbn. lia.
  - cbn. rewrite length_app. specialize (IH H). lia.
Qed.

Lemma msg_complete_true e :
  1 <= m_buf_index e -> buf_get e LYS_LEN_INDEX <= m_buf_index e ->
  msg_complete e = true.
Proof.
  unfold msg_complete. consts. intros H1 H2.
  rewrite Z.geb_leb, Z.gtb_ltb.
  rewrite (proj2 (Z.leb_gt _ _)), (proj2 (Z.ltb_ge _ _)) by lia. done.
Qed.

Lemma msg_complete_false e :
  m_buf_index e <= 0 \/ m_buf_index e < buf_get e LYS_LEN_INDEX ->
  msg_complete e = false.
Proof.
  unfold msg_complete. consts. intros H.
  rewrite Z.geb_leb, Z.gtb_ltb. apply negb_false_iff, orb_true_iff.
  destruct H; [left; apply Z.leb_le|right; apply Z.ltb_lt]; lia.
Qed.

Lemma buf_get_0 e x : m_buf e !! 0%nat = Some x -> buf_get e LYS_LEN_INDEX = x.
Proof. unfold buf_get. consts. znat. by intros ->. Qed.

Lemma read_loop_delivers f rest : forall cs fuel got e,
  framed f = true -> buf_ok e ->
  m_buf_index e = Z.of_nat (length got) ->
  take (length got) (m_buf e) = got ->
  got ++ concat cs = f ->
  cs = [] \/ match last cs with Some (_ :: _) => true | _ => false end = true ->
  rx (rtt e) = cs ++ rest ->
  (length cs + 1 <= fuel)%nat ->
  read_loop fuel e =
  Ret (tt, set_rtt {| rx := rest; tx := tx (rtt e);
                      tx_room := tx_room (rtt e) |} (holding f e)).
Proof.
  unfold framed, buf_ok. consts.
  induction cs as [|c cs IH]; intros fuel got e Hfr Hok Hi Hgot Hf Hlast Hrx Hfuel;
    (destruct fuel as [|fuel]; [cbn in Hfuel; lia|]); cbn [read_loop];
    zbool; apply bool_decide_eq_true in H.
  - cbn in Hf. rewrite app_nil_r in Hf. subst got.
    assert (Hb0 : m_buf e !! 0%nat = Some (Z.of_nat (length f))).
    { rewrite <- H, <- Hgot at 1. rewrite lookup_take_lt; [done|].
      destruct f; [done|cbn; lia]. }
    rewrite msg_complete_true;
      [|destruct f; [done|cbn [length] in *; lia]
       |rewrite (buf_get_0 _ _ Hb0); lia].
    do 2 f_equal. apply engine_eq; unfold holding; eng_simpl; try done.
    + rewrite <- Hgot at 1. by rewrite take_drop.
    + by apply channel_eq.
  - assert (Hc : (0 < length (concat (c :: cs)))%nat).
    { destruct Hlast as [|Hlast]; [done|]. by apply last_nonempty_concat. }
    assert (Hlen : (length got + length (concat (c :: cs)) = length f)%nat)
      by (rewrite <- Hf, length_app; lia).
    rewrite msg_complete_false.
    2:{ destruct got as [|g got]; [left; cbn in Hi; lia|right].
        assert (m_buf e !! 0%nat = Some g) as Hb0.
        { destruct (m_buf e) as [|b buf']; cbn in Hgot; [done|].
          by injection Hgot as -> _. }
        assert (g = Z.of_nat (length f)) as Hg.
        { rewrite <- Hf in H at 1. cbn in H. by injection H. }
        rewrite (buf_get_0 _ _ Hb0). lia. }
    unfold SEGGER_RTT_Read. rewrite Hrx. cbn [app].
    cbn [concat] in Hlen. rewrite length_app in Hlen. consts.
    rewrite uint32_small by lia.
    assert (Hcap : (length c <= Z.to_nat (64 - m_buf_index e))%nat) by lia.
    rewrite (take_ge c) by lia.
    rewrite (proj2 (Nat.leb_le _ _)) by lia.
    erewrite (IH fuel (got ++ c)); eng_simpl; cbn [rx tx tx_room]; try done.
    + do 2 f_equal. apply engine_eq; unfold holding; eng_simpl; try done.
      f_equal. rewrite Hi, Nat2Z.id, Hgot.
      rewrite !drop_app, drop_drop.
      rewrite (drop_ge got), (drop_ge c) by lia.
      cbn [app]. f_equal. lia.
    + apply andb_true_iff. split; [by apply bool_decide_eq_true|].
      apply Z.leb_le. lia.
    + rewrite !length_app, length_take, length_drop. lia.
    + rewrite uint8_small, length_app by lia. lia.
    + rewrite Hi, Nat2Z.id, Hgot. rewrite app_assoc.
      by rewrite take_app_length.
    + rewrite <- Hf. cbn. by rewrite app_assoc.
    + destruct Hlast as [|Hlast]; [done|].
      apply last_cons_nonempty in Hlast as [[-> _]|?]; auto.
    + cbn in Hfuel. lia.
Qed.

Lemma holding_buf_ok f e :
  buf_ok e -> Z.of_nat (length f) <= 64 -> buf_ok (holding f e).
Proof.
  unfold buf_ok, holding. consts. eng_simpl. intros.
  rewrite length_app, length_drop. lia.
Qed.

Lemma msg_send_spec fuel e :
  buf_ok e -> 0 <= m_buf_index e <= 64 ->
  (pending e + 2 <= fuel)%nat ->
  exists room',
    msg_send fuel e =
    Ret (tt, set_rtt {| rx := rx (rtt e); tx := tx (rtt e) ++ frame e;
                        tx_room := room' |} e) /\
    (length room' <= length (tx_room (rtt e)))%nat.
Proof.
  unfold buf_ok, pending, msg_send, frame. consts. intros Hok Hi Hf.
  destruct (write_loop_spec fuel (m_buf e) (m_buf_index e) 0 e)
    as (room' & -> & Hr); try lia.
  exists room'. split; [|done]. by rewrite Z.sub_0_r.
Qed.

Lemma ack_msg_send_spec fuel e :
  (pending e + 2 <= fuel)%nat ->
  exists room',
    ack_msg_send fuel e =
    Ret (tt, set_rtt {| rx := rx (rtt e); tx := tx (rtt e) ++ m_ack_buf;
                        tx_room := room' |} e) /\
    (length room' <= length (tx_room (rtt e)))%nat.
Proof.
  unfold pending, ack_msg_send. consts. intros Hf.
  destruct (write_loop_spec fuel m_ack_buf 2 0 e)
    as (room' & -> & Hr); cbn; try lia.
  by exists room'.
Qed.

Lemma msg_receive_delivers fuel e cs rest f :
  buf_ok e -> framed f = true -> delivers cs f = true ->
  rx (rtt e) = cs ++ rest -> (pending e + 2 <= fuel)%nat ->
  msg_receive fuel e =
  msg_parse (set_rtt {| rx := rest; tx := tx (rtt e);
                        tx_room := tx_room (rtt e) |} (holding f e)).
Proof.
  unfold delivers, pending. intros Hok Hfr Hd Hrx Hfuel. zbool.
  apply bool_decide_eq_true in H.
  unfold msg_receive, bind, modify.
  rewrite (read_loop_delivers f rest cs fuel []); eng_simpl; try done; auto.
  rewrite Hrx, length_app in Hfuel. lia.
Qed.

Lemma msg_create_simple op p e :
  op <> LYS_OP_PARAM -> op <> LYS_OP_LOG -> buf_ok e ->
  msg_create (op_ord op) p e =
  Ret (LYS_ERROR_SUCCESS, holding (simple_frame op) e).
Proof.
  unfold buf_ok. consts. intros H1 H2 Hok.
  assert (0 <= op_ord op < 256) by (destruct op; cbn; lia).
  destruct (m_buf e) as [|b0 [|b1 buf]] eqn:Hb; cbn in Hok; try lia.
  destruct op; try done; unfold msg_create, bind, modify, ret;
    cbn [op_ord lys_op_of]; do 2 f_equal;
    apply engine_eq; unfold holding; eng_simpl; try done;
    rewrite Hb; done.
Qed.

Lemma msg_parse_simple op e tail :
  op <> LYS_OP_PARAM -> op <> LYS_OP_LOG ->
  m_buf e = simple_frame op ++ tail ->
  msg_parse e = Ret ({| r_err := LYS_ERROR_SUCCESS; r_op := op_ord op;
                        r_param := Null |}, e).
Proof.
  intros H1 H2 Hb. unfold msg_parse, buf_get. rewrite Hb.
  by destruct op.
Qed.

Lemma framed_simple op : framed (simple_frame op) = true.
Proof. done. Qed.

Lemma wait_for_ack_spec fuel e cs rest :
  buf_ok e -> delivers cs (simple_frame LYS_OP_ACK) = true ->
  rx (rtt e) = cs ++ rest -> (pending e + 2 <= fuel)%nat ->
  wait_for_ack fuel e =
  Ret (LYS_ERROR_SUCCESS,
       set_rtt {| rx := rest; tx := tx (rtt e); tx_room := tx_room (rtt e) |}
         (holding (simple_frame LYS_OP_ACK) e)).
Proof.
  intros Hok Hd Hrx Hfuel. unfold wait_for_ack, bind.
  rewrite (msg_receive_delivers fuel e cs rest (simple_frame LYS_OP_ACK))
    by done.
  by erewrite (msg_parse_simple LYS_OP_ACK).
Qed.

(** A data frame goes out whole and its ACK comes back. *)
Lemma msg_send_and_ack_spec fuel op p e e1 cs rest :
  buf_ok e ->
  msg_create (op_ord op) p e = Ret (LYS_ERROR_SUCCESS, e1) ->
  delivers cs (simple_frame LYS_OP_ACK) = true ->
  rx (rtt e) = cs ++ rest -> (pending e + 2 <= fuel)%nat ->
  exists e',
    msg_send_and_ack fuel op p e = Ret (LYS_ERROR_SUCCESS, e') /\
    io e e' cs (frame e1) /\ rx (rtt e') = rest /\ m_state e' = m_state e.
Proof.
  intros Hok Hc Hd Hrx Hfuel.
  destruct (msg_create_spec _ _ _ _ _ Hc Hok)
    as (Hok1 & Hrtt & Hst & Her & [(_ & Hi & _)|?]); [|done].
  unfold msg_send_and_ack, bind. rewrite Hc.
  destruct (msg_send_spec fuel e1) as (room' & -> & Hr);
    [done|lia|unfold pending in *; by rewrite Hrtt|].
  erewrite wait_for_ack_spec; eng_simpl; cbn [rx tx tx_room]; try done.
  - eexists. split; [done|]. unfold io. eng_simpl. cbn [rx tx tx_room].
    rewrite Hrtt in *. repeat split; try done.
    apply holding_buf_ok; [done|cbn; lia].
  - by rewrite Hrtt.
  - unfold pending in *. eng_simpl. cbn [rx tx tx_room]. rewrite Hrtt in *. lia.
Qed.

(** ** Operations that leave the session alone *)

Lemma quiet_ret {A} (a : A) : quiet (ret a).
Proof. by intros e a' e' [= _ <-]. Qed.

Lemma quiet_bind {A B} (m : M A) (k : A -> M B) :
  quiet m -> (forall a, quiet (k a)) -> quiet (bind m k).
Proof.
  intros Hm Hk e b e'. unfold bind.
  destruct (m e) as [[a e1]| |] eqn:H1; [|done..].
  intros H2. rewrite (Hk _ _ _ _ H2). eauto.
Qed.

Lemma quiet_modify f :
  (forall e, session (f e) = session e) -> quiet (modify f).
Proof. intros Hf e a e' [= _ <-]. apply Hf. Qed.

Lemma quiet_get : quiet get.
Proof. by intros e a e' [= _ <-]. Qed.

Lemma quiet_param_emit t p n : quiet (param_emit t p n).
Proof.
  intros e a e'. unfold param_emit, memcpy_to_buf.
  repeat case_match; try done. by intros [= _ <-]; simplify_eq.
Qed.

Lemma quiet_param_add p : quiet (param_add p).
Proof.
  intros e a e'. unfold param_add.
  repeat case_match; try done; try (by intros [= _ <-]);
    intros Hq%quiet_param_emit; by rewrite Hq.
Qed.

Lemma quiet_msg_create op p : quiet (msg_create op p).
Proof.
  unfold msg_create.
  repeat (first [apply quiet_bind; [|intros ?] | apply quiet_modify; try done
                | apply quiet_ret | apply quiet_param_add | case_match]).
Qed.

Lemma quiet_write_loop fuel : forall src count bytes_written,
  quiet (write_loop fuel src count bytes_written).
Proof.
  induction fuel as [|fuel IH]; intros src count bw e a e'; [done|].
  cbn [write_loop]. repeat case_match; [|by intros [= _ <-]].
  intros Hq%IH. by rewrite Hq.
Qed.

Lemma quiet_read_loop fuel : quiet (read_loop fuel).
Proof.
  induction fuel as [|fuel IH]; intros e a e'; [done|].
  cbn [read_loop]. repeat case_match; [by intros [= _ <-]|].
  intros Hq%IH. by rewrite Hq.
Qed.

Lemma quiet_param_parse : quiet param_parse.
Proof.
  intros e a e'. unfold param_parse.
  repeat case_match; try done; by intros [= _ <-].
Qed.

Lemma quiet_msg_parse : quiet msg_parse.
Proof.
  intros e a e'. unfold msg_parse.
  repeat case_match; try done; try (by intros [= _ <-]);
    intros [= _ <-]; by eapply quiet_param_parse.
Qed.

Lemma quiet_msg_send fuel : quiet (msg_send fuel).
Proof. intros e. apply quiet_write_loop. Qed.

Lemma quiet_ack_msg_send fuel : quiet (ack_msg_send fuel).
Proof. apply quiet_write_loop. Qed.

Lemma quiet_msg_receive fuel : quiet (msg_receive fuel).
Proof.
  unfold msg_receive.
  repeat (first [apply quiet_bind; [|intros ?] | apply quiet_modify; try done
                | apply quiet_read_loop | apply quiet_msg_parse]).
Qed.

Lemma quiet_wait_for_ack fuel : quiet (wait_for_ack fuel).
Proof.
  unfold wait_for_ack. apply quiet_bind; [apply quiet_msg_receive|].
  intros r. repeat case_match; apply quiet_ret.
Qed.

Lemma quiet_msg_send_and_ack fuel op p : quiet (msg_send_and_ack fuel op p).
Proof.
  unfold msg_send_and_ack. apply quiet_bind; [apply quiet_msg_create|].
  intros err. destruct err; try apply quiet_ret.
  apply quiet_bind; [apply quiet_msg_send|]. intros _. apply quiet_wait_for_ack.
Qed.

Lemma quiet_msg_receive_and_ack fuel : quiet (msg_receive_and_ack fuel).
Proof.
  unfold msg_receive_and_ack. apply quiet_bind; [apply quiet_msg_receive|].
  intros r. destruct (r_err r); try apply quiet_ret.
  apply quiet_bind; [apply quiet_ack_msg_send|]. intros _. apply quiet_ret.
Qed.

(** ** The public operations: how each call can end *)

Ltac mred := cbv beta iota delta [ret bind modify get error].
Ltac mred_in H := cbv beta iota delta [ret bind modify get error] in H.

(** Name the outcome of the next sub-operation of the goal. *)
Ltac mcase e1 H :=
  match goal with
  | |- context [match ?m ?e with Ret _ => _ | Diverge => _ | Undefined => _ end] =>
      let a := fresh "a" in
      destruct (m e) as [[a e1]| |] eqn:H; [|discriminate..]
  end.

Lemma session_eq e e' :
  session e' = session e -> m_state e' = m_state e /\ m_error e' = m_error e.
Proof. by intros [= -> ->]. Qed.

Lemma or_error_shape m e err e' :
  or_error m e = Ret (err, e') ->
  (err = LYS_ERROR_SUCCESS /\ m e = Ret (err, e')) \/
  (err <> LYS_ERROR_SUCCESS /\ fatal e' /\
   exists e1, m e = Ret (err, e1) /\ rtt e' = rtt e1).
Proof.
  unfold or_error. mred.
  destruct (m e) as [[err1 e1]| |] eqn:Hm; [|done..].
  destruct err1; intros [= <- <-]; auto; right; repeat split; eauto.
Qed.

Lemma lys_param_wait_ends fuel p ps e w e' :
  lys_param_wait fuel p ps e = Ret (w, e') ->
  ends e (w_err w) e'
    (may_wait e /\
     (w_param_set w = true /\ m_state e' = LYS_STATE_WAIT_FOR_START \/
      w_param_set w = false /\ m_state e' = LYS_STATE_RUNNING))
    (m_state e <> LYS_STATE_WAIT_FOR_START).
Proof.
  unfold ends, may_wait, lys_param_wait. mred.
  destruct (bool_decide (LYS_STATE_UNKNOWN = m_state e) && negb (m_error e))
    eqn:Hinit.
  - apply andb_true_iff in Hinit as [Hst%bool_decide_eq_true Her%negb_true_iff].
    mcase e1 H1.
    apply or_error_shape in H1 as [[-> H1]|(Hne & Hf & _)].
    2:{ destruct a; [done| |]; intros [= <- <-]; right; left; by split. }
    apply quiet_msg_send_and_ack, session_eq in H1 as [Hs1 He1].
    mred. eng_simpl. rewrite bool_decide_eq_true_2 by done. cbn [negb].
    mcase e2 H2.
    apply quiet_msg_receive_and_ack, session_eq in H2 as [Hs2 He2].
    eng_simpl. 
    mcase e3 H3.
    apply or_error_shape in H3 as [[-> [= _ <-]]|(Hne & Hf & _)].
    2:{ destruct a0; [done| |]; intros [= <- <-]; right; left; by split. }
    destruct (lys_op_of (r_op a)) as [[]|]; mred;
      intros [= <- <-]; eng_simpl;
      try (right; left; by repeat split);
      left; cbn [w_err w_param_set]; intuition congruence.
  - mred.
    destruct (bool_decide (LYS_STATE_WAIT_FOR_START = m_state e)) eqn:Hw.
    2:{ apply bool_decide_eq_false in Hw. cbn [negb]. intros [= <- <-].
        right; right. by repeat split. }
    apply bool_decide_eq_true in Hw. cbn [negb].
    mcase e2 H2.
    apply quiet_msg_receive_and_ack, session_eq in H2 as [Hs2 He2].
    mcase e3 H3.
    apply or_error_shape in H3 as [[-> [= _ <-]]|(Hne & Hf & _)].
    2:{ destruct a0; [done| |]; intros [= <- <-]; right; left; by split. }
    destruct (lys_op_of (r_op a)) as [[]|]; mred;
      intros [= <- <-]; eng_simpl;
      try (right; left; by repeat split);
      left; cbn [w_err w_param_set]; intuition congruence.
Qed.

Lemma result_open_ends fuel e err e' :
  result_open fuel e = Ret (err, e') ->
  (err = LYS_ERROR_SUCCESS /\ m_error e' = m_error e /\
   (m_state e = LYS_STATE_RUNNING /\ m_state e' = LYS_STATE_RESULT \/
    m_state e <> LYS_STATE_RUNNING /\ e' = e)) \/
  (err <> LYS_ERROR_SUCCESS /\ fatal e').
Proof.
  unfold result_open. mred.
  destruct (bool_decide (LYS_STATE_RUNNING = m_state e)) eqn:Hr.
  - apply bool_decide_eq_true in Hr. mcase e1 H1.
    apply or_error_shape in H1 as [[-> H1]|(Hne & Hf & _)].
    2:{ destruct a; [done| |]; intros [= <- <-]; right; by split. }
    apply quiet_msg_send_and_ack, session_eq in H1 as [Hs1 He1].
    intros [= <- <-]. eng_simpl. left. auto.
  - apply bool_decide_eq_false in Hr. intros [= <- <-].
    left. repeat split; auto.
Qed.

Lemma lys_param_send_ends fuel p e err e' :
  lys_param_send fuel p e = Ret (err, e') ->
  ends e err e'
    (m_state e' = LYS_STATE_RESULT /\
     (m_state e = LYS_STATE_RUNNING \/ m_state e = LYS_STATE_RESULT))
    (m_state e <> LYS_STATE_RUNNING /\ m_state e <> LYS_STATE_RESULT).
Proof.
  unfold ends, lys_param_send. mred. mcase e1 H1.
  apply result_open_ends in H1 as [(-> & He1 & Hs1)|[Hne Hf]].
  2:{ destruct a; [done| |]; intros [= <- <-]; right; left; by split. }
  destruct (bool_decide (LYS_STATE_RESULT = m_state e1)) eqn:Hr; cbn [negb].
  2:{ apply bool_decide_eq_false in Hr. intros [= <- <-].
      destruct Hs1 as [[_ ?]|[? ->]]; [congruence|].
      right; right. repeat split; auto. }
  apply bool_decide_eq_true in Hr. mcase e2 H2.
  apply or_error_shape in H2 as [[-> H2]|(Hne & Hf & _)].
  2:{ destruct a; [done| |]; intros [= <- <-]; right; left; by split. }
  apply quiet_msg_send_and_ack, session_eq in H2 as [Hs2 He2].
  intros [= <- <-]. left. repeat split; try congruence.
  destruct Hs1 as [[? _]|[_ ->]]; auto.
Qed.

Lemma lys_finish_ends fuel e err e' :
  lys_finish fuel e = Ret (err, e') ->
  ends e err e'
    (m_state e' = LYS_STATE_RESULT /\
     (m_state e = LYS_STATE_RUNNING \/ m_state e = LYS_STATE_RESULT))
    (m_state e <> LYS_STATE_RUNNING /\ m_state e <> LYS_STATE_RESULT).
Proof.
  unfold ends, lys_finish. mred. mcase e1 H1.
  apply result_open_ends in H1 as [(-> & He1 & Hs1)|[Hne Hf]].
  2:{ destruct a; [done| |]; intros [= <- <-]; right; left; by split. }
  destruct (bool_decide (LYS_STATE_RESULT = m_state e1)) eqn:Hr; cbn [negb].
  2:{ apply bool_decide_eq_false in Hr. intros [= <- <-].
      destruct Hs1 as [[_ ?]|[? ->]]; [congruence|].
      right; right. repeat split; auto. }
  apply bool_decide_eq_true in Hr. mcase e2 H2.
  apply or_error_shape in H2 as [[-> H2]|(Hne & Hf & _)].
  2:{ destruct a; [done| |]; intros [= <- <-]; right; left; by split. }
  apply quiet_msg_send_and_ack, session_eq in H2 as [Hs2 He2].
  intros [= <- <-]. eng_simpl. left. repeat split; try congruence.
  destruct Hs1 as [[? _]|[_ ->]]; auto.
Qed.

Lemma lys_results_send_ends fuel params : forall e err e',
  lys_results_send fuel params e = Ret (err, e') ->
  ends e err e'
    (m_state e' = LYS_STATE_RESULT /\
     (m_state e = LYS_STATE_RUNNING \/ m_state e = LYS_STATE_RESULT))
    (m_state e <> LYS_STATE_RUNNING /\ m_state e <> LYS_STATE_RESULT).
Proof.
  induction params as [|p params IH]; intros e err e';
    cbn [lys_results_send]; [apply lys_finish_ends|].
  mred. mcase e1 H1.
  apply lys_param_send_ends in H1
    as [(-> & He1 & Hs1 & Hs)|[[Hne Hf]|(-> & -> & Hs)]].
  - intros H2. apply IH in H2 as [(-> & He2 & Hs2 & _)|[[Hne Hf]|(-> & -> & Hr)]].
    + left. repeat split; auto; congruence.
    + right; left. by split.
    + destruct Hr; congruence.
  - destruct a; [done| |]; intros [= <- <-]; right; left; by split.
  - mred. intros [= <- <-]. right; right. tauto.
Qed.

Lemma lys_error_send_fatal fuel e err e' :
  lys_error_send fuel e = Ret (err, e') -> fatal e'.
Proof.
  unfold lys_error_send. mred. mcase e1 H1.
  apply quiet_msg_create, session_eq in H1 as [Hs1 He1]. eng_simpl.
  assert (fatal e1) by (by split).
  destruct a; [|by intros [= <- <-]..].
  mcase e2 H2. apply quiet_msg_send, session_eq in H2 as [Hs2 He2].
  intros H3. apply quiet_wait_for_ack, session_eq in H3 as [Hs3 He3].
  split; congruence.
Qed.

Lemma lys_log_send_ends fuel p_str e err e' :
  lys_log_send fuel p_str e = Ret (err, e') ->
  ends e err e'
    (m_state e' = m_state e /\ m_state e <> LYS_STATE_WAIT_FOR_START /\
     m_state e <> LYS_STATE_RESULT)
    (m_state e = LYS_STATE_WAIT_FOR_START \/ m_state e = LYS_STATE_RESULT).
Proof.
  unfold ends, lys_log_send. mred.
  destruct (bool_decide (LYS_STATE_WAIT_FOR_START = m_state e)) eqn:Hw;
    [apply bool_decide_eq_true in Hw; intros [= <- <-]; right; right; auto|].
  destruct (bool_decide (LYS_STATE_RESULT = m_state e)) eqn:Hr;
    [apply bool_decide_eq_true in Hr; intros [= <- <-]; right; right; auto|].
  apply bool_decide_eq_false in Hw, Hr. cbn [orb]. mcase e1 H1.
  apply or_error_shape in H1 as [[-> H1]|(Hne & Hf & _)].
  2:{ destruct a; [done| |]; intros [= <- <-]; right; left; by split. }
  apply quiet_msg_send_and_ack, session_eq in H1 as [Hs1 He1].
  intros [= <- <-]. eng_simpl. left. repeat split; auto.
Qed.

Lemma str_copy_err e lhs rhs err lhs' :
  str_copy e lhs rhs = Ret (err, lhs') ->
  err = LYS_ERROR_SUCCESS \/ err = LYS_ERROR_INVALID_PARAM.
Proof. unfold str_copy. repeat case_match; try done; intros [= <- _]; auto. Qed.

Lemma array_copy_err e lhs rhs err lhs' :
  array_copy e lhs rhs = Ret (err, lhs') ->
  err = LYS_ERROR_SUCCESS \/ err = LYS_ERROR_INVALID_PARAM.
Proof.
  unfold array_copy. repeat case_match; try done; intros [= <- _]; auto.
  right. eauto using lookup_err.
Qed.

Lemma param_store_err e p q err stored :
  param_store e p q = Ret (err, stored) ->
  err = LYS_ERROR_SUCCESS \/ err = LYS_ERROR_INVALID_PARAM.
Proof.
  unfold param_store.
  repeat case_match; try done; intros [= <- _]; simplify_eq;
    eauto using lookup_err, str_copy_err, array_copy_err.
Qed.

Lemma params_receive_loop_ends fuel p_params : forall e r e',
  params_receive_loop fuel p_params e = Ret (r, e') ->
  (r.1 = LYS_ERROR_SUCCESS /\ m_error e' = m_error e /\
   (p_params = [] /\ e' = e \/
    may_wait e /\ m_state e' = LYS_STATE_WAIT_FOR_START)) \/
  (r.1 <> LYS_ERROR_SUCCESS /\ fatal e') \/
  (r.1 = LYS_ERROR_INVALID_STATE /\ e' = e /\
   m_state e <> LYS_STATE_WAIT_FOR_START) \/
  rejects_param e r.1 e'.
Proof.
  unfold rejects_param.
  induction p_params as [|p rest IH]; intros e r e'; cbn [params_receive_loop].
  { intros [= <- <-]. left. auto. }
  mred. mcase e1 H1.
  apply lys_param_wait_ends in H1
    as [(Hw & He1 & Hs & Hs1)|[[Hne Hf]|(Hw & -> & Hs)]].
  2:{ destruct (w_err a); [done| |]; intros [= <- <-]; right; left; by split. }
  2:{ rewrite Hw. intros [= <- <-]. right; right; left. auto. }
  rewrite Hw.
  destruct (w_param_set a) eqn:Hset; cbn [negb].
  2:{ intros [= <- <-]. right; right; right. cbn. intuition congruence. }
  destruct Hs1 as [[_ Hs1]|[? _]]; [|done].
  destruct (deref e1 (w_param a)) as [q|]; [|done].
  destruct (negb (param_type p =? param_type q)).
  { intros [= <- <-]. right; right; right. cbn. auto. }
  destruct (param_store e1 p q) as [[err stored]| |] eqn:Hp; [|done..].
  apply param_store_err in Hp as [-> | ->].
  - mcase e2 H2. intros [= <- <-]. cbn [fst].
    apply IH in H2 as [(? & ? & Hs2)|[[? ?]|[(? & -> & ?)|(? & ? & _ & ?)]]].
    + left. repeat split; try congruence. right. split; [done|].
      destruct Hs2 as [[_ ->]|[_ ?]]; done.
    + right; left. by split.
    + done.
    + right; right; right. repeat split; auto; congruence.
  - intros [= <- <-]. right; right; right. cbn. auto.
Qed.

Lemma lys_params_receive_ends fuel p_params e r e' :
  lys_params_receive fuel p_params e = Ret (r, e') ->
  ends e r.1 e' (may_wait e /\ m_state e' = LYS_STATE_RUNNING)
    (m_state e <> LYS_STATE_WAIT_FOR_START) \/
  rejects_param e r.1 e'.
Proof.
  unfold ends, lys_params_receive. mred. mcase e1 H1.
  apply params_receive_loop_ends in H1
    as [(Hr & He1 & Hs1)|[[Hne Hf]|[(Hr & -> & Hs)|Hrej]]].
  2:{ destruct (a.1); [done| |]; intros [= <- <-]; left; right; left; by split. }
  2:{ rewrite Hr. intros [= <- <-]. left; right; right. auto. }
  2:{ destruct Hrej as (Hr & ? & ?). rewrite Hr. intros [= <- <-]. by right. }
  rewrite Hr. mcase e2 H2.
  apply lys_param_wait_ends in H2
    as [(Hw & He2 & Hs & Hs2)|[[Hne Hf]|(Hw & -> & Hs)]].
  - rewrite Hw. destruct Hs2 as [[-> Hs2]|[-> Hs2]]; mred; intros [= <- <-].
    + left; right; left. by repeat split.
    + left; left. repeat split; auto; try congruence.
      destruct Hs1 as [[_ ->]|[? _]]; done.
  - destruct (w_err a0); [done| |]; intros [= <- <-]; left; right; left; by split.
  - rewrite Hw. intros [= <- <-]. cbn [fst].
    destruct Hs1 as [[_ ->]|[_ ?]]; [|done]. left; right; right. auto.
Qed.

(** ** Receiving parameters *)

Lemma size_of_range t : 0 <= size_of t <= 4.
Proof.
  unfold size_of, lys_param_len_lookup.
  destruct (lys_param_type_of t) as [[]|]; consts; lia.
Qed.

Lemma wire_length op v :
  Z.of_nat (length (wire op v)) =
  match v with
  | V_array _ _ bytes => LYS_ARRAY_DATA_INDEX + Z.of_nat (length bytes)
  | V_scalar _ bytes | V_string bytes =>
      LYS_DATA_INDEX + Z.of_nat (length bytes)
  end.
Proof. destruct v; cbn [wire]; rewrite length_app; cbn [length]; consts; lia. Qed.

Lemma framed_wire op v : sendable v = true -> framed (wire op v) = true.
Proof.
  unfold sendable, framed. intros Hv. zbool.
  apply andb_true_iff. split.
  - apply bool_decide_eq_true. rewrite wire_length. by destruct v.
  - apply Z.leb_le. rewrite wire_length. consts.
    pose proof (size_of_range) as Hs.
    destruct v as [t bs|bs|t n bs]; cbn in H, H0; zbool; consts;
      try lia; specialize (Hs t); lia.
Qed.

Lemma load_set_rtt c e p n : load (set_rtt c e) p n = load e p n.
Proof. done. Qed.

Lemma value_of_set_rtt c e p : value_of (set_rtt c e) p = value_of e p.
Proof. done. Qed.

Lemma msg_receive_and_ack_spec fuel e cs rest f r e1 :
  buf_ok e -> framed f = true -> delivers cs f = true ->
  rx (rtt e) = cs ++ rest -> (pending e + 2 <= fuel)%nat ->
  msg_parse (set_rtt {| rx := rest; tx := tx (rtt e);
                        tx_room := tx_room (rtt e) |} (holding f e))
  = Ret (r, e1) ->
  r_err r = LYS_ERROR_SUCCESS ->
  rtt e1 = {| rx := rest; tx := tx (rtt e); tx_room := tx_room (rtt e) |} ->
  exists room',
    msg_receive_and_ack fuel e =
    Ret (r, set_rtt {| rx := rest; tx := tx (rtt e) ++ m_ack_buf;
                       tx_room := room' |} e1) /\
    (length room' <= length (tx_room (rtt e)))%nat.
Proof.
  intros Hok Hfr Hd Hrx Hfuel Hp Hr Hrtt. unfold msg_receive_and_ack. mred.
  rewrite (msg_receive_delivers fuel e cs rest f) by done.
  rewrite Hp, Hr.
  destruct (ack_msg_send_spec fuel e1) as (room' & -> & Hroom).
  { unfold pending in *. rewrite Hrtt. cbn [rx tx tx_room].
    rewrite Hrx, length_app in Hfuel. lia. }
  exists room'. rewrite Hrtt in *. by cbn [rx tx tx_room] in *.
Qed.

Lemma lys_param_wait_param fuel e cs rest v p ps :
  buf_ok e -> m_state e = LYS_STATE_WAIT_FOR_START ->
  sendable v = true ->
  delivers cs (wire (op_ord LYS_OP_PARAM) v) = true ->
  rx (rtt e) = cs ++ rest -> (pending e + 2 <= fuel)%nat ->
  exists e',
    lys_param_wait fuel p ps e =
    Ret ({| w_err := LYS_ERROR_SUCCESS; w_param := Static;
            w_param_set := true |}, e') /\
    io e e' cs m_ack_buf /\ rx (rtt e') = rest /\
    m_state e' = LYS_STATE_WAIT_FOR_START /\
    value_of e' (m_param e') = Some v.
Proof.
  intros Hok Hst Hv Hd Hrx Hfuel.
  pose proof (framed_wire (op_ord LYS_OP_PARAM) v Hv) as Hfr.
  unfold sendable in Hv. zbool.
  set (f := wire (op_ord LYS_OP_PARAM) v) in *.
  destruct (msg_parse_param LYS_OP_PARAM v
              (set_rtt {| rx := rest; tx := tx (rtt e);
                          tx_room := tx_room (rtt e) |} (holding f e))
              (drop (length f) (m_buf e)))
    as (e1 & Hp & Hval & Hb1 & Hi1 & Hs1 & He1 & Hrtt1); auto.
  destruct (msg_receive_and_ack_spec fuel e cs rest f _ e1 Hok Hfr Hd Hrx Hfuel Hp)
    as (room' & Hra & Hroom); [done..|].
  eexists. split.
  { unfold lys_param_wait. mred. rewrite Hst.
    rewrite bool_decide_eq_false_2 by done. cbn [andb]. mred. rewrite Hst.
    rewrite bool_decide_eq_true_2 by done.
    cbn [negb]. mred. rewrite Hra. unfold or_error. mred.
    cbn [r_err r_op r_param lys_op_of op_ord]. reflexivity. }
  assert (Hok1 : buf_ok (holding f e))
    by (apply holding_buf_ok; [done|]; unfold framed in Hfr; by zbool).
  unfold io, buf_ok, holding in *. eng_simpl. cbn [rx tx tx_room].
  rewrite value_of_set_rtt. repeat split; try done; congruence.
Qed.

Lemma lys_param_wait_start fuel e cs rest p ps :
  buf_ok e -> m_state e = LYS_STATE_WAIT_FOR_START ->
  delivers cs (simple_frame LYS_OP_START) = true ->
  rx (rtt e) = cs ++ rest -> (pending e + 2 <= fuel)%nat ->
  exists e',
    lys_param_wait fuel p ps e =
    Ret ({| w_err := LYS_ERROR_SUCCESS; w_param := Null;
            w_param_set := false |}, e') /\
    io e e' cs m_ack_buf /\ rx (rtt e') = rest /\
    m_state e' = LYS_STATE_RUNNING.
Proof.
  intros Hok Hst Hd Hrx Hfuel.
  set (f := simple_frame LYS_OP_START) in *.
  set (e1 := set_rtt {| rx := rest; tx := tx (rtt e);
                        tx_room := tx_room (rtt e) |} (holding f e)).
  assert (Hp : msg_parse e1 = Ret ({| r_err := LYS_ERROR_SUCCESS;
                 r_op := op_ord LYS_OP_START; r_param := Null |}, e1))
    by (by apply (msg_parse_simple LYS_OP_START e1 (drop (length f) (m_buf e)))).
  destruct (msg_receive_and_ack_spec fuel e cs rest f _ e1 Hok eq_refl Hd Hrx Hfuel Hp)
    as (room' & Hra & Hroom); [done..|].
  eexists. split.
  { unfold lys_param_wait. mred. rewrite Hst.
    rewrite bool_decide_eq_false_2 by done. cbn [andb]. mred. rewrite Hst.
    rewrite bool_decide_eq_true_2 by done.
    cbn [negb]. mred. rewrite Hra. unfold or_error. mred.
    cbn [r_err r_op r_param lys_op_of op_ord]. reflexivity. }
  assert (Hok1 : buf_ok (holding f e)) by (by apply holding_buf_ok).
  unfold io, buf_ok, holding, e1 in *. eng_simpl. cbn [rx tx tx_room].
  repeat split; try done.
Qed.

Lemma lys_param_wait_init fuel e cs rest :
  buf_ok e -> m_state e = LYS_STATE_UNKNOWN -> m_error e = false ->
  delivers cs (simple_frame LYS_OP_ACK) = true ->
  rx (rtt e) = cs ++ rest -> (pending e + 2 <= fuel)%nat ->
  exists e1,
    (forall p ps, lys_param_wait fuel p ps e = lys_param_wait fuel p ps e1) /\
    io e e1 cs (simple_frame LYS_OP_INIT) /\ rx (rtt e1) = rest /\
    m_state e1 = LYS_STATE_WAIT_FOR_START.
Proof.
  intros Hok Hst Her Hd Hrx Hfuel.
  destruct (msg_send_and_ack_spec fuel LYS_OP_INIT Null e _ cs rest Hok
              (msg_create_simple LYS_OP_INIT Null e ltac:(done) ltac:(done) Hok)
              Hd Hrx Hfuel) as (e0 & Hsa & Hio & Hrx0 & Hs0).
  exists (set_state LYS_STATE_WAIT_FOR_START e0). split; [|split].
  - intros p ps. unfold lys_param_wait. mred. eng_simpl. rewrite Hst, Her.
    rewrite bool_decide_eq_true_2 by done.
    rewrite (bool_decide_eq_false_2 (LYS_STATE_UNKNOWN = LYS_STATE_WAIT_FOR_START))
      by done.
    cbn [andb negb]. unfold or_error. mred. rewrite Hsa. reflexivity.
  - unfold io, buf_ok in *. eng_simpl. 
    replace (frame (holding (simple_frame LYS_OP_INIT) e))
      with (simple_frame LYS_OP_INIT) in Hio; [done|].
    unfold frame, holding. eng_simpl. by rewrite Nat2Z.id, take_app_length.
  - by eng_simpl.
Qed.

Lemma lys_param_type_of_ord z t :
  lys_param_type_of z = Some t -> z = type_ord t.
Proof.
  unfold lys_param_type_of.
  destruct z as [|q|q]; [by intros [= <-]| |done].
  repeat (destruct q as [q|q|]; try done); by intros [= <-].
Qed.

Lemma memcpy_to_mem_spec e old src n bytes :
  load e src n = Some bytes -> (length bytes <= length old)%nat ->
  memcpy_to_mem e (Mem old) src n = Some (bytes ++ drop (Z.to_nat n) old).
Proof.
  intros Hl Hlen. unfold memcpy_to_mem. rewrite Hl.
  apply load_length in Hl as [? ?].
  by rewrite (proj2 (Z.leb_le _ _)) by lia.
Qed.

Lemma load_mem_prefix e bs tail n :
  n = Z.of_nat (length bs) -> load e (Mem (bs ++ tail)) n = Some bs.
Proof.
  intros ->. cbn.
  rewrite (proj2 (Z.leb_le 0 _)), (proj2 (Z.leb_le _ _))
    by (rewrite ?length_app; lia).
  cbn. by rewrite Nat2Z.id, take_app_length.
Qed.

(** Copying a received value into an entry that accepts it succeeds, and
    the entry then holds the value. *)
Lemma param_store_spec e p q v :
  accepts p v = true -> sendable v = true -> value_of e q = Some v ->
  param_type q = param_type p /\
  exists stored,
    param_store e p q = Ret (LYS_ERROR_SUCCESS, stored) /\
    forall e', value_of e' stored = Some v.
Proof.
  unfold sendable, accepts, value_of, param_store. intros Ha Hv Hq. zbool.
  destruct (lys_param_type_of (param_type q)) as [tq|] eqn:Htq; [|done].
  apply lys_param_type_of_ord in Htq as Hord.
  destruct v as [t bs|bs|t n bs]; cbn in H, H0.
  - destruct (data p) as [[|old|]| |] eqn:Hdp; try done. zbool.
    assert (param_type q = t /\
            exists ptr, data_p_uint8 (data q) = Some ptr /\
                        load e ptr (size_of t) = Some bs) as (Hqt & ptr & Hptr & Hl)
      by (destruct tq; simplify_option_eq;
          (split; [done|]; eexists; split; [done|congruence])).
    split; [congruence|].
    match goal with H : param_type p = _ |- _ => rewrite H end.
    rewrite <- Hqt, Htq.
    apply is_scalar_cases in H.
    assert (lys_param_len_lookup t = Ok (size_of t) /\ size_of t <> 0)
      as [Hlk Hnz] by (destruct H as [->|[->|[->|[->| ->]]]]; done).
    assert (match tq with
            | LYS_PARAM_TYPE_STRING | LYS_PARAM_TYPE_ARRAY => False
            | _ => True
            end) as Hsc
      by (rewrite Hord in Hqt; destruct tq, H as [?|[?|[?|[?|?]]]]; cbn in *; lia).
    rewrite Hqt, Hlk. consts. rewrite (proj2 (Z.eqb_neq 0 _)) by lia.
    rewrite Hptr. cbn [data_p_uint8].
    rewrite (memcpy_to_mem_spec _ _ _ _ bs) by done.
    destruct tq; try done; (eexists; split; [done|]); intros e';
      cbn [param_type data data_p_uint8 mbind option_bind];
      rewrite <- Hqt, Htq; cbn -[load]; rewrite Hqt;
      rewrite load_mem_prefix by lia; done.
  - destruct (data p) as [|[|[ln [|old|]]|]|] eqn:Hdp; try done. zbool.
    assert (tq = LYS_PARAM_TYPE_STRING) as -> by (destruct tq; by simplify_option_eq).
    split; [congruence|].
    match goal with H : param_type p = _ |- _ => rewrite H end.
    cbn [lys_param_type_of type_ord].
    cbn [data_p_str].
    destruct (data_p_str (data q)) as [rq|] eqn:Hrq; [|done]. cbn in Hq.
    unfold str_copy.
    destruct (deref e rq) as [s|] eqn:Hs; [|done]. cbn in Hq.
    destruct (load e (p_data s) (len s)) as [bytes|] eqn:Hl; [|done].
    cbn in Hq. injection Hq as ->.
    apply load_length in Hl as Hlen. destruct Hlen as [_ Hlen].
    consts. rewrite Z.gtb_ltb.
    rewrite (proj2 (Z.ltb_ge _ _)), (proj2 (Z.eqb_neq 0 _)) by lia.
    cbn [orb p_data]. rewrite (memcpy_to_mem_spec _ _ _ _ bs) by done.
    eexists; split; [done|]. intros e'.
    cbn -[load]. rewrite load_mem_prefix by lia. done.
  - destruct (data p) as [| |[|[at0 cn [|old|]]|]] eqn:Hdp; try done. zbool.
    assert (tq = LYS_PARAM_TYPE_ARRAY) as -> by (destruct tq; by simplify_option_eq).
    split; [congruence|].
    match goal with H : param_type p = _ |- _ => rewrite H end.
    cbn [lys_param_type_of type_ord].
    cbn [data_p_array].
    destruct (data_p_array (data q)) as [rq|] eqn:Hrq; [|done]. cbn in Hq.
    unfold array_copy.
    destruct (deref e rq) as [a|] eqn:Hs; [|done]. cbn in Hq.
    destruct (load e (array_data a) _) as [bytes|] eqn:Hl; [|done].
    cbn in Hq. injection Hq as Ht Hn Hb. subst bytes.
    rewrite Ht, Hn in *.
    apply load_length in Hl as Hlen. destruct Hlen as [_ Hlen].
    apply is_scalar_cases in H.
    assert (lys_param_len_lookup t = Ok (size_of t) /\ size_of t <> 0)
      as [Hlk Hnz] by (destruct H as [->|[->|[->|[->| ->]]]]; done).
    pose proof (size_of_range t).
    rewrite Hlk. consts. rewrite (proj2 (Z.eqb_neq 0 _)) by lia. cbn [orb].
    rewrite uint32_small by lia. rewrite Z.gtb_ltb.
    rewrite (proj2 (Z.ltb_ge _ _)) by lia.
    cbn [array_data]. rewrite (memcpy_to_mem_spec _ _ _ _ bs) by done.
    eexists; split; [done|]. intros e'.
    cbn -[load]. rewrite load_mem_prefix by lia. done.
Qed.

Lemma io_pending e e' consumed sent :
  io e e' consumed sent -> (pending e' <= pending e)%nat.
Proof.
  unfold io, pending. intros (_ & Hrx & _ & Hroom & _).
  rewrite Hrx, length_app. lia.
Qed.

Lemma io_refl e : buf_ok e -> io e e [] [].
Proof. unfold io. intros. by rewrite app_nil_r. Qed.

Lemma io_trans e e1 e2 c1 s1 c2 s2 :
  io e e1 c1 s1 -> io e1 e2 c2 s2 -> io e e2 (c1 ++ c2) (s1 ++ s2).
Proof.
  unfold io. intros (_ & Hrx1 & Htx1 & Hr1 & He1) (Hok & Hrx2 & Htx2 & Hr2 & He2).
  repeat split; try done.
  - by rewrite Hrx1, Hrx2, app_assoc.
  - by rewrite Htx2, Htx1, app_assoc.
  - lia.
  - congruence.
Qed.

Lemma params_receive_loop_spec fuel p_params vs :
  expects p_params vs ->
  forall css e rest,
    brings css vs ->
    buf_ok e -> m_state e = LYS_STATE_WAIT_FOR_START ->
    rx (rtt e) = concat css ++ rest -> (pending e + 2 <= fuel)%nat ->
    exists stored e',
      params_receive_loop fuel p_params e =
      Ret ((LYS_ERROR_SUCCESS, stored), e') /\
      io e e' (concat css) (concat (map (fun _ => m_ack_buf) vs)) /\
      rx (rtt e') = rest /\ m_state e' = LYS_STATE_WAIT_FOR_START /\
      holds stored vs.
Proof.
  unfold expects, brings, holds.
  induction 1 as [|p v ps vs [Ha Hv] Hps IH]; intros css e rest Hcss Hok Hst Hrx Hfuel.
  - apply Forall2_nil_inv_r in Hcss as ->. exists [], e.
    cbn in *. split; [done|]. split; [by apply io_refl|]. auto.
  - apply Forall2_cons_inv_r in Hcss as (cs & css' & Hcs & Hcss' & ->).
    cbn [concat] in Hrx. rewrite <- app_assoc in Hrx.
    destruct (lys_param_wait_param fuel e cs _ v Null false Hok Hst Hv Hcs Hrx Hfuel)
      as (e1 & Hw & Hio1 & Hrx1 & Hst1 & Hval).
    destruct (param_store_spec e1 p (m_param e1) v Ha Hv Hval)
      as (Hty & stored & Hstore & Hheld).
    pose proof (io_pending _ _ _ _ Hio1) as Hp1.
    destruct (IH css' e1 rest Hcss' ltac:(apply Hio1) Hst1 Hrx1 ltac:(lia))
      as (stored' & e2 & Hloop & Hio2 & Hrx2 & Hst2 & Hheld').
    exists (stored :: stored'), e2. split.
    { cbn [params_receive_loop]. mred. rewrite Hw. cbn [w_err w_param_set negb w_param deref].
      unfold global, global_param. rewrite Hty, Z.eqb_refl. cbn [negb].
      rewrite Hstore. mred. rewrite Hloop. reflexivity. }
    split; [cbn [concat map]; eapply io_trans; eauto|].
    repeat split; try done. by constructor.
Qed.

Lemma lys_params_receive_init fuel p_params e e1 :
  (forall p ps, lys_param_wait fuel p ps e = lys_param_wait fuel p ps e1) ->
  lys_params_receive fuel p_params e = lys_params_receive fuel p_params e1.
Proof.
  intros H. unfold lys_params_receive.
  destruct p_params as [|p rest]; cbn [params_receive_loop]; mred;
    cbn [fst snd]; mred; by rewrite H.
Qed.

Lemma lys_params_receive_waiting fuel e p_params vs css final rest :
  buf_ok e -> m_state e = LYS_STATE_WAIT_FOR_START ->
  expects p_params vs -> brings css vs ->
  rx (rtt e) = concat css ++ final ++ rest ->
  (pending e + 2 <= fuel)%nat ->
  (delivers final (simple_frame LYS_OP_START) = true ->
   exists stored e',
     lys_params_receive fuel p_params e =
     Ret ((LYS_ERROR_SUCCESS, stored), e') /\
     m_state e' = LYS_STATE_RUNNING /\ m_error e' = m_error e /\
     holds stored vs) /\
  (forall v, sendable v = true ->
   delivers final (wire (op_ord LYS_OP_PARAM) v) = true ->
   exists stored e',
     lys_params_receive fuel p_params e =
     Ret ((LYS_ERROR_INVALID_STATE, stored), e') /\
     m_state e' = LYS_STATE_UNKNOWN /\ m_error e' = true).
Proof.
  intros Hok Hst Hps Hcss Hrx Hfuel.
  destruct (params_receive_loop_spec fuel p_params vs Hps css e (final ++ rest)
              Hcss Hok Hst Hrx Hfuel)
    as (stored & e1 & Hloop & Hio1 & Hrx1 & Hst1 & Hheld).
  pose proof (io_pending _ _ _ _ Hio1) as Hp1.
  assert (Hok1 : buf_ok e1) by apply Hio1.
  assert (Her1 : m_error e1 = m_error e) by apply Hio1.
  split.
  - intros Hfinal.
    destruct (lys_param_wait_start fuel e1 final rest Null false Hok1 Hst1
                Hfinal Hrx1 ltac:(lia)) as (e2 & Hw & Hio2 & _ & Hst2).
    exists stored, e2. split.
    { unfold lys_params_receive. mred. rewrite Hloop. cbn [fst snd]. mred.
      rewrite Hw. reflexivity. }
    repeat split; try done. destruct Hio2 as (_ & _ & _ & _ & ->). done.
  - intros v Hv Hfinal.
    destruct (lys_param_wait_param fuel e1 final rest v Null false Hok1 Hst1
                Hv Hfinal Hrx1 ltac:(lia)) as (e2 & Hw & _).
    eexists stored, _. split.
    { unfold lys_params_receive. mred. rewrite Hloop. cbn [fst snd]. mred.
      rewrite Hw. reflexivity. }
    by eng_simpl.
Qed.

(** ** The list of expected parameters *)

(** C8: for every list of expected parameters, of any length n, when the
    host delivers n matching PARAM frames (in whatever chunks the transport
    hands them over, after the ACK of INIT when the engine is fresh) and
    then START, [lys_params_receive] returns success in state RUNNING with
    the values stored; when instead a further PARAM frame follows the
    n-th, it returns InvalidState with the state UNKNOWN and the sticky
    error flag set. *)
Theorem lys_params_receive_start_or_extra fuel e p_params vs acs css final rest :
  buf_ok e -> opened e acs ->
  expects p_params vs -> brings css vs ->
  rx (rtt e) = acs ++ concat css ++ final ++ rest ->
  (pending e + 2 <= fuel)%nat ->
  (delivers final (simple_frame LYS_OP_START) = true ->
   exists stored e',
     lys_params_receive fuel p_params e =
     Ret ((LYS_ERROR_SUCCESS, stored), e') /\
     m_state e' = LYS_STATE_RUNNING /\ m_error e' = m_error e /\
     holds stored vs) /\
  (forall v, sendable v = true ->
   delivers final (wire (op_ord LYS_OP_PARAM) v) = true ->
   exists stored e',
     lys_params_receive fuel p_params e =
     Ret ((LYS_ERROR_INVALID_STATE, stored), e') /\
     m_state e' = LYS_STATE_UNKNOWN /\ m_error e' = true).
Proof.
  intros Hok [[Hst ->]|(Hst & Her & Hack)] Hps Hcss Hrx Hfuel.
  - by apply (lys_params_receive_waiting fuel e p_params vs css final rest).
  - destruct (lys_param_wait_init fuel e acs _ Hok Hst Her Hack Hrx Hfuel)
      as (e1 & Hsame & Hio & Hrx1 & Hst1).
    rewrite (lys_params_receive_init fuel p_params e e1 Hsame).
    pose proof (io_pending _ _ _ _ Hio) as Hp1.
    destruct Hio as (Hok1 & _ & _ & _ & <-).
    apply (lys_params_receive_waiting fuel e1 p_params vs css final rest);
      auto; lia.
Qed.

Lemma lys_params_receive_start_or_extra_witness :
  let e := boot (host [[2]; []; [6]; [7; 5; 0; 42]; [0; 0; 0]; [4; 5; 2; 7];
                       [2; 2]]) in
  let p_params := [uint32_param 0 0 0 0; uint8_param 0] in
  exists stored e',
    lys_params_receive 9 p_params e =
    Ret ((LYS_ERROR_SUCCESS, stored), e') /\
    m_state e' = LYS_STATE_RUNNING /\ m_error e' = m_error e /\
    holds stored [V_scalar 0 [42; 0; 0; 0]; V_scalar 2 [7]].
Proof.
  intros e p_params.
  apply (lys_params_receive_start_or_extra 9 e p_params
           [V_scalar 0 [42; 0; 0; 0]; V_scalar 2 [7]]
           [[2]; []; [6]]
           [[[7; 5; 0; 42]; [0; 0; 0]]; [[4; 5; 2; 7]]]
           [[2; 2]] []).
  - reflexivity.
  - right. repeat split; reflexivity.
  - repeat constructor.
  - repeat constructor.
  - reflexivity.
  - vm_compute. lia.
  - reflexivity.
Defined.

(** ** Operations that leave the scratch buffer an array of 64 bytes *)

Lemma tidy_ret {A} (a : A) : tidy (ret a).
Proof. by intros e a' e' Hok [= _ <-]. Qed.

Lemma tidy_bind {A B} (m : M A) (k : A -> M B) :
  tidy m -> (forall a, tidy (k a)) -> tidy (bind m k).
Proof.
  intros Hm Hk e b e' Hok. unfold bind.
  destruct (m e) as [[a e1]| |] eqn:H1; [|done..].
  intros H2. eapply Hk; [|done]. eauto.
Qed.

Lemma tidy_modify f :
  (forall e, m_buf (f e) = m_buf e) -> tidy (modify f).
Proof. intros Hf e a e' Hok [= _ <-]. unfold buf_ok. by rewrite Hf. Qed.

Lemma tidy_get : tidy get.
Proof. by intros e a e' Hok [= _ <-]. Qed.

Lemma tidy_msg_create op p : tidy (msg_create op p).
Proof. intros e a e' Hok H. by apply msg_create_spec in H as [? _]. Qed.

Lemma write_loop_buf fuel : forall src count bytes_written e a e',
  write_loop fuel src count bytes_written e = Ret (a, e') ->
  m_buf e' = m_buf e /\ m_buf_index e' = m_buf_index e.
Proof.
  induction fuel as [|fuel IH]; intros src count bw e a e'; [done|].
  cbn [write_loop]. repeat case_match; [|by intros [= _ <-]].
  intros [-> ->]%IH. done.
Qed.

Lemma tidy_write_loop fuel src count bytes_written :
  tidy (write_loop fuel src count bytes_written).
Proof.
  intros e a e' Hok [Hb _]%write_loop_buf. unfold buf_ok. by rewrite Hb.
Qed.

Lemma read_loop_buf_ok fuel : forall e a e',
  buf_ok e -> 0 <= m_buf_index e <= 64 ->
  read_loop fuel e = Ret (a, e') -> buf_ok e'.
Proof.
  unfold buf_ok. consts.
  induction fuel as [|fuel IH]; intros e a e' Hok Hi; [done|].
  cbn [read_loop]. destruct (msg_complete e); [by intros [= _ <-]|].
  destruct (SEGGER_RTT_Read _ _) as [bytes c] eqn:Hr.
  assert (Z.of_nat (length bytes) <= 64 - m_buf_index e) as Hn.
  { unfold SEGGER_RTT_Read in Hr. consts. rewrite uint32_small in Hr by lia.
    destruct (rx (rtt e)); injection Hr as <- _; [cbn; lia|].
    rewrite length_take. lia. }
  apply IH; eng_simpl.
  - rewrite !length_app, length_take, length_drop. lia.
  - rewrite uint8_small by lia. lia.
Qed.

Lemma tidy_msg_parse : tidy msg_parse.
Proof.
  intros e a e' Hok. unfold msg_parse, param_parse, buf_ok in *.
  repeat case_match; try done; intros [= _ <-]; simplify_eq; done.
Qed.

Lemma tidy_msg_receive fuel : tidy (msg_receive fuel).
Proof.
  unfold msg_receive. intros e a e' Hok. mred.
  destruct (read_loop fuel _) as [[[] e1]| |] eqn:Hr; [|done..].
  apply read_loop_buf_ok in Hr; [|done|by eng_simpl].
  by apply tidy_msg_parse.
Qed.

Lemma tidy_wait_for_ack fuel : tidy (wait_for_ack fuel).
Proof.
  unfold wait_for_ack. apply tidy_bind; [apply tidy_msg_receive|].
  intros r. repeat case_match; apply tidy_ret.
Qed.

Lemma tidy_msg_send_and_ack fuel op p : tidy (msg_send_and_ack fuel op p).
Proof.
  unfold msg_send_and_ack. apply tidy_bind; [apply tidy_msg_create|].
  intros err. destruct err; try apply tidy_ret.
  apply tidy_bind; [intros e; apply tidy_write_loop|].
  intros _. apply tidy_wait_for_ack.
Qed.

Lemma tidy_or_error m : tidy m -> tidy (or_error m).
Proof.
  intros Hm. unfold or_error. apply tidy_bind; [done|].
  intros []; try apply tidy_ret;
    (apply tidy_bind; [by apply tidy_modify|intros _; apply tidy_ret]).
Qed.

Lemma tidy_result_open fuel : tidy (result_open fuel).
Proof.
  unfold result_open. apply tidy_bind; [apply tidy_get|]. intros e0.
  case_match; [|apply tidy_ret].
  apply tidy_bind; [apply tidy_or_error, tidy_msg_send_and_ack|].
  intros []; try apply tidy_ret.
  apply tidy_bind; [by apply tidy_modify|intros _; apply tidy_ret].
Qed.

Lemma tidy_lys_finish fuel : tidy (lys_finish fuel).
Proof.
  unfold lys_finish. apply tidy_bind; [apply tidy_result_open|].
  intros []; try apply tidy_ret.
  apply tidy_bind; [apply tidy_get|]. intros e0.
  case_match; [apply tidy_ret|].
  apply tidy_bind; [apply tidy_or_error, tidy_msg_send_and_ack|].
  intros []; try apply tidy_ret.
  apply tidy_bind; [by apply tidy_modify|intros _; apply tidy_ret].
Qed.

Lemma tidy_msg_receive_and_ack fuel : tidy (msg_receive_and_ack fuel).
Proof.
  unfold msg_receive_and_ack. apply tidy_bind; [apply tidy_msg_receive|].
  intros r. destruct (r_err r); try apply tidy_ret.
  apply tidy_bind; [apply tidy_write_loop|]. intros _. apply tidy_ret.
Qed.

(** Take a monadic term apart down to operations known to be [tidy]. *)
Ltac tidy_steps :=
  repeat first
    [ apply tidy_ret | apply tidy_get
    | apply tidy_modify; reflexivity
    | apply tidy_or_error
    | apply tidy_msg_send_and_ack | apply tidy_msg_receive_and_ack
    | apply tidy_msg_create | apply tidy_wait_for_ack
    | apply tidy_result_open | apply tidy_lys_finish
    | apply tidy_write_loop
    | apply tidy_bind; [|intros ?]
    | case_match ].

Lemma tidy_lys_param_wait fuel p ps : tidy (lys_param_wait fuel p ps).
Proof. unfold lys_param_wait, error. tidy_steps. Qed.

Lemma tidy_lys_param_send fuel p : tidy (lys_param_send fuel p).
Proof. unfold lys_param_send. tidy_steps. Qed.

Lemma tidy_lys_results_send fuel params : tidy (lys_results_send fuel params).
Proof.
  induction params as [|p params IH]; cbn [lys_results_send];
    [apply tidy_lys_finish|].
  apply tidy_bind; [apply tidy_lys_param_send|]. intros []; tidy_steps; done.
Qed.

Lemma tidy_lys_error_send fuel : tidy (lys_error_send fuel).
Proof.
  unfold lys_error_send, error. tidy_steps.
Qed.

Lemma tidy_lys_log_send fuel p_str : tidy (lys_log_send fuel p_str).
Proof. unfold lys_log_send. tidy_steps. Qed.

Lemma tidy_params_receive_loop fuel p_params :
  tidy (params_receive_loop fuel p_params).
Proof.
  induction p_params as [|p rest IH]; cbn [params_receive_loop];
    [apply tidy_ret|].
  apply tidy_bind; [apply tidy_lys_param_wait|]. intros w.
  destruct (w_err w); try apply tidy_ret.
  apply tidy_bind; [apply tidy_get|]. intros e0.
  repeat case_match; try apply tidy_ret; try done.
  apply tidy_bind; [done|]. intros ?. apply tidy_ret.
Qed.

Lemma tidy_lys_params_receive fuel p_params :
  tidy (lys_params_receive fuel p_params).
Proof.
  unfold lys_params_receive, error.
  apply tidy_bind; [apply tidy_params_receive_loop|]. intros r.
  destruct (r.1); try apply tidy_ret.
  apply tidy_bind; [apply tidy_lys_param_wait|]. intros w. tidy_steps.
Qed.

Lemma tidy_perform fuel c : tidy (perform fuel c).
Proof.
  destruct c; cbn [perform];
    try (apply tidy_bind; [|intros ?; apply tidy_ret]);
    auto using tidy_lys_param_wait, tidy_lys_params_receive,
      tidy_lys_param_send, tidy_lys_results_send, tidy_lys_finish,
      tidy_lys_error_send, tidy_lys_log_send.
  by apply tidy_modify.
Qed.


(** ** Sending results *)

Lemma frame_holding f e : frame (holding f e) = f.
Proof.
  unfold frame, holding. eng_simpl. by rewrite Nat2Z.id, take_app_length.
Qed.

Lemma lys_finish_spec fuel e cs rest :
  buf_ok e -> m_state e = LYS_STATE_RESULT ->
  delivers cs (simple_frame LYS_OP_ACK) = true ->
  rx (rtt e) = cs ++ rest -> (pending e + 2 <= fuel)%nat ->
  exists e',
    lys_finish fuel e = Ret (LYS_ERROR_SUCCESS, e') /\
    io e e' cs (simple_frame LYS_OP_FINISHED) /\ rx (rtt e') = rest /\
    m_state e' = LYS_STATE_RESULT.
Proof.
  intros Hok Hst Hd Hrx Hfuel.
  destruct (msg_send_and_ack_spec fuel LYS_OP_FINISHED Null e _ cs rest Hok
              (msg_create_simple LYS_OP_FINISHED Null e ltac:(done) ltac:(done) Hok)
              Hd Hrx Hfuel) as (e1 & Hsa & Hio & Hrx1 & Hs1).
  rewrite frame_holding in Hio.
  eexists. split.
  { unfold lys_finish, result_open. mred. rewrite Hst.
    rewrite bool_decide_eq_false_2 by done. mred. rewrite Hst.
    rewrite bool_decide_eq_true_2 by done. cbn [negb]. unfold or_error. mred.
    rewrite Hsa. reflexivity. }
  unfold io in *. by eng_simpl.
Qed.

Lemma lys_param_send_spec fuel e v cs rest :
  buf_ok e -> m_state e = LYS_STATE_RESULT -> sendable v = true ->
  delivers cs (simple_frame LYS_OP_ACK) = true ->
  rx (rtt e) = cs ++ rest -> (pending e + 2 <= fuel)%nat ->
  exists e',
    lys_param_send fuel (Own (param_of v)) e = Ret (LYS_ERROR_SUCCESS, e') /\
    io e e' cs (wire (op_ord LYS_OP_PARAM) v) /\ rx (rtt e') = rest /\
    m_state e' = LYS_STATE_RESULT.
Proof.
  intros Hok Hst Hv Hd Hrx Hfuel. unfold sendable in Hv. zbool.
  destruct (msg_send_and_ack_spec fuel LYS_OP_PARAM (Own (param_of v)) e _ cs rest Hok
              (msg_create_param LYS_OP_PARAM v e ltac:(auto) Hok ltac:(done) ltac:(done))
              Hd Hrx Hfuel) as (e1 & Hsa & Hio & Hrx1 & Hs1).
  rewrite frame_holding in Hio.
  eexists. split.
  { unfold lys_param_send, result_open. mred. rewrite Hst.
    rewrite bool_decide_eq_false_2 by done. mred. rewrite Hst.
    rewrite bool_decide_eq_true_2 by done. cbn [negb]. unfold or_error. mred.
    rewrite Hsa. reflexivity. }
  split; [done|]. split; [done|]. congruence.
Qed.

(** ** The session state machine *)

Lemma perform_session_ok fuel c e e' :
  session_ok e -> perform fuel c e = Ret (tt, e') -> session_ok e'.
Proof.
  unfold session_ok, ends, rejects_param, may_wait, fatal.
  intros [Hnf Herr]. destruct c; cbn [perform]; mred.
  - intros [= <-]. by eng_simpl.
  - mcase e1 H1. intros [= <-]. apply lys_param_wait_ends in H1.
    unfold ends, may_wait, fatal in H1.
    destruct (m_error e) eqn:He; split; intuition congruence.
  - mcase e1 H1. intros [= <-]. apply lys_params_receive_ends in H1.
    unfold ends, rejects_param, may_wait, fatal in H1.
    destruct (m_error e) eqn:He; split; intuition congruence.
  - mcase e1 H1. intros [= <-]. apply lys_param_send_ends in H1.
    unfold ends, fatal in H1.
    destruct (m_error e) eqn:He; split; intuition congruence.
  - mcase e1 H1. intros [= <-]. apply lys_results_send_ends in H1.
    unfold ends, fatal in H1.
    destruct (m_error e) eqn:He; split; intuition congruence.
  - mcase e1 H1. intros [= <-]. apply lys_finish_ends in H1.
    unfold ends, fatal in H1.
    destruct (m_error e) eqn:He; split; intuition congruence.
  - mcase e1 H1. intros [= <-]. apply lys_error_send_fatal in H1 as [? ?].
    split; congruence.
  - mcase e1 H1. intros [= <-]. apply lys_log_send_ends in H1.
    unfold ends, fatal in H1.
    destruct (m_error e) eqn:He; split; intuition congruence.
Qed.

Lemma run_session_ok script : forall e e',
  session_ok e -> run script e = Ret (tt, e') -> session_ok e'.
Proof.
  induction script as [|[fuel c] script IH]; intros e e' Hok; cbn [run]; mred.
  - by intros [= <-].
  - destruct (perform fuel c e) as [[[] e1]| |] eqn:H1; [|done..].
    eauto using perform_session_ok.
Qed.

Lemma lys_init_session_ok e e0 : lys_init e = Ret (tt, e0) -> session_ok e0.
Proof. intros [= <-]. by split. Qed.

(** Every state a user program can bring the engine to from start-up has
    the scratch buffer in place and the session in order. *)
Lemma run_invariant script : forall e e',
  buf_ok e -> session_ok e -> run script e = Ret (tt, e') ->
  buf_ok e' /\ session_ok e'.
Proof.
  induction script as [|[fuel c] script IH]; intros e e' Hok Hs; cbn [run]; mred.
  - by intros [= <-].
  - destruct (perform fuel c e) as [[[] e1]| |] eqn:H1; [|done..].
    apply IH.
    + by eapply tidy_perform.
    + by eapply perform_session_ok.
Qed.

Lemma boot_invariant c : buf_ok (boot c) /\ session_ok (boot c).
Proof. by repeat split. Qed.

(** C9: from initialization on, no sequence of public operations, with
    whatever arguments and whatever the host sends, leaves the state equal
    to FINISHED; and a successful [lys_finish] leaves it equal to RESULT. *)
Theorem state_never_finished script fuel e e0 e' e1 e2 :
  lys_init e = Ret (tt, e0) ->
  run script e0 = Ret (tt, e') ->
  lys_finish fuel e1 = Ret (LYS_ERROR_SUCCESS, e2) ->
  m_state e' <> LYS_STATE_FINISHED /\ m_state e2 = LYS_STATE_RESULT.
Proof.
  intros Hinit Hrun Hfin. split.
  - eapply run_session_ok; [|done]. by eapply lys_init_session_ok.
  - apply lys_finish_ends in Hfin as [(_ & _ & ? & _)|[[? _]|(? & _)]]; done.
Qed.

Lemma state_never_finished_witness :
  let e := boot (host [ack; [2; 2]; ack; ack; ack]) in
  let script := [(4%nat, Call_param_wait); (4%nat, Call_finish);
                 (4%nat, Call_finish); (4%nat, Call_param_wait)] in
  let e1 := set_state LYS_STATE_RUNNING (boot (host [ack; ack])) in
  exists e0 e' e2,
    lys_init e = Ret (tt, e0) /\
    run script e0 = Ret (tt, e') /\
    lys_finish 4 e1 = Ret (LYS_ERROR_SUCCESS, e2) /\
    m_state e' <> LYS_STATE_FINISHED /\ m_state e2 = LYS_STATE_RESULT.
Proof.
  intros e script e1. eexists _, _, _.
  split; [reflexivity|]. split; [vm_compute; reflexivity|].
  split; [vm_compute; reflexivity|].
  apply (state_never_finished script 4 e _ _ e1 _ eq_refl);
    vm_compute; reflexivity.
Defined.

(** ** After FINISHED *)

(** C10: after a successful [lys_finish], in any state the engine can be
    in, the state is RESULT and the sticky error flag is clear; when the
    host ACKs, a further [lys_finish] sends another FINISHED frame and
    returns success, and a further [lys_param_send] of a value that fits a
    frame sends another PARAM frame and returns success. *)
Theorem finish_is_not_terminal fuel e e1 :
  buf_ok e -> session_ok e ->
  lys_finish fuel e = Ret (LYS_ERROR_SUCCESS, e1) ->
  m_state e1 = LYS_STATE_RESULT /\ m_error e1 = false /\
  (forall fuel' cs rest,
     delivers cs (simple_frame LYS_OP_ACK) = true ->
     rx (rtt e1) = cs ++ rest -> (pending e1 + 2 <= fuel')%nat ->
     exists e2,
       lys_finish fuel' e1 = Ret (LYS_ERROR_SUCCESS, e2) /\
       tx (rtt e2) = tx (rtt e1) ++ simple_frame LYS_OP_FINISHED /\
       m_state e2 = LYS_STATE_RESULT /\ m_error e2 = false) /\
  (forall fuel' v cs rest,
     sendable v = true ->
     delivers cs (simple_frame LYS_OP_ACK) = true ->
     rx (rtt e1) = cs ++ rest -> (pending e1 + 2 <= fuel')%nat ->
     exists e2,
       lys_param_send fuel' (Own (param_of v)) e1 =
       Ret (LYS_ERROR_SUCCESS, e2) /\
       tx (rtt e2) = tx (rtt e1) ++ wire (op_ord LYS_OP_PARAM) v /\
       m_state e2 = LYS_STATE_RESULT /\ m_error e2 = false).
Proof.
  intros Hok [_ Herr] Hfin.
  pose proof (tidy_lys_finish fuel e _ e1 Hok Hfin) as Hok1.
  apply lys_finish_ends in Hfin as [(_ & He1 & Hs1 & Hs)|[[? _]|(? & _)]];
    [|done..].
  assert (He : m_error e1 = false).
  { rewrite He1. destruct (m_error e); [|done].
    specialize (Herr eq_refl). destruct Hs; congruence. }
  split; [done|]. split; [done|]. split.
  - intros fuel' cs rest Hd Hrx Hfuel.
    destruct (lys_finish_spec fuel' e1 cs rest Hok1 Hs1 Hd Hrx Hfuel)
      as (e2 & Hf2 & (_ & _ & Htx & _ & He2) & _ & Hs2).
    exists e2. repeat split; try done. congruence.
  - intros fuel' v cs rest Hv Hd Hrx Hfuel.
    destruct (lys_param_send_spec fuel' e1 v cs rest Hok1 Hs1 Hv Hd Hrx Hfuel)
      as (e2 & Hf2 & (_ & _ & Htx & _ & He2) & _ & Hs2).
    exists e2. repeat split; try done. congruence.
Qed.

Lemma finish_is_not_terminal_witness :
  lys_finish 6 running_engine = Ret (LYS_ERROR_SUCCESS, finished_engine) /\
  m_state finished_engine = LYS_STATE_RESULT /\
  m_error finished_engine = false /\
  exists e2,
    lys_finish 3 finished_engine = Ret (LYS_ERROR_SUCCESS, e2) /\
    tx (rtt e2) = [2; 3; 2; 4] ++ simple_frame LYS_OP_FINISHED.
Proof.
  assert (Hfin : lys_finish 6 running_engine =
                 Ret (LYS_ERROR_SUCCESS, finished_engine))
    by (vm_compute; reflexivity).
  destruct (finish_is_not_terminal 6 running_engine finished_engine)
    as (Hs & He & Hagain & _);
    [vm_compute; reflexivity|split; [discriminate|discriminate]|exact Hfin|].
  destruct (Hagain 3%nat [ack] [])
    as (e2 & Hf & Htx & _); [reflexivity|reflexivity|vm_compute; lia|].
  split; [exact Hfin|]. split; [exact Hs|]. split; [exact He|].
  exists e2. split; [exact Hf|exact Htx].
Defined.

(** ** Failures *)

Lemma msg_send_and_ack_rejected fuel op p e err e1 :
  buf_ok e -> msg_create (op_ord op) p e = Ret (err, e1) ->
  err <> LYS_ERROR_SUCCESS ->
  err = LYS_ERROR_INVALID_PARAM /\
  msg_send_and_ack fuel op p e = Ret (err, e1) /\ rtt e1 = rtt e.
Proof.
  intros Hok Hc Hne.
  destruct (msg_create_spec _ _ _ _ _ Hc Hok)
    as (_ & Hrtt & _ & _ & [[? _]| ->]); [done|].
  repeat split; [|done]. unfold msg_send_and_ack. mred. by rewrite Hc.
Qed.

(** The arguments the encoder rejects: a null parameter, an empty string,
    an array without items, a payload that does not fit the frame, an
    array of arrays and an undefined tag. *)
Lemma rejected_arguments :
  Forall (fun p => returned (msg_create (op_ord LYS_OP_PARAM) p (boot idle))
                   = Some LYS_ERROR_INVALID_PARAM)
    [Null; Own empty_string_param; Own (param_of (V_array 0 0 []));
     Own (param_of (V_string (replicate 62 0)));
     Own nested_array_param; Own undefined_tag_param].
Proof. repeat constructor. Qed.

(** C5 (amended): when the argument of [lys_param_send], called in state
    RESULT, or of [lys_log_send], called in a state other than
    WAIT_FOR_START and RESULT, fails validation during encoding, the
    operation returns InvalidParam and nothing is written to or read from
    the transport; but the engine sets the sticky error flag and forces the
    state to UNKNOWN, as for any other failure of the exchange. *)
Theorem rejected_argument_is_fatal fuel e :
  buf_ok e ->
  (forall p_param err e1,
     m_state e = LYS_STATE_RESULT ->
     msg_create (op_ord LYS_OP_PARAM) p_param e = Ret (err, e1) ->
     err <> LYS_ERROR_SUCCESS ->
     exists e',
       lys_param_send fuel p_param e = Ret (LYS_ERROR_INVALID_PARAM, e') /\
       rtt e' = rtt e /\
       m_error e' = true /\ m_state e' = LYS_STATE_UNKNOWN) /\
  (forall p_str err e1,
     m_state e <> LYS_STATE_WAIT_FOR_START ->
     m_state e <> LYS_STATE_RESULT ->
     msg_create (op_ord LYS_OP_LOG) Static
       (set_param {| param_type := type_ord LYS_PARAM_TYPE_STRING;
                     data := P_str p_str |} e) = Ret (err, e1) ->
     err <> LYS_ERROR_SUCCESS ->
     exists e',
       lys_log_send fuel p_str e = Ret (LYS_ERROR_INVALID_PARAM, e') /\
       rtt e' = rtt e /\
       m_error e' = true /\ m_state e' = LYS_STATE_UNKNOWN).
Proof.
  intros Hok. split.
  - intros p err e1 Hst Hc Hne.
    destruct (msg_send_and_ack_rejected fuel _ _ _ _ _ Hok Hc Hne)
      as (-> & Hsa & Hrtt).
    eexists. split.
    { unfold lys_param_send, result_open. mred. rewrite Hst.
      rewrite bool_decide_eq_false_2 by done. mred. rewrite Hst.
      rewrite bool_decide_eq_true_2 by done. cbn [negb]. unfold or_error.
      mred. rewrite Hsa. reflexivity. }
    by eng_simpl.
  - intros p_str err e1 Hw Hr Hc Hne.
    destruct (msg_send_and_ack_rejected fuel LYS_OP_LOG Static
                (set_param {| param_type := type_ord LYS_PARAM_TYPE_STRING;
                              data := P_str p_str |} e) err e1 Hok Hc Hne)
      as (-> & Hsa & Hrtt).
    eexists. split.
    { unfold lys_log_send. mred.
      rewrite !bool_decide_eq_false_2 by done. cbn [orb]. unfold or_error.
      mred. rewrite Hsa. reflexivity. }
    by eng_simpl.
Qed.

Lemma rejected_argument_is_fatal_witness :
  let e := set_state LYS_STATE_RESULT (boot idle) in
  exists e',
    lys_param_send 1 (Own nested_array_param) e =
    Ret (LYS_ERROR_INVALID_PARAM, e') /\
    rtt e' = rtt e /\ m_error e' = true /\ m_state e' = LYS_STATE_UNKNOWN.
Proof.
  intros e.
  apply (proj1 (rejected_argument_is_fatal 1 e eq_refl)
           (Own nested_array_param) LYS_ERROR_INVALID_PARAM
           (buf_push 5 (set_buf_index 1 e)));
    [reflexivity|reflexivity|discriminate].
Defined.

(** C5 as stated fails: [lys_param_send] in state RESULT with a null
    parameter, and [lys_log_send] in state RUNNING with an empty string,
    return InvalidParam with nothing written to the transport, yet the
    state has moved from RESULT, or RUNNING, to UNKNOWN and the sticky
    error flag is set. *)
Lemma rejected_argument_changes_session :
  observed (lys_param_send 1 Null (set_state LYS_STATE_RESULT (boot idle))) =
  Some (LYS_ERROR_INVALID_PARAM, LYS_STATE_UNKNOWN, true, []) /\
  observed (lys_log_send 1 (Own {| len := 0; p_data := Mem [] |})
              (set_state LYS_STATE_RUNNING (boot idle))) =
  Some (LYS_ERROR_INVALID_PARAM, LYS_STATE_UNKNOWN, true, []).
Proof. split; reflexivity. Qed.

Lemma value_of_tag e q v : value_of e q = Some v -> param_type q = tag_of v.
Proof.
  unfold value_of. intros H.
  destruct (lys_param_type_of (param_type q)) as [t|] eqn:Ht; [|done].
  apply lys_param_type_of_ord in Ht.
  destruct t; simplify_option_eq; done.
Qed.

(** A PARAM frame whose tag is not the expected one is received and ACKed,
    and then [lys_params_receive] returns InvalidParam without calling
    [error]. *)
Lemma tag_mismatch_is_not_fatal fuel e p rest_params v cs rest :
  buf_ok e -> m_state e = LYS_STATE_WAIT_FOR_START ->
  sendable v = true -> param_type p <> tag_of v ->
  delivers cs (wire (op_ord LYS_OP_PARAM) v) = true ->
  rx (rtt e) = cs ++ rest -> (pending e + 2 <= fuel)%nat ->
  exists e',
    lys_params_receive fuel (p :: rest_params) e =
    Ret ((LYS_ERROR_INVALID_PARAM, p :: rest_params), e') /\
    tx (rtt e') = tx (rtt e) ++ m_ack_buf /\
    m_state e' = LYS_STATE_WAIT_FOR_START /\ m_error e' = m_error e.
Proof.
  intros Hok Hst Hv Hne Hd Hrx Hfuel.
  destruct (lys_param_wait_param fuel e cs rest v Null false Hok Hst Hv Hd
              Hrx Hfuel) as (e1 & Hw & (_ & _ & Htx & _ & He) & _ & Hs1 & Hval).
  apply value_of_tag in Hval.
  exists e1. split; [|done].
  unfold lys_params_receive. cbn [params_receive_loop]. mred. rewrite Hw.
  cbn [w_err w_param_set negb w_param deref]. unfold global, global_param.
  rewrite Hval, (proj2 (Z.eqb_neq _ _)) by done. reflexivity.
Qed.

(** C6 (amended): a public operation that fails either was refused by its
    state check before any I/O (InvalidState, engine untouched), or has set
    the sticky error flag and forced the state to UNKNOWN; the error code
    is returned to the caller.  [lys_params_receive] fails in one more
    way: on a tag mismatch, an early START or a failed copy it returns
    InvalidParam with the sticky error flag as it was and the state
    WAIT_FOR_START or RUNNING; a PARAM frame with the wrong tag in
    particular is received and ACKed and then rejected in this way. *)
Theorem failure_is_fatal_or_rejected_param fuel e :
  (forall p ps w e',
     lys_param_wait fuel p ps e = Ret (w, e') ->
     w_err w <> LYS_ERROR_SUCCESS ->
     fatal e' \/ w_err w = LYS_ERROR_INVALID_STATE /\ e' = e) /\
  (forall p err e',
     lys_param_send fuel p e = Ret (err, e') -> err <> LYS_ERROR_SUCCESS ->
     fatal e' \/ err = LYS_ERROR_INVALID_STATE /\ e' = e) /\
  (forall params err e',
     lys_results_send fuel params e = Ret (err, e') ->
     err <> LYS_ERROR_SUCCESS ->
     fatal e' \/ err = LYS_ERROR_INVALID_STATE /\ e' = e) /\
  (forall err e',
     lys_finish fuel e = Ret (err, e') -> err <> LYS_ERROR_SUCCESS ->
     fatal e' \/ err = LYS_ERROR_INVALID_STATE /\ e' = e) /\
  (forall p_str err e',
     lys_log_send fuel p_str e = Ret (err, e') -> err <> LYS_ERROR_SUCCESS ->
     fatal e' \/ err = LYS_ERROR_INVALID_STATE /\ e' = e) /\
  (forall err e', lys_error_send fuel e = Ret (err, e') -> fatal e') /\
  (forall p_params r e',
     lys_params_receive fuel p_params e = Ret (r, e') ->
     r.1 <> LYS_ERROR_SUCCESS ->
     fatal e' \/ (r.1 = LYS_ERROR_INVALID_STATE /\ e' = e) \/
     rejects_param e r.1 e') /\
  (forall p rest_params v cs rest,
     buf_ok e -> m_state e = LYS_STATE_WAIT_FOR_START ->
     sendable v = true -> param_type p <> tag_of v ->
     delivers cs (wire (op_ord LYS_OP_PARAM) v) = true ->
     rx (rtt e) = cs ++ rest -> (pending e + 2 <= fuel)%nat ->
     exists e',
       lys_params_receive fuel (p :: rest_params) e =
       Ret ((LYS_ERROR_INVALID_PARAM, p :: rest_params), e') /\
       tx (rtt e') = tx (rtt e) ++ m_ack_buf /\
       m_state e' = LYS_STATE_WAIT_FOR_START /\ m_error e' = m_error e).
Proof.
  unfold ends.
  split; [|split; [|split; [|split; [|split; [|split; [|split]]]]]].
  - intros p ps w e' H Hne. apply lys_param_wait_ends in H. unfold ends in H.
    intuition.
  - intros p err e' H Hne. apply lys_param_send_ends in H. unfold ends in H.
    intuition.
  - intros ps err e' H Hne. apply lys_results_send_ends in H. unfold ends in H.
    intuition.
  - intros err e' H Hne. apply lys_finish_ends in H. unfold ends in H.
    intuition.
  - intros p err e' H Hne. apply lys_log_send_ends in H. unfold ends in H.
    intuition.
  - intros err e'. apply lys_error_send_fatal.
  - intros ps r e' H Hne. apply lys_params_receive_ends in H. unfold ends in H.
    intuition.
  - intros p rest_params v cs rest. apply tag_mismatch_is_not_fatal.
Qed.

Lemma failure_is_fatal_or_rejected_param_witness :
  let e := set_state LYS_STATE_WAIT_FOR_START
             (boot (host [[7; 5]; [1; 42; 0; 0; 0]])) in
  exists e',
    lys_params_receive 4 [uint32_param 0 0 0 0] e =
    Ret ((LYS_ERROR_INVALID_PARAM, [uint32_param 0 0 0 0]), e') /\
    tx (rtt e') = tx (rtt e) ++ m_ack_buf /\
    m_state e' = LYS_STATE_WAIT_FOR_START /\ m_error e' = m_error e.
Proof.
  intros e.
  destruct (failure_is_fatal_or_rejected_param 4 e)
    as (_ & _ & _ & _ & _ & _ & _ & H).
  apply (H (uint32_param 0 0 0 0) [] (V_scalar 1 [42; 0; 0; 0])
           [[7; 5]; [1; 42; 0; 0; 0]] []);
    [reflexivity|reflexivity|reflexivity|discriminate|reflexivity|reflexivity
    |vm_compute; lia].
Defined.

(** C6 as stated fails: with the expected list [UINT32] and the engine
    waiting for START, the host sends a PARAM frame of tag INT32.  The
    frame is received and ACKed and [lys_params_receive] returns
    InvalidParam, but the state is still WAIT_FOR_START and the sticky
    error flag is still clear. *)
Lemma tag_mismatch_leaves_session :
  observed (lys_params_receive 3 [uint32_param 0 0 0 0]
              (set_state LYS_STATE_WAIT_FOR_START
                 (boot (host [[7; 5; 1; 42; 0; 0; 0]])))) =
  Some ((LYS_ERROR_INVALID_PARAM, [uint32_param 0 0 0 0]),
        LYS_STATE_WAIT_FOR_START, false, [2; 6]).
Proof. reflexivity. Qed.
(** * Further properties of the code *)

(** ** The encoder *)

(** X1: for op PARAM or LOG and every value the encoder can put in one
    frame, [msg_create] succeeds and the frame it leaves in the scratch
    buffer is the byte map of lys.h: [LEN][OP][type][data], or
    [LEN][OP][ARRAY][item type][data] for an array.  The bytes of the
    buffer behind the frame, the transport and the session are left as
    they were. *)
Theorem msg_create_emits_wire op v e :
  op = LYS_OP_PARAM \/ op = LYS_OP_LOG ->
  buf_ok e -> sendable v = true ->
  exists e',
    msg_create (op_ord op) (Own (param_of v)) e =
    Ret (LYS_ERROR_SUCCESS, e') /\
    frame e' = wire (op_ord op) v /\
    drop (length (frame e')) (m_buf e') = drop (length (frame e')) (m_buf e) /\
    rtt e' = rtt e /\ session e' = session e.
Proof.
  intros Hop Hok Hv. unfold sendable in Hv. zbool.
  eexists. split; [by apply msg_create_param|].
  rewrite frame_holding. unfold holding. eng_simpl.
  by rewrite drop_app_length.
Qed.

Lemma msg_create_emits_wire_witness :
  exists e',
    msg_create (op_ord LYS_OP_LOG) (Own (param_of (V_string [104; 105])))
               (boot idle) = Ret (LYS_ERROR_SUCCESS, e') /\
    frame e' = [5; 7; 5; 104; 105] /\
    drop (length (frame e')) (m_buf e') =
    drop (length (frame e')) (m_buf (boot idle)) /\
    rtt e' = rtt (boot idle) /\ session e' = session (boot idle).
Proof.
  apply (msg_create_emits_wire LYS_OP_LOG (V_string [104; 105]) (boot idle));
    [by right|reflexivity|reflexivity].
Defined.

(** X2: for an op that carries no parameter, [msg_create] ignores
    [p_param] (null or not) and leaves the two-byte frame [02][OP]; for a
    value that is no op of the protocol it returns InvalidParam, the
    transport and the session left as they were. *)
Theorem msg_create_without_param e p_param :
  buf_ok e ->
  (forall op, op <> LYS_OP_PARAM -> op <> LYS_OP_LOG ->
     exists e',
       msg_create (op_ord op) p_param e = Ret (LYS_ERROR_SUCCESS, e') /\
       frame e' = [2; op_ord op]) /\
  (forall z, lys_op_of z = None ->
     exists e',
       msg_create z p_param e = Ret (LYS_ERROR_INVALID_PARAM, e') /\
       rtt e' = rtt e /\ session e' = session e).
Proof.
  intros Hok. split.
  - intros op H1 H2. eexists. split; [by apply msg_create_simple|].
    by rewrite frame_holding.
  - intros z Hz. unfold msg_create. mred. rewrite Hz. by eexists.
Qed.

Lemma msg_create_without_param_witness :
  (exists e',
     msg_create (op_ord LYS_OP_FINISHED) (Own nested_array_param) (boot idle)
     = Ret (LYS_ERROR_SUCCESS, e') /\
     frame e' = [2; 4]) /\
  (exists e',
     msg_create 8 Null (boot idle) = Ret (LYS_ERROR_INVALID_PARAM, e') /\
     rtt e' = rtt (boot idle) /\ session e' = session (boot idle)).
Proof.
  destruct (msg_create_without_param (boot idle) (Own nested_array_param)
              eq_refl) as [H _].
  destruct (msg_create_without_param (boot idle) Null eq_refl) as [_ H'].
  split; [apply (H LYS_OP_FINISHED); discriminate|apply (H' 8); reflexivity].
Defined.

(** ** The decoder *)

(** X3: the codec round trip holds for the other ops as well: a frame
    encoded for an op that carries no parameter decodes to that op and a
    null parameter, whatever [p_param] was, and a LOG frame decodes to op
    LOG and the value encoded. *)
Theorem codec_roundtrip_every_op e :
  buf_ok e ->
  (forall op p_param, op <> LYS_OP_PARAM -> op <> LYS_OP_LOG ->
     exists e1,
       msg_create (op_ord op) p_param e = Ret (LYS_ERROR_SUCCESS, e1) /\
       returned (decode e1) = Some (LYS_ERROR_SUCCESS, op_ord op, None)) /\
  (forall v, sendable v = true ->
     exists e1,
       msg_create (op_ord LYS_OP_LOG) (Own (param_of v)) e =
       Ret (LYS_ERROR_SUCCESS, e1) /\
       returned (decode e1) =
       Some (LYS_ERROR_SUCCESS, op_ord LYS_OP_LOG, Some v)).
Proof.
  intros Hok. split.
  - intros op p H1 H2. eexists. split; [by apply msg_create_simple|].
    unfold decode. mred.
    by rewrite (msg_parse_simple op _ (drop 2 (m_buf e))).
  - intros v Hv. unfold sendable in Hv. zbool.
    eexists. split; [apply msg_create_param; auto|].
    set (f := wire (op_ord LYS_OP_LOG) v).
    destruct (msg_parse_param LYS_OP_LOG v (holding f e)
                (drop (length f) (m_buf e)))
      as (e' & Hp & Hval & _); auto.
    unfold decode. mred. rewrite Hp. cbn [r_err r_op r_param deref returned].
    unfold global, global_param. cbn [mbind option_bind]. by rewrite Hval.
Qed.

Lemma codec_roundtrip_every_op_witness :
  (exists e1,
     msg_create (op_ord LYS_OP_INIT) Null (boot idle) =
     Ret (LYS_ERROR_SUCCESS, e1) /\
     returned (decode e1) = Some (LYS_ERROR_SUCCESS, 1, None)) /\
  (exists e1,
     msg_create (op_ord LYS_OP_LOG) (Own (param_of (V_string [111; 107])))
                (boot idle) = Ret (LYS_ERROR_SUCCESS, e1) /\
     returned (decode e1) =
     Some (LYS_ERROR_SUCCESS, 7, Some (V_string [111; 107]))).
Proof.
  destruct (codec_roundtrip_every_op (boot idle) eq_refl) as [H1 H2].
  split; [apply (H1 LYS_OP_INIT Null); discriminate|apply H2; reflexivity].
Defined.

(** X4: a PARAM or LOG frame with a scalar type tag decodes exactly when
    its LEN byte is 3 plus the size of the type; with any other LEN byte
    (shorter, longer, or too short to hold a tag) [msg_parse] returns
    InvalidParam and a null parameter.  The scratch buffer, the transport
    and the session are left as they were either way. *)
Theorem scalar_frame_needs_exact_length e op t :
  op = LYS_OP_PARAM \/ op = LYS_OP_LOG ->
  buf_get e LYS_OP_INDEX = op_ord op ->
  buf_get e LYS_PARAM_TYPE_INDEX = t -> is_scalar t = true ->
  0 <= buf_get e LYS_LEN_INDEX < 256 ->
  exists e',
    msg_parse e =
    Ret ((if buf_get e LYS_LEN_INDEX =? LYS_DATA_INDEX + size_of t
          then {| r_err := LYS_ERROR_SUCCESS; r_op := op_ord op;
                  r_param := Static |}
          else {| r_err := LYS_ERROR_INVALID_PARAM; r_op := op_ord op;
                  r_param := Null |}), e') /\
    m_buf e' = m_buf e /\ rtt e' = rtt e /\ session e' = session e.
Proof.
  intros Hop Hb1 Hb2 Hs Hlen.
  rewrite (msg_parse_with_param op) by done.
  unfold param_parse. rewrite Hb2.
  apply is_scalar_cases in Hs.
  assert (Hl : lys_param_len_lookup t = Ok (size_of t) /\ 1 <= size_of t <= 4)
    by (destruct Hs as [->|[->|[->|[->| ->]]]]; cbn; split; try done; lia).
  destruct Hl as [Hl Hsz].
  cbn [type_ord]. rewrite !(proj2 (Z.eqb_neq _ t)) by lia.
  eng_simpl. cbn [param_type]. rewrite Hl. consts.
  destruct (Z.eqb_spec (buf_get e 0) (3 + size_of t)) as [Heq|Hne].
  - rewrite Heq, uint32_small by lia.
    rewrite (proj2 (Z.eqb_eq _ _)) by lia. cbn [negb]. by eexists.
  - assert (size_of t <> uint32 (buf_get e 0 - 3)).
    { unfold uint32. intros Heq.
      destruct (Z_lt_le_dec (buf_get e 0) 3).
      - rewrite <- (Z.mod_add _ 1) in Heq by lia.
        rewrite Z.mod_small in Heq; lia.
      - rewrite Z.mod_small in Heq; lia. }
    rewrite (proj2 (Z.eqb_neq _ _)) by done. cbn [negb]. by eexists.
Qed.

Lemma scalar_frame_needs_exact_length_witness :
  let e := holding [6; 5; 0; 1; 2; 3] (boot idle) in
  exists e',
    msg_parse e =
    Ret ({| r_err := LYS_ERROR_INVALID_PARAM; r_op := 5; r_param := Null |},
         e') /\
    m_buf e' = m_buf e /\ rtt e' = rtt e /\ session e' = session e.
Proof.
  apply (scalar_frame_needs_exact_length
           (holding [6; 5; 0; 1; 2; 3] (boot idle)) LYS_OP_PARAM 0);
    [by left|reflexivity|reflexivity|reflexivity|vm_compute; by split].
Defined.

(** X5: [msg_parse] returns InvalidParam and a null parameter for a frame
    whose op byte is no op of the protocol, for a PARAM or LOG frame whose
    type tag is no type of the protocol, and for an array frame whose item
    tag is none.  The scratch buffer, the transport and the session are
    left as they were. *)
Theorem undefined_codes_rejected e :
  (lys_op_of (buf_get e LYS_OP_INDEX) = None ->
   msg_parse e =
   Ret ({| r_err := LYS_ERROR_INVALID_PARAM;
           r_op := buf_get e LYS_OP_INDEX; r_param := Null |}, e)) /\
  (forall op,
     op = LYS_OP_PARAM \/ op = LYS_OP_LOG ->
     buf_get e LYS_OP_INDEX = op_ord op ->
     lys_param_type_of (buf_get e LYS_PARAM_TYPE_INDEX) = None \/
     buf_get e LYS_PARAM_TYPE_INDEX = type_ord LYS_PARAM_TYPE_ARRAY /\
     lys_param_type_of (buf_get e LYS_ARRAY_PARAM_TYPE_INDEX) = None ->
     exists e',
       msg_parse e =
       Ret ({| r_err := LYS_ERROR_INVALID_PARAM; r_op := op_ord op;
               r_param := Null |}, e') /\
       m_buf e' = m_buf e /\ rtt e' = rtt e /\ session e' = session e).
Proof.
  split.
  - intros H. unfold msg_parse. by rewrite H.
  - intros op Hop Hb1 Ht.
    rewrite (msg_parse_with_param op) by done.
    unfold param_parse.
    destruct Ht as [Ht|[Ht Hi]].
    + assert (buf_get e LYS_PARAM_TYPE_INDEX <> 6 /\
              buf_get e LYS_PARAM_TYPE_INDEX <> 5) as [H6 H5]
        by (split; intros Heq; by rewrite Heq in Ht).
      cbn [type_ord].
      rewrite (proj2 (Z.eqb_neq 6 _)), (proj2 (Z.eqb_neq 5 _)) by done.
      eng_simpl. cbn [param_type]. unfold lys_param_len_lookup.
      rewrite Ht. by eexists.
    + rewrite Ht, Z.eqb_refl. unfold buf_get in *. eng_simpl.
      cbn [array_param_type]. unfold lys_param_len_lookup. rewrite Hi.
      by eexists.
Qed.

Lemma undefined_codes_rejected_witness :
  (let e := holding [2; 9] (boot idle) in
   msg_parse e =
   Ret ({| r_err := LYS_ERROR_INVALID_PARAM; r_op := 9; r_param := Null |},
        e)) /\
  (let e := holding [5; 5; 6; 7; 1] (boot idle) in
   exists e',
     msg_parse e =
     Ret ({| r_err := LYS_ERROR_INVALID_PARAM; r_op := 5; r_param := Null |},
          e') /\
     m_buf e' = m_buf e /\ rtt e' = rtt e /\ session e' = session e).
Proof.
  split.
  - apply (proj1 (undefined_codes_rejected (holding [2; 9] (boot idle)))).
    reflexivity.
  - apply (proj2 (undefined_codes_rejected
                    (holding [5; 5; 6; 7; 1] (boot idle))) LYS_OP_PARAM);
      [by left|reflexivity|right; by split].
Defined.

(** ** The encoder's length checks *)

Lemma load_mem_take e bytes n :
  0 <= n <= Z.of_nat (length bytes) ->
  load e (Mem bytes) n = load e (Mem (take (Z.to_nat n) bytes)) n.
Proof.
  intros Hn. cbn. rewrite length_take.
  rewrite !(proj2 (Z.leb_le _ _)) by lia. cbn.
  by rewrite take_take, Nat.min_id.
Qed.

Lemma param_emit_mem_take t bytes n e :
  0 <= n <= Z.of_nat (length bytes) ->
  param_emit t (Mem bytes) n e =
  param_emit t (Mem (take (Z.to_nat n) bytes)) n e.
Proof.
  intros Hn. unfold param_emit, memcpy_to_buf.
  by rewrite (load_mem_take _ bytes n).
Qed.

(** X6: the length check of a string, for every length a [uint32_t] can
    hold.  [msg_create] returns InvalidParam, the transport and the
    session left as they were, when the length is 0 or lies between 62 and
    2^32 - 4.  For the three lengths from 2^32 - 3 on, the sum
    [LYS_DATA_INDEX + len] wraps around, the check passes and the copy
    into the scratch buffer is undefined.  A string of 1 to 61 bytes that
    lie inside the storage [p_data] points to is encoded as
    [3 + len][OP][STRING] followed by its first [len] bytes. *)
Theorem string_length_check op s e :
  op = LYS_OP_PARAM \/ op = LYS_OP_LOG ->
  buf_ok e -> 0 <= len s < 4294967296 ->
  let p_param := Own {| param_type := type_ord LYS_PARAM_TYPE_STRING;
                        data := P_str (Own s) |} in
  (len s = 0 \/ 61 < len s < 4294967293 ->
   exists e',
     msg_create (op_ord op) p_param e = Ret (LYS_ERROR_INVALID_PARAM, e') /\
     rtt e' = rtt e /\ session e' = session e) /\
  (4294967293 <= len s -> msg_create (op_ord op) p_param e = Undefined) /\
  (forall bytes,
     1 <= len s <= 61 -> p_data s = Mem bytes ->
     len s <= Z.of_nat (length bytes) ->
     exists e',
       msg_create (op_ord op) p_param e = Ret (LYS_ERROR_SUCCESS, e') /\
       frame e' =
       [3 + len s; op_ord op; type_ord LYS_PARAM_TYPE_STRING] ++
       take (Z.to_nat (len s)) bytes).
Proof.
  intros Hop Hok Hlen p_param. subst p_param.
  assert (Hok1 : buf_ok (buf_push (op_ord op) (set_buf_index LYS_OP_INDEX e))).
  { unfold buf_ok in *. eng_simpl. by rewrite length_insert. }
  rewrite msg_create_with_param by done.
  unfold param_add. cbn [deref param_type data data_p_str].
  cbn [lys_param_len_lookup type_ord lys_param_type_of Z.eqb Pos.eqb].
  unfold verify_str_len. cbn [deref]. unfold buf_ok in *. consts.
  cbn [Z.eqb].
  split; [|split].
  - intros [H0|H].
    + rewrite H0. cbn [Z.eqb]. by eexists.
    + rewrite (proj2 (Z.eqb_neq (len s) 0)) by lia.
      rewrite uint32_small by lia.
      rewrite (proj2 (Z.ltb_lt _ _)) by lia. by eexists.
  - intros H.
    rewrite (proj2 (Z.eqb_neq (len s) 0)) by lia.
    assert (Hw : uint32 (3 + len s) = 3 + len s - 4294967296).
    { unfold uint32. rewrite <- (Z.mod_add _ (-1)) by lia.
      rewrite Z.mod_small; lia. }
    rewrite Hw, (proj2 (Z.ltb_ge _ _)) by lia.
    unfold param_emit, memcpy_to_buf.
    destruct (load _ (p_data s) (len s)); [|done].
    eng_simpl. rewrite !length_insert.
    change (uint8 (1 + 1)) with 2. change (uint8 (2 + 1)) with 3.
    by rewrite (proj2 (Z.leb_gt _ _)) by lia.
  - intros bytes H Hp Hl.
    assert (Hlt : Z.of_nat (length (take (Z.to_nat (len s)) bytes)) = len s)
      by (rewrite length_take; lia).
    pose proof (msg_create_param op (V_string (take (Z.to_nat (len s)) bytes))
                  e Hop Hok) as Hc.
    rewrite msg_create_with_param in Hc by done.
    unfold param_add in Hc.
    cbn [deref param_of param_type data data_p_str in_data_model fits_frame]
      in Hc.
    cbn [lys_param_len_lookup type_ord lys_param_type_of Z.eqb Pos.eqb] in Hc.
    unfold verify_str_len in Hc. cbn [deref len p_data] in Hc. consts.
    rewrite Hlt in Hc. cbn [Z.eqb] in Hc. rewrite Hp.
    rewrite (proj2 (Z.eqb_neq (len s) 0)) in * by lia.
    rewrite uint32_small in * by lia.
    rewrite (proj2 (Z.ltb_ge 64 _)) in * by lia.
    rewrite (param_emit_mem_take _ bytes) by lia.
    eexists. split.
    { apply Hc; [apply andb_true_iff; split|]; lia. }
    rewrite frame_holding. cbn [wire type_ord]. consts. by rewrite Hlt.
Qed.

Lemma string_length_check_witness :
  let long := {| len := 62; p_data := Mem (replicate 62 0) |} in
  let wrapped := {| len := 4294967295; p_data := Mem [104; 105] |} in
  (exists e',
     msg_create (op_ord LYS_OP_LOG)
       (Own {| param_type := type_ord LYS_PARAM_TYPE_STRING;
               data := P_str (Own long) |}) (boot idle) =
     Ret (LYS_ERROR_INVALID_PARAM, e') /\
     rtt e' = rtt (boot idle) /\ session e' = session (boot idle)) /\
  msg_create (op_ord LYS_OP_LOG)
    (Own {| param_type := type_ord LYS_PARAM_TYPE_STRING;
            data := P_str (Own wrapped) |}) (boot idle) = Undefined.
Proof.
  split.
  - apply (string_length_check LYS_OP_LOG
             {| len := 62; p_data := Mem (replicate 62 0) |} (boot idle));
      [by right|reflexivity|cbn; lia|cbn; lia].
  - apply (string_length_check LYS_OP_LOG
             {| len := 4294967295; p_data := Mem [104; 105] |} (boot idle));
      [by right|reflexivity|cbn; lia|cbn; lia].
Defined.

Lemma msg_create_array op a bytes e :
  op = LYS_OP_PARAM \/ op = LYS_OP_LOG -> buf_ok e ->
  is_scalar (array_param_type a) = true -> item_count a <> 0 ->
  let data_len := uint32 (size_of (array_param_type a) * item_count a) in
  data_len <= 60 -> array_data a = Mem bytes ->
  data_len <= Z.of_nat (length bytes) ->
  msg_create (op_ord op)
    (Own {| param_type := type_ord LYS_PARAM_TYPE_ARRAY;
            data := P_array (Own a) |}) e =
  Ret (LYS_ERROR_SUCCESS,
       holding ([4 + data_len; op_ord op; type_ord LYS_PARAM_TYPE_ARRAY;
                 array_param_type a] ++ take (Z.to_nat data_len) bytes) e).
Proof.
  intros Hop Hok Hs Hn data_len Hd Hp Hl.
  pose proof (uint32_range (size_of (array_param_type a) * item_count a)) as Hr.
  fold data_len in Hr.
  assert (0 <= op_ord op < 256) as Hop8 by (destruct op; cbn; lia).
  rewrite msg_create_with_param by done.
  unfold param_add. cbn [deref param_type data data_p_array].
  cbn [lys_param_len_lookup type_ord lys_param_type_of Z.eqb Pos.eqb].
  unfold verify_array_len. cbn [deref].
  apply is_scalar_cases in Hs.
  set (t := array_param_type a) in *.
  assert (Hsz : lys_param_len_lookup t = Ok (size_of t) /\
                1 <= size_of t <= 4 /\ 0 <= t < 256).
  { destruct Hs as [->|[->|[->|[->| ->]]]]; cbn; split; try done; lia. }
  destruct Hsz as (-> & Hsz & Ht).
  unfold buf_ok in Hok. consts. cbn [Z.eqb].
  rewrite (proj2 (Z.eqb_neq (item_count a) _)),
    (proj2 (Z.eqb_neq (size_of t) _)) by lia.
  fold data_len. rewrite (uint32_small (4 + data_len)) by lia.
  rewrite (proj2 (Z.ltb_ge _ _)) by lia.
  rewrite Hp, (param_emit_mem_take _ bytes) by lia.
  assert (Hlt : Z.of_nat (length (take (Z.to_nat data_len) bytes)) = data_len)
    by (rewrite length_take; lia).
  rewrite param_emit_mem; eng_simpl;
    change (uint8 (uint8 (1 + 1) + 1)) with 3;
    change (uint8 (1 + 1)) with 2; try lia.
  2:{ unfold buf_ok. eng_simpl. rewrite !length_insert. by consts. }
  f_equal. f_equal. unfold holding. consts.
  apply engine_eq; eng_simpl; try done; [|rewrite length_app; cbn; lia].
  destruct (m_buf e) as [|b0 [|b1 [|b2 [|b3 buf]]]]; cbn in Hok; try lia.
  set (bs := take (Z.to_nat data_len) bytes) in *.
  replace (Z.to_nat (3 + 1 + data_len)) with (4 + length bs)%nat by lia.
  znat. cbn. rewrite !uint8_small by lia. done.
Qed.

(** X7: the length check of an array, for every item count a [uint32_t]
    can hold, where [data_len] is the product of item size and item count
    as [verify_array_len] computes it, modulo 2^32.  [msg_create] returns
    InvalidParam, the transport and the session left as they were, when
    the item count is 0, when the item type has no fixed nonzero size
    (string, array, undefined tag), or when [data_len] lies between 61 and
    2^32 - 5.  From 2^32 - 4 on, the sum [LYS_ARRAY_DATA_INDEX + data_len]
    wraps around, the check passes and the copy is undefined.  Otherwise
    the frame is [4 + data_len][OP][ARRAY][item type] and the first
    [data_len] bytes of the data; as the product wraps around, this
    includes item counts whose data does not fit any frame. *)
Theorem array_length_check op a e :
  op = LYS_OP_PARAM \/ op = LYS_OP_LOG ->
  buf_ok e -> 0 <= item_count a < 4294967296 ->
  let p_param := Own {| param_type := type_ord LYS_PARAM_TYPE_ARRAY;
                        data := P_array (Own a) |} in
  let data_len := uint32 (size_of (array_param_type a) * item_count a) in
  (item_count a = 0 \/ is_scalar (array_param_type a) = false \/
   60 < data_len < 4294967292 ->
   exists e',
     msg_create (op_ord op) p_param e = Ret (LYS_ERROR_INVALID_PARAM, e') /\
     rtt e' = rtt e /\ session e' = session e) /\
  (is_scalar (array_param_type a) = true -> item_count a <> 0 ->
   4294967292 <= data_len ->
   msg_create (op_ord op) p_param e = Undefined) /\
  (forall bytes,
     is_scalar (array_param_type a) = true -> item_count a <> 0 ->
     data_len <= 60 -> array_data a = Mem bytes ->
     data_len <= Z.of_nat (length bytes) ->
     exists e',
       msg_create (op_ord op) p_param e = Ret (LYS_ERROR_SUCCESS, e') /\
       frame e' =
       [4 + data_len; op_ord op; type_ord LYS_PARAM_TYPE_ARRAY;
        array_param_type a] ++ take (Z.to_nat data_len) bytes).
Proof.
  intros Hop Hok Hcount p_param data_len. subst p_param.
  pose proof (uint32_range (size_of (array_param_type a) * item_count a)) as Hr.
  fold data_len in Hr.
  split; [|split].
  - intros Hrej.
    rewrite msg_create_with_param by done.
    unfold param_add. cbn [deref param_type data data_p_array].
    cbn [lys_param_len_lookup type_ord lys_param_type_of Z.eqb Pos.eqb].
    unfold verify_array_len. cbn [deref]. consts. cbn [Z.eqb].
    destruct (Z.eqb_spec (item_count a) 0) as [|Hn]; [by eexists|].
    unfold is_scalar, size_of in *.
    destruct (lys_param_len_lookup (array_param_type a)) as [n|err] eqn:Hl;
      [|apply lookup_err in Hl as ->; by eexists].
    destruct (Z.eqb_spec n 0) as [|Hn0]; [by eexists|].
    destruct Hrej as [?|[?|Hd]]; [done..|].
    fold data_len. rewrite (uint32_small (4 + data_len)) by lia.
    rewrite (proj2 (Z.ltb_lt _ _)) by lia. by eexists.
  - intros Hs Hn Hd.
    rewrite msg_create_with_param by done.
    unfold param_add. cbn [deref param_type data data_p_array].
    cbn [lys_param_len_lookup type_ord lys_param_type_of Z.eqb Pos.eqb].
    unfold verify_array_len. cbn [deref]. consts. cbn [Z.eqb].
    apply is_scalar_cases in Hs.
    set (t := array_param_type a) in *.
    assert (Hsz : lys_param_len_lookup t = Ok (size_of t) /\
                  1 <= size_of t <= 4).
    { destruct Hs as [->|[->|[->|[->| ->]]]]; cbn; split; try done; lia. }
    destruct Hsz as (-> & Hsz).
    rewrite (proj2 (Z.eqb_neq (item_count a) _)),
      (proj2 (Z.eqb_neq (size_of t) _)) by lia.
    fold data_len.
    assert (Hw : uint32 (4 + data_len) = 4 + data_len - 4294967296).
    { unfold uint32 at 1. rewrite <- (Z.mod_add _ (-1)) by lia.
      rewrite Z.mod_small; lia. }
    rewrite Hw, (proj2 (Z.ltb_ge _ _)) by lia.
    unfold param_emit, memcpy_to_buf.
    destruct (load _ (array_data a) data_len); [|done].
    unfold buf_ok in Hok. consts. eng_simpl. rewrite !length_insert.
    change (uint8 (uint8 (1 + 1) + 1)) with 3.
    change (uint8 (3 + 1)) with 4.
    by rewrite (proj2 (Z.leb_gt _ _)) by lia.
  - intros bytes Hs Hn Hd Hp Hl. eexists. split.
    { by apply (msg_create_array op a bytes). }
    by rewrite frame_holding.
Qed.

Lemma array_length_check_witness :
  let a := {| array_param_type := type_ord LYS_PARAM_TYPE_UINT32;
              item_count := 1073741824; array_data := Mem [] |} in
  exists e',
    msg_create (op_ord LYS_OP_PARAM)
      (Own {| param_type := type_ord LYS_PARAM_TYPE_ARRAY;
              data := P_array (Own a) |}) (boot idle) =
    Ret (LYS_ERROR_SUCCESS, e') /\
    frame e' = [4; 5; 6; 0].
Proof.
  destruct (array_length_check LYS_OP_PARAM
              {| array_param_type := type_ord LYS_PARAM_TYPE_UINT32;
                 item_count := 1073741824; array_data := Mem [] |}
              (boot idle)) as (_ & _ & H);
    [by left|reflexivity|cbn; lia|].
  apply (H []);
    [reflexivity|cbn; lia|vm_compute; discriminate|reflexivity|
     vm_compute; discriminate].
Defined.

(** ** The transport adapter *)

(** X8: [msg_send] writes the frame in the scratch buffer to the
    transport exactly once and in order, whatever short or empty writes
    the transport makes of it; it reads nothing and leaves the scratch
    buffer and the session as they were. *)
Theorem msg_send_writes_frame fuel e :
  buf_ok e -> 0 <= m_buf_index e <= LYS_MAX_MSG_LEN ->
  (pending e + 2 <= fuel)%nat ->
  exists e',
    msg_send fuel e = Ret (tt, e') /\
    tx (rtt e') = tx (rtt e) ++ frame e /\ rx (rtt e') = rx (rtt e) /\
    m_buf e' = m_buf e /\ m_buf_index e' = m_buf_index e /\
    session e' = session e.
Proof.
  intros Hok Hi Hfuel.
  destruct (msg_send_spec fuel e Hok Hi Hfuel) as (room' & -> & _).
  by eexists.
Qed.

Lemma msg_send_writes_frame_witness :
  let e := holding [7; 5; 0; 42; 0; 0; 0]
             (boot {| rx := []; tx := [2; 6]; tx_room := [0; 3; 0; 1] |}) in
  exists e',
    msg_send 6 e = Ret (tt, e') /\
    tx (rtt e') = [2; 6] ++ [7; 5; 0; 42; 0; 0; 0] /\
    rx (rtt e') = rx (rtt e) /\
    m_buf e' = m_buf e /\ m_buf_index e' = m_buf_index e /\
    session e' = session e.
Proof.
  apply (msg_send_writes_frame 6
           (holding [7; 5; 0; 42; 0; 0; 0]
              (boot {| rx := []; tx := [2; 6]; tx_room := [0; 3; 0; 1] |})));
    [reflexivity|vm_compute; split; discriminate|vm_compute; lia].
Defined.

(** X9: [msg_receive] puts a frame together from whatever pieces the
    transport hands over, empty reads included: when the chunks bring
    the frame of a value (op PARAM or LOG) or of an op without parameter,
    it returns success with that op and a parameter that reads as the
    value (null for an op without parameter), takes exactly those chunks
    from the transport, and writes nothing. *)
Theorem msg_receive_reassembles fuel e cs rest :
  buf_ok e -> rx (rtt e) = cs ++ rest -> (pending e + 2 <= fuel)%nat ->
  (forall op v,
     op = LYS_OP_PARAM \/ op = LYS_OP_LOG -> sendable v = true ->
     delivers cs (wire (op_ord op) v) = true ->
     exists e',
       msg_receive fuel e =
       Ret ({| r_err := LYS_ERROR_SUCCESS; r_op := op_ord op;
               r_param := Static |}, e') /\
       value_of e' (m_param e') = Some v /\
       frame e' = wire (op_ord op) v /\
       rx (rtt e') = rest /\ tx (rtt e') = tx (rtt e) /\
       session e' = session e) /\
  (forall op,
     op <> LYS_OP_PARAM -> op <> LYS_OP_LOG ->
     delivers cs (simple_frame op) = true ->
     exists e',
       msg_receive fuel e =
       Ret ({| r_err := LYS_ERROR_SUCCESS; r_op := op_ord op;
               r_param := Null |}, e') /\
       frame e' = simple_frame op /\
       rx (rtt e') = rest /\ tx (rtt e') = tx (rtt e) /\
       session e' = session e).
Proof.
  intros Hok Hrx Hfuel. split.
  - intros op v Hop Hv Hd.
    pose proof (framed_wire (op_ord op) v Hv) as Hfr.
    unfold sendable in Hv. zbool.
    set (f := wire (op_ord op) v) in *.
    rewrite (msg_receive_delivers fuel e cs rest f) by done.
    destruct (msg_parse_param op v
                (set_rtt {| rx := rest; tx := tx (rtt e);
                            tx_room := tx_room (rtt e) |} (holding f e))
                (drop (length f) (m_buf e)))
      as (e1 & Hp & Hval & Hb1 & Hi1 & Hs1 & He1 & Hrtt1); auto.
    exists e1. split; [done|]. split; [done|].
    unfold frame, session. rewrite Hb1, Hi1, Hrtt1, Hs1, He1.
    unfold holding. eng_simpl. cbn [rx tx].
    by rewrite Nat2Z.id, take_app_length.
  - intros op H1 H2 Hd.
    set (f := simple_frame op) in *.
    rewrite (msg_receive_delivers fuel e cs rest f) by done.
    erewrite (msg_parse_simple op _ (drop (length f) (m_buf e))) by done.
    eexists. split; [done|]. unfold frame, holding. eng_simpl.
    by rewrite Nat2Z.id, take_app_length.
Qed.

Lemma msg_receive_reassembles_witness :
  let e := boot (host [[]; [7]; [5; 0; 42]; []; [0; 0; 0]; [2; 2]]) in
  exists e',
    msg_receive 8 e =
    Ret ({| r_err := LYS_ERROR_SUCCESS; r_op := 5; r_param := Static |},
         e') /\
    value_of e' (m_param e') = Some (V_scalar 0 [42; 0; 0; 0]) /\
    frame e' = [7; 5; 0; 42; 0; 0; 0] /\
    rx (rtt e') = [[2; 2]] /\ tx (rtt e') = tx (rtt e) /\
    session e' = session e.
Proof.
  destruct (msg_receive_reassembles 8
              (boot (host [[]; [7]; [5; 0; 42]; []; [0; 0; 0]; [2; 2]]))
              [[]; [7]; [5; 0; 42]; []; [0; 0; 0]] [[2; 2]])
    as [H _]; [reflexivity|reflexivity|vm_compute; lia|].
  apply (H LYS_OP_PARAM (V_scalar 0 [42; 0; 0; 0]));
    [by left|reflexivity|reflexivity].
Defined.

(** ** Receiving stays inside the scratch buffer *)

Lemma read_loop_returns fuel : forall e a e',
  buf_ok e -> 0 <= m_buf_index e <= LYS_MAX_MSG_LEN ->
  read_loop fuel e = Ret (a, e') ->
  buf_ok e' /\ 0 <= m_buf_index e' <= LYS_MAX_MSG_LEN /\
  msg_complete e' = true /\ tx (rtt e') = tx (rtt e) /\
  session e' = session e.
Proof.
  unfold buf_ok. consts.
  induction fuel as [|fuel IH]; intros e a e' Hok Hi; [done|].
  cbn [read_loop]. destruct (msg_complete e) eqn:Hc; [by intros [= _ <-]|].
  destruct (SEGGER_RTT_Read _ _) as [bytes c] eqn:Hr.
  assert (Z.of_nat (length bytes) <= 64 - m_buf_index e /\ tx c = tx (rtt e))
    as [Hn Htx].
  { unfold SEGGER_RTT_Read in Hr. consts. rewrite uint32_small in Hr by lia.
    destruct (rx (rtt e)); injection Hr as <- <-; (split; [|done]);
      [cbn; lia|].
    rewrite length_take. lia. }
  intros H. apply IH in H; eng_simpl.
  - by rewrite <- Htx.
  - rewrite !length_app, length_take, length_drop. lia.
  - rewrite uint8_small by lia. lia.
Qed.

Lemma msg_parse_keeps_buffer e r e' :
  msg_parse e = Ret (r, e') ->
  m_buf e' = m_buf e /\ m_buf_index e' = m_buf_index e /\ rtt e' = rtt e.
Proof.
  unfold msg_parse, param_parse.
  repeat case_match; try done; intros [= _ <-]; simplify_eq; done.
Qed.

(** X10: whatever the host sends, in whatever pieces, [msg_receive]
    never writes outside the scratch buffer: when it returns, [m_buf] is
    still an array of 64 bytes, [m_buf_index] lies between 1 and 64 and
    is at least the LEN byte of the message, and nothing was written to
    the transport. *)
Theorem msg_receive_stays_in_buffer fuel e r e' :
  buf_ok e -> msg_receive fuel e = Ret (r, e') ->
  buf_ok e' /\ 1 <= m_buf_index e' <= LYS_MAX_MSG_LEN /\
  buf_get e' LYS_LEN_INDEX <= m_buf_index e' /\
  tx (rtt e') = tx (rtt e) /\ session e' = session e.
Proof.
  unfold msg_receive. intros Hok. mred.
  destruct (read_loop fuel _) as [[[] e1]| |] eqn:Hr; [|done..].
  apply read_loop_returns in Hr as (Hok1 & Hi1 & Hc & Htx & Hs);
    [|done|by eng_simpl].
  intros Hp. pose proof (quiet_msg_parse _ _ _ Hp) as Hq.
  apply msg_parse_keeps_buffer in Hp as (Hb & Hi & Hrtt).
  unfold msg_complete in Hc. apply negb_true_iff, orb_false_iff in Hc as [H1 H2].
  rewrite Z.geb_leb in H1. rewrite Z.gtb_ltb in H2. zbool. consts.
  unfold buf_ok, buf_get in *. rewrite Hb, Hi, Hrtt, Hq.
  repeat split; try done; lia.
Qed.

Lemma msg_receive_stays_in_buffer_witness :
  let e := boot (host [replicate 100 64]) in
  exists r e',
    msg_receive 2 e = Ret (r, e') /\
    buf_ok e' /\ 1 <= m_buf_index e' <= LYS_MAX_MSG_LEN /\
    buf_get e' LYS_LEN_INDEX <= m_buf_index e' /\
    tx (rtt e') = tx (rtt e) /\ session e' = session e.
Proof.
  eexists _, _.
  assert (Hok : buf_ok (boot (host [replicate 100 64]))) by reflexivity.
  assert (H : msg_receive 2 (boot (host [replicate 100 64])) = Ret (_, _))
    by (vm_compute; reflexivity).
  split; [exact H|].
  exact (msg_receive_stays_in_buffer 2 _ _ _ Hok H).
Defined.

(** ** Reads that never complete a message *)

Lemma SEGGER_RTT_Read_length cap c :
  (length (SEGGER_RTT_Read cap c).1 <= Z.to_nat cap)%nat.
Proof.
  unfold SEGGER_RTT_Read. destruct (rx c); cbn; [lia|].
  rewrite length_take. lia.
Qed.

(** With nothing to read and nothing read so far, the receive loop polls
    for ever. *)
Lemma read_loop_silent fuel : forall e,
  rx (rtt e) = [] -> m_buf_index e = 0 -> read_loop fuel e = Diverge.
Proof.
  induction fuel as [|fuel IH]; intros e Hrx Hi; [done|].
  cbn [read_loop]. rewrite msg_complete_false by lia.
  unfold SEGGER_RTT_Read. rewrite Hrx. apply IH; eng_simpl; [done|].
  by rewrite Hi.
Qed.

(** Once the length byte read is larger than the scratch buffer, no read
    completes the message. *)
Lemma read_loop_oversized fuel : forall e,
  buf_ok e -> 1 <= m_buf_index e <= LYS_MAX_MSG_LEN ->
  LYS_MAX_MSG_LEN < buf_get e LYS_LEN_INDEX ->
  read_loop fuel e = Diverge.
Proof.
  unfold buf_ok. consts.
  induction fuel as [|fuel IH]; intros e Hok Hi Hl; [done|].
  cbn [read_loop]. rewrite msg_complete_false by (consts; lia).
  pose proof (SEGGER_RTT_Read_length (uint32 (64 - m_buf_index e)) (rtt e))
    as Hn.
  destruct (SEGGER_RTT_Read _ (rtt e)) as [bytes c]. cbn [fst] in Hn.
  rewrite uint32_small in Hn by lia.
  apply IH; eng_simpl.
  - rewrite !length_app, length_take, length_drop. lia.
  - rewrite uint8_small; lia.
  - unfold buf_get in *. eng_simpl. consts. znat.
    rewrite lookup_app_l by (rewrite length_take; lia).
    rewrite lookup_take_lt by lia. done.
Qed.

(** ** Reads that do not end on a frame boundary *)

(** One read that brings a whole frame and more. *)
Lemma msg_receive_one_chunk fuel e f extra rest :
  buf_ok e -> framed f = true ->
  Z.of_nat (length (f ++ extra)) <= LYS_MAX_MSG_LEN ->
  rx (rtt e) = (f ++ extra) :: rest -> (2 <= fuel)%nat ->
  msg_receive fuel e =
  msg_parse (set_rtt {| rx := rest; tx := tx (rtt e);
                        tx_room := tx_room (rtt e) |}
               (holding (f ++ extra) e)).
Proof.
  unfold framed, buf_ok. consts. intros Hok Hfr Hlen Hrx Hfuel. zbool.
  apply bool_decide_eq_true in H.
  destruct fuel as [|[|fuel]]; [lia..|].
  unfold msg_receive, bind, modify. cbn [read_loop].
  rewrite msg_complete_false by (left; by eng_simpl).
  unfold SEGGER_RTT_Read. eng_simpl. rewrite Hrx. consts.
  change (uint32 (64 - 0)) with 64.
  rewrite (take_ge (f ++ extra)) by lia.
  rewrite (proj2 (Nat.leb_le _ _)) by lia.
  eng_simpl. znat. rewrite take_0. cbn [app].
  rewrite uint8_small by lia.
  destruct f as [|l f]; [done|]. cbn in H. injection H as Hl.
  rewrite msg_complete_true.
  2:{ eng_simpl. rewrite length_app in *. cbn [length] in *. lia. }
  2:{ unfold buf_get. eng_simpl. consts. znat. cbn [app lookup list_lookup default].
      unfold id. cbn [length]. rewrite length_app. lia. }
  do 2 f_equal. unfold holding. apply engine_eq; eng_simpl; try done.
  - do 2 f_equal. lia.
Qed.

(** X11: [msg_receive] takes whatever one read brings.  When a read
    holds a whole frame followed by further bytes, the frame is decoded
    and the further bytes are taken from the transport with it; the next
    [msg_receive] starts at offset 0 again and never looks at them, so if
    the host then waits for the reply, further receiving blocks for
    ever. *)
Theorem trailing_bytes_are_dropped fuel e op v extra rest :
  op = LYS_OP_PARAM \/ op = LYS_OP_LOG ->
  buf_ok e -> sendable v = true ->
  Z.of_nat (length (wire (op_ord op) v ++ extra)) <= LYS_MAX_MSG_LEN ->
  rx (rtt e) = (wire (op_ord op) v ++ extra) :: rest -> (2 <= fuel)%nat ->
  exists e',
    msg_receive fuel e =
    Ret ({| r_err := LYS_ERROR_SUCCESS; r_op := op_ord op;
            r_param := Static |}, e') /\
    value_of e' (m_param e') = Some v /\
    rx (rtt e') = rest /\
    (rest = [] -> forall fuel', msg_receive fuel' e' = Diverge).
Proof.
  intros Hop Hok Hv Hlen Hrx Hfuel.
  pose proof (framed_wire (op_ord op) v Hv) as Hfr.
  unfold sendable in Hv. zbool.
  set (f := wire (op_ord op) v) in *.
  rewrite (msg_receive_one_chunk fuel e f extra rest) by done.
  destruct (msg_parse_param op v
              (set_rtt {| rx := rest; tx := tx (rtt e);
                          tx_room := tx_room (rtt e) |}
                 (holding (f ++ extra) e))
              (extra ++ drop (length (f ++ extra)) (m_buf e)))
    as (e1 & Hp & Hval & Hb1 & Hi1 & Hs1 & He1 & Hrtt1); auto.
  { unfold holding. eng_simpl. by rewrite <- app_assoc. }
  exists e1. repeat split; try done.
  - by rewrite Hrtt1.
  - intros -> fuel'. unfold msg_receive, bind, modify.
    rewrite read_loop_silent; [done| |done].
    eng_simpl. by rewrite Hrtt1.
Qed.

Lemma trailing_bytes_are_dropped_witness :
  let e := boot (host [[7; 5; 0; 42; 0; 0; 0; 2; 2]]) in
  exists e',
    msg_receive 2 e =
    Ret ({| r_err := LYS_ERROR_SUCCESS; r_op := 5; r_param := Static |},
         e') /\
    value_of e' (m_param e') = Some (V_scalar 0 [42; 0; 0; 0]) /\
    rx (rtt e') = [] /\
    (@nil (list Z) = [] -> forall fuel', msg_receive fuel' e' = Diverge).
Proof.
  apply (trailing_bytes_are_dropped 2
           (boot (host [[7; 5; 0; 42; 0; 0; 0; 2; 2]]))
           LYS_OP_PARAM (V_scalar 0 [42; 0; 0; 0]) [2; 2] []);
    [by left|reflexivity|reflexivity|vm_compute; discriminate|reflexivity|lia].
Defined.

(** ** Length bytes out of range *)

(** X12: a length byte below 2 is not refused.  A read that brings the
    single byte 0 or 1 completes a message, and [msg_parse] then
    dispatches on the op byte that the previous message left at offset 1
    of the scratch buffer. *)
Theorem short_length_reads_stale_op fuel e l rest :
  buf_ok e -> 0 <= l <= 1 -> rx (rtt e) = [l] :: rest -> (2 <= fuel)%nat ->
  msg_receive fuel e =
  msg_parse (set_rtt {| rx := rest; tx := tx (rtt e);
                        tx_room := tx_room (rtt e) |} (holding [l] e)) /\
  forall r e',
    msg_receive fuel e = Ret (r, e') ->
    r_op r = buf_get e LYS_OP_INDEX /\ rx (rtt e') = rest.
Proof.
  unfold buf_ok. consts. intros Hok Hl Hrx Hfuel.
  assert (Hr : msg_receive fuel e =
               msg_parse (set_rtt {| rx := rest; tx := tx (rtt e);
                                     tx_room := tx_room (rtt e) |}
                            (holding [l] e))).
  { destruct fuel as [|[|fuel]]; [lia..|].
    unfold msg_receive, bind, modify. cbn [read_loop].
    rewrite msg_complete_false by (left; by eng_simpl).
    unfold SEGGER_RTT_Read. eng_simpl. rewrite Hrx. consts.
    change (uint32 (64 - 0)) with 64. change (Z.to_nat 64) with 64%nat.
    cbn [take length Nat.leb]. eng_simpl. znat. rewrite take_0. cbn [app].
    change (uint8 (0 + Z.of_nat 1)) with 1.
    rewrite msg_complete_true; eng_simpl;
      [|done|unfold buf_get; eng_simpl; consts; znat; cbn; lia].
    by f_equal. }
  split; [done|]. rewrite Hr. intros r e'.
  set (e1 := set_rtt _ _).
  assert (Hop : buf_get e1 1 = buf_get e 1).
  { unfold buf_get, e1, holding. eng_simpl. znat.
    destruct (m_buf e) as [|b0 [|b1 buf]]; cbn in Hok; try lia. done. }
  intros Hp. pose proof Hp as Hq.
  apply quiet_msg_parse in Hq.
  unfold msg_parse in Hp. consts. rewrite Hop in Hp.
  assert (rtt e' = rtt e1 /\ r_op r = buf_get e 1) as [-> ->].
  { destruct (lys_op_of (buf_get e 1)) as [[]|];
      try (by injection Hp as <- <-);
      unfold param_parse in Hp; repeat case_match; simplify_eq; done. }
  done.
Qed.

Lemma short_length_reads_stale_op_witness :
  let e := holding [2; 6] (boot (host [[1]; [2; 2]])) in
  msg_receive 2 e =
  msg_parse (set_rtt {| rx := [[2; 2]]; tx := tx (rtt e);
                        tx_room := tx_room (rtt e) |} (holding [1] e)) /\
  forall r e',
    msg_receive 2 e = Ret (r, e') ->
    r_op r = buf_get e LYS_OP_INDEX /\ rx (rtt e') = [[2; 2]].
Proof.
  apply (short_length_reads_stale_op 2
           (holding [2; 6] (boot (host [[1]; [2; 2]]))) 1 [[2; 2]]);
    [reflexivity|lia|reflexivity|lia].
Defined.

(** X13: a length byte above [LYS_MAX_MSG_LEN] is not refused either.
    Once a read has brought such a byte as the first of a message,
    [msg_receive] never returns, whatever the host sends after it. *)
Theorem oversized_length_blocks_forever fuel e l c rest :
  buf_ok e -> LYS_MAX_MSG_LEN < l -> rx (rtt e) = (l :: c) :: rest ->
  msg_receive fuel e = Diverge.
Proof.
  unfold msg_receive, bind, modify. intros Hok Hl Hrx.
  destruct fuel as [|fuel]; [done|]. cbn [read_loop].
  rewrite msg_complete_false by (left; by eng_simpl).
  unfold SEGGER_RTT_Read. eng_simpl. rewrite Hrx.
  unfold buf_ok in *. consts. change (uint32 (64 - 0)) with 64.
  change (Z.to_nat 64) with 64%nat. cbn [take]. znat.
  rewrite take_0. cbn [app length].
  assert (Hn : (length (take 63 c) <= 63)%nat) by (rewrite length_take; lia).
  rewrite read_loop_oversized; [done|..]; unfold buf_ok; consts; eng_simpl.
  - cbn [length]. rewrite length_app, length_drop. lia.
  - rewrite uint8_small; lia.
  - unfold buf_get. by eng_simpl.
Qed.

Lemma oversized_length_blocks_forever_witness :
  msg_receive 1000 (boot (host [[65; 5; 0]; [1; 2; 3]; [2; 6]])) = Diverge.
Proof.
  apply (oversized_length_blocks_forever 1000 _ 65 [5; 0] [[1; 2; 3]; [2; 6]]);
    [reflexivity|reflexivity|reflexivity].
Defined.

(** ** A silent host *)

(** A write loop reads nothing: it returns with the receive side as it
    was, or runs on. *)
Lemma write_loop_keeps_rx fuel : forall src count bytes_written e,
  write_loop fuel src count bytes_written e = Diverge \/
  exists e',
    write_loop fuel src count bytes_written e = Ret (tt, e') /\
    rx (rtt e') = rx (rtt e).
Proof.
  induction fuel as [|fuel IH]; intros src count bw e; [by left|].
  cbn [write_loop]. destruct (bw <? count); [|right; by eexists].
  destruct (SEGGER_RTT_Write _ (rtt e)) as [n c] eqn:Hw.
  assert (rx c = rx (rtt e)) as Hrx.
  { unfold SEGGER_RTT_Write in Hw.
    destruct (tx_room (rtt e)); by injection Hw as _ <-. }
  destruct (IH src count (uint32 (bw + n)) (set_rtt c e))
    as [->|(e' & -> & Hrx')]; [by left|right].
  eexists. split; [done|]. by rewrite Hrx'.
Qed.

(** A pointer to [m_param] is a pointer like any other. *)
Lemma param_add_static e :
  param_add Static e = param_add (Own (m_param e)) e.
Proof. done. Qed.

Lemma msg_create_static op e :
  msg_create op Static e = msg_create op (Own (m_param e)) e.
Proof.
  unfold msg_create. mred. destruct (lys_op_of op) as [[]|]; try done;
    by rewrite param_add_static.
Qed.

(** What [lys_log_send] passes to [msg_send_and_ack]: the string as a
    parameter in [m_param]. *)
Lemma msg_create_log e bytes :
  buf_ok e -> sendable (V_string bytes) = true ->
  let s := {| len := Z.of_nat (length bytes); p_data := Mem bytes |} in
  let e0 := set_param {| param_type := type_ord LYS_PARAM_TYPE_STRING;
                         data := P_str (Own s) |} e in
  msg_create (op_ord LYS_OP_LOG) Static e0 =
  Ret (LYS_ERROR_SUCCESS,
       holding (wire (op_ord LYS_OP_LOG) (V_string bytes)) e0).
Proof.
  intros Hok Hv s e0. unfold sendable in Hv. zbool.
  rewrite msg_create_static.
  by apply (msg_create_param LYS_OP_LOG (V_string bytes) e0); auto.
Qed.

(** X14: [lys_log_send] blocks for as long as the host does not answer
    (lys.h: if the PC has closed its RTT session then this function will
    block indefinitely): called in a state that admits it with a string it
    can encode, and with nothing to read from the transport, it does not
    return. *)
Theorem lys_log_send_blocks_without_host fuel e bytes :
  buf_ok e ->
  m_state e <> LYS_STATE_WAIT_FOR_START -> m_state e <> LYS_STATE_RESULT ->
  sendable (V_string bytes) = true -> rx (rtt e) = [] ->
  lys_log_send fuel
    (Own {| len := Z.of_nat (length bytes); p_data := Mem bytes |}) e =
  Diverge.
Proof.
  intros Hok Hs1 Hs2 Hv Hrx.
  unfold lys_log_send. mred.
  rewrite !bool_decide_eq_false_2 by done. cbn [orb]. mred.
  unfold or_error, msg_send_and_ack. mred.
  rewrite msg_create_log by done.
  set (e1 := holding _ _).
  unfold msg_send.
  destruct (write_loop_keeps_rx fuel (m_buf e1) (m_buf_index e1) 0 e1)
    as [->|(e2 & -> & Hrx2)]; [done|].
  unfold wait_for_ack, msg_receive. mred.
  rewrite read_loop_silent; [done| |done].
  eng_simpl. by rewrite Hrx2.
Qed.

Lemma lys_log_send_blocks_without_host_witness :
  lys_log_send 1000 (Own {| len := 2; p_data := Mem [104; 105] |})
    (set_state LYS_STATE_RUNNING (boot idle)) = Diverge.
Proof.
  apply (lys_log_send_blocks_without_host 1000
           (set_state LYS_STATE_RUNNING (boot idle)) [104; 105]);
    [reflexivity|discriminate|discriminate|reflexivity|reflexivity].
Defined.

(** ** The state checks of the public operations *)

(** X15: an operation called in a state that does not admit it returns
    InvalidState at once and leaves the engine, the transport and what its
    out-parameters point to exactly as they were: [lys_param_wait] and
    [lys_params_receive] unless the state is WAIT_FOR_START or the engine
    is fresh; [lys_param_send], [lys_finish] and [lys_results_send]
    outside RUNNING and RESULT; [lys_log_send] in WAIT_FOR_START and
    RESULT.  After a fatal error this refuses the first five until
    [lys_init] is called. *)
Theorem refused_calls_leave_engine fuel e :
  (~ may_wait e ->
   (forall p ps,
      lys_param_wait fuel p ps e =
      Ret ({| w_err := LYS_ERROR_INVALID_STATE; w_param := p;
              w_param_set := ps |}, e)) /\
   (forall p_params,
      lys_params_receive fuel p_params e =
      Ret ((LYS_ERROR_INVALID_STATE, p_params), e))) /\
  (m_state e <> LYS_STATE_RUNNING -> m_state e <> LYS_STATE_RESULT ->
   (forall p, lys_param_send fuel p e = Ret (LYS_ERROR_INVALID_STATE, e)) /\
   lys_finish fuel e = Ret (LYS_ERROR_INVALID_STATE, e) /\
   (forall params,
      lys_results_send fuel params e = Ret (LYS_ERROR_INVALID_STATE, e))) /\
  (m_state e = LYS_STATE_WAIT_FOR_START \/ m_state e = LYS_STATE_RESULT ->
   forall p_str, lys_log_send fuel p_str e = Ret (LYS_ERROR_INVALID_STATE, e)) /\
  (fatal e ->
   ~ may_wait e /\ m_state e <> LYS_STATE_RUNNING /\
   m_state e <> LYS_STATE_RESULT).
Proof.
  split; [|split; [|split]].
  - unfold may_wait. intros Hw.
    assert (Hwait : forall p ps,
              lys_param_wait fuel p ps e =
              Ret ({| w_err := LYS_ERROR_INVALID_STATE; w_param := p;
                      w_param_set := ps |}, e)).
    { intros p ps. unfold lys_param_wait. mred.
      destruct (bool_decide (LYS_STATE_UNKNOWN = m_state e) &&
                negb (m_error e)) eqn:Hinit.
      { apply andb_true_iff in Hinit
          as [Hst%bool_decide_eq_true Her%negb_true_iff].
        exfalso. apply Hw. right. by split. }
      rewrite bool_decide_eq_false_2 by (intros Hst; auto). done. }
    split; [done|].
    intros [|p rest]; unfold lys_params_receive.
    + cbn [params_receive_loop]. mred. cbn [fst snd]. by rewrite Hwait.
    + assert (Hloop : params_receive_loop fuel (p :: rest) e =
                      Ret ((LYS_ERROR_INVALID_STATE, p :: rest), e)).
      { cbn [params_receive_loop]. mred. by rewrite Hwait. }
      mred. by rewrite Hloop.
  - intros H1 H2.
    assert (Hsend : forall p,
              lys_param_send fuel p e = Ret (LYS_ERROR_INVALID_STATE, e)).
    { intros p. unfold lys_param_send, result_open. mred.
      by rewrite !bool_decide_eq_false_2 by done. }
    assert (Hfin : lys_finish fuel e = Ret (LYS_ERROR_INVALID_STATE, e)).
    { unfold lys_finish, result_open. mred.
      by rewrite !bool_decide_eq_false_2 by done. }
    repeat split; [done..|].
    intros [|p params]; cbn [lys_results_send]; [done|]. mred.
    by rewrite Hsend.
  - intros Hs p_str. unfold lys_log_send. mred.
    by destruct Hs as [Hs|Hs]; rewrite Hs.
  - unfold fatal, may_wait. intros [He Hs]. rewrite Hs, He.
    repeat split; try done. intros [?|[_ ?]]; done.
Qed.

Lemma refused_calls_leave_engine_witness :
  let e := set_error true (boot (host [[2; 6]; [2; 2]])) in
  lys_param_wait 5 Null false e =
  Ret ({| w_err := LYS_ERROR_INVALID_STATE; w_param := Null;
          w_param_set := false |}, e) /\
  lys_params_receive 5 [uint32_param 0 0 0 0] e =
  Ret ((LYS_ERROR_INVALID_STATE, [uint32_param 0 0 0 0]), e) /\
  lys_finish 5 e = Ret (LYS_ERROR_INVALID_STATE, e).
Proof.
  pose (e := set_error true (boot (host [[2; 6]; [2; 2]]))).
  destruct (refused_calls_leave_engine 5 e) as (Hw & Hs & _ & Hf).
  destruct (Hf ltac:(by split)) as (Hnw & Hn1 & Hn2).
  destruct (Hw Hnw) as [Hw1 Hw2]. destruct (Hs Hn1 Hn2) as (_ & Hs2 & _).
  split; [apply Hw1|split; [apply Hw2|apply Hs2]].
Defined.

(** ** Logging *)

(** X16: in every state other than WAIT_FOR_START and RESULT, the fresh
    and the failed engine included, [lys_log_send] sends a string of 1
    to 61 bytes as one LOG frame and, once the host has ACKed it, returns
    success with the session state and the sticky error flag as they
    were; no INIT handshake is needed before. *)
Theorem lys_log_send_sends_string fuel e bytes cs rest :
  buf_ok e ->
  m_state e <> LYS_STATE_WAIT_FOR_START -> m_state e <> LYS_STATE_RESULT ->
  sendable (V_string bytes) = true ->
  delivers cs (simple_frame LYS_OP_ACK) = true ->
  rx (rtt e) = cs ++ rest -> (pending e + 2 <= fuel)%nat ->
  exists e',
    lys_log_send fuel
      (Own {| len := Z.of_nat (length bytes); p_data := Mem bytes |}) e =
    Ret (LYS_ERROR_SUCCESS, e') /\
    tx (rtt e') = tx (rtt e) ++ wire (op_ord LYS_OP_LOG) (V_string bytes) /\
    rx (rtt e') = rest /\ session e' = session e.
Proof.
  intros Hok Hs1 Hs2 Hv Hd Hrx Hfuel.
  set (e0 := set_param
               {| param_type := type_ord LYS_PARAM_TYPE_STRING;
                  data := P_str (Own {| len := Z.of_nat (length bytes);
                                        p_data := Mem bytes |}) |} e).
  destruct (msg_send_and_ack_spec fuel LYS_OP_LOG Static e0 _ cs rest Hok
              (msg_create_log e bytes Hok Hv) Hd Hrx Hfuel)
    as (e1 & Hsa & Hio & Hrx1 & Hs').
  rewrite frame_holding in Hio.
  exists e1. split.
  { unfold lys_log_send. mred.
    rewrite !bool_decide_eq_false_2 by done. cbn [orb]. mred.
    unfold or_error. mred. fold e0. by rewrite Hsa. }
  destruct Hio as (_ & _ & Htx & _ & Her).
  unfold session. by rewrite Hs', Her.
Qed.

Lemma lys_log_send_sends_string_witness :
  let e := set_error true (boot (host [[2]; []; [6]])) in
  exists e',
    lys_log_send 5 (Own {| len := 2; p_data := Mem [104; 105] |}) e =
    Ret (LYS_ERROR_SUCCESS, e') /\
    tx (rtt e') = tx (rtt e) ++ [5; 7; 5; 104; 105] /\
    rx (rtt e') = [] /\ session e' = session e.
Proof.
  apply (lys_log_send_sends_string 5
           (set_error true (boot (host [[2]; []; [6]])))
           [104; 105] [[2]; []; [6]] []);
    [reflexivity|discriminate|discriminate|reflexivity|reflexivity|
     reflexivity|vm_compute; lia].
Defined.

(** ** The handshake *)

(** X17: the first call of [lys_param_wait] on a fresh engine opens the
    session: it sends INIT, takes the host's ACK, then receives the next
    frame and ACKs it.  For a PARAM frame it hands back a parameter that
    reads as the value sent, with [*p_param_set] true and the state
    WAIT_FOR_START; for START it sets [*p_param_set] false and moves to
    RUNNING.  On the transport it has written INIT and ACK, nothing
    else. *)
Theorem lys_param_wait_first_call fuel e acs cs rest p ps :
  buf_ok e -> m_state e = LYS_STATE_UNKNOWN -> m_error e = false ->
  delivers acs (simple_frame LYS_OP_ACK) = true ->
  rx (rtt e) = acs ++ cs ++ rest -> (pending e + 2 <= fuel)%nat ->
  (forall v,
     sendable v = true -> delivers cs (wire (op_ord LYS_OP_PARAM) v) = true ->
     exists e',
       lys_param_wait fuel p ps e =
       Ret ({| w_err := LYS_ERROR_SUCCESS; w_param := Static;
               w_param_set := true |}, e') /\
       value_of e' (m_param e') = Some v /\
       tx (rtt e') = tx (rtt e) ++ simple_frame LYS_OP_INIT ++ m_ack_buf /\
       rx (rtt e') = rest /\
       m_state e' = LYS_STATE_WAIT_FOR_START /\ m_error e' = false) /\
  (delivers cs (simple_frame LYS_OP_START) = true ->
   exists e',
     lys_param_wait fuel p ps e =
     Ret ({| w_err := LYS_ERROR_SUCCESS; w_param := Null;
             w_param_set := false |}, e') /\
     tx (rtt e') = tx (rtt e) ++ simple_frame LYS_OP_INIT ++ m_ack_buf /\
     rx (rtt e') = rest /\
     m_state e' = LYS_STATE_RUNNING /\ m_error e' = false).
Proof.
  intros Hok Hst Her Hda Hrx Hfuel.
  destruct (lys_param_wait_init fuel e acs (cs ++ rest) Hok Hst Her Hda Hrx
              Hfuel) as (e1 & Heq & Hio1 & Hrx1 & Hs1).
  pose proof (io_pending _ _ _ _ Hio1) as Hp1.
  destruct Hio1 as (Hok1 & _ & Htx1 & _ & Her1).
  rewrite Heq. split.
  - intros v Hv Hd.
    destruct (lys_param_wait_param fuel e1 cs rest v p ps)
      as (e' & -> & Hio & Hrx' & Hs' & Hval); try done; [lia|].
    destruct Hio as (_ & _ & Htx & _ & Her').
    exists e'. repeat split; try done; [|congruence].
    by rewrite Htx, Htx1, <- app_assoc.
  - intros Hd.
    destruct (lys_param_wait_start fuel e1 cs rest p ps)
      as (e' & -> & Hio & Hrx' & Hs'); try done; [lia|].
    destruct Hio as (_ & _ & Htx & _ & Her').
    exists e'. repeat split; try done; [|congruence].
    by rewrite Htx, Htx1, <- app_assoc.
Qed.

Lemma lys_param_wait_first_call_witness :
  let e := boot (host [[2]; [6]; [4; 5; 2]; [7]; [2; 2]]) in
  exists e',
    lys_param_wait 7 Null false e =
    Ret ({| w_err := LYS_ERROR_SUCCESS; w_param := Static;
            w_param_set := true |}, e') /\
    value_of e' (m_param e') = Some (V_scalar 2 [7]) /\
    tx (rtt e') = tx (rtt e) ++ [2; 1] ++ [2; 6] /\
    rx (rtt e') = [[2; 2]] /\
    m_state e' = LYS_STATE_WAIT_FOR_START /\ m_error e' = false.
Proof.
  destruct (lys_param_wait_first_call 7
              (boot (host [[2]; [6]; [4; 5; 2]; [7]; [2; 2]]))
              [[2]; [6]] [[4; 5; 2]; [7]] [[2; 2]] Null false)
    as [H _];
    [reflexivity|reflexivity|reflexivity|reflexivity|reflexivity|
     vm_compute; lia|].
  apply (H (V_scalar 2 [7])); reflexivity.
Defined.

(** ** Frames the engine does not expect *)

(** X18: while the engine waits for parameters, every frame that decodes
    is ACKed before its op is looked at.  An op other than PARAM and START
    (an op without parameter, or a LOG frame) is therefore ACKed first
    and then fatal: [lys_param_wait] returns InvalidState with
    [*p_param_set] false, the sticky error flag set and the state
    UNKNOWN. *)
Theorem unexpected_op_is_acked_then_fatal fuel e cs rest p ps :
  buf_ok e -> m_state e = LYS_STATE_WAIT_FOR_START ->
  rx (rtt e) = cs ++ rest -> (pending e + 2 <= fuel)%nat ->
  (forall op,
     op <> LYS_OP_START -> op <> LYS_OP_PARAM -> op <> LYS_OP_LOG ->
     delivers cs (simple_frame op) = true ->
     exists e',
       lys_param_wait fuel p ps e =
       Ret ({| w_err := LYS_ERROR_INVALID_STATE; w_param := Null;
               w_param_set := false |}, e') /\
       tx (rtt e') = tx (rtt e) ++ m_ack_buf /\ rx (rtt e') = rest /\
       fatal e') /\
  (forall v,
     sendable v = true -> delivers cs (wire (op_ord LYS_OP_LOG) v) = true ->
     exists e',
       lys_param_wait fuel p ps e =
       Ret ({| w_err := LYS_ERROR_INVALID_STATE; w_param := Static;
               w_param_set := false |}, e') /\
       tx (rtt e') = tx (rtt e) ++ m_ack_buf /\ rx (rtt e') = rest /\
       fatal e').
Proof.
  intros Hok Hst Hrx Hfuel. split.
  - intros op H1 H2 H3 Hd.
    set (f := simple_frame op) in *.
    set (e1 := set_rtt {| rx := rest; tx := tx (rtt e);
                          tx_room := tx_room (rtt e) |} (holding f e)).
    assert (Hp : msg_parse e1 = Ret ({| r_err := LYS_ERROR_SUCCESS;
                   r_op := op_ord op; r_param := Null |}, e1))
      by (by apply (msg_parse_simple op e1 (drop (length f) (m_buf e)))).
    destruct (msg_receive_and_ack_spec fuel e cs rest f _ e1 Hok eq_refl Hd
                Hrx Hfuel Hp) as (room' & Hra & Hroom); [done..|].
    eexists. split.
    { unfold lys_param_wait. mred. rewrite Hst.
      rewrite bool_decide_eq_false_2 by done. cbn [andb]. mred. rewrite Hst.
      rewrite bool_decide_eq_true_2 by done.
      cbn [negb]. mred. rewrite Hra. unfold or_error. mred.
      cbn [r_err r_op r_param]. by destruct op. }
    unfold fatal. by eng_simpl.
  - intros v Hv Hd.
    pose proof (framed_wire (op_ord LYS_OP_LOG) v Hv) as Hfr.
    unfold sendable in Hv. zbool.
    set (f := wire (op_ord LYS_OP_LOG) v) in *.
    destruct (msg_parse_param LYS_OP_LOG v
                (set_rtt {| rx := rest; tx := tx (rtt e);
                            tx_room := tx_room (rtt e) |} (holding f e))
                (drop (length f) (m_buf e)))
      as (e1 & Hp & Hval & Hb1 & Hi1 & Hs1 & He1 & Hrtt1); auto.
    destruct (msg_receive_and_ack_spec fuel e cs rest f _ e1 Hok Hfr Hd Hrx
                Hfuel Hp) as (room' & Hra & Hroom); [done..|].
    eexists. split.
    { unfold lys_param_wait. mred. rewrite Hst.
      rewrite bool_decide_eq_false_2 by done. cbn [andb]. mred. rewrite Hst.
      rewrite bool_decide_eq_true_2 by done.
      cbn [negb]. mred. rewrite Hra. unfold or_error. mred.
      cbn [r_err r_op r_param lys_op_of op_ord]. reflexivity. }
    unfold fatal. by eng_simpl.
Qed.

Lemma unexpected_op_is_acked_then_fatal_witness :
  let e := set_state LYS_STATE_WAIT_FOR_START (boot (host [[2; 3]])) in
  exists e',
    lys_param_wait 3 Null true e =
    Ret ({| w_err := LYS_ERROR_INVALID_STATE; w_param := Null;
            w_param_set := false |}, e') /\
    tx (rtt e') = tx (rtt e) ++ m_ack_buf /\ rx (rtt e') = [] /\ fatal e'.
Proof.
  destruct (unexpected_op_is_acked_then_fatal 3
              (set_state LYS_STATE_WAIT_FOR_START (boot (host [[2; 3]])))
              [[2; 3]] [] Null true) as [H _];
    [reflexivity|reflexivity|reflexivity|vm_compute; lia|].
  apply (H LYS_OP_RESULT); [discriminate..|reflexivity].
Defined.

(** X19: a frame whose op byte is no op of the protocol is not ACKed:
    [lys_param_wait] returns InvalidParam with a null parameter and
    [*p_param_set] as it was, has written nothing to the transport, and
    the error is fatal. *)
Theorem undefined_op_is_fatal_without_ack fuel e z cs rest p ps :
  buf_ok e -> m_state e = LYS_STATE_WAIT_FOR_START ->
  lys_op_of z = None -> delivers cs [LYS_MSG_NO_PARAM_LEN; z] = true ->
  rx (rtt e) = cs ++ rest -> (pending e + 2 <= fuel)%nat ->
  exists e',
    lys_param_wait fuel p ps e =
    Ret ({| w_err := LYS_ERROR_INVALID_PARAM; w_param := Null;
            w_param_set := ps |}, e') /\
    tx (rtt e') = tx (rtt e) /\ rx (rtt e') = rest /\ fatal e'.
Proof.
  intros Hok Hst Hz Hd Hrx Hfuel.
  eexists. split.
  { unfold lys_param_wait. mred. rewrite Hst.
    rewrite bool_decide_eq_false_2 by done. cbn [andb]. mred. rewrite Hst.
    rewrite bool_decide_eq_true_2 by done.
    cbn [negb]. mred. unfold msg_receive_and_ack. mred.
    rewrite (msg_receive_delivers fuel e cs rest [LYS_MSG_NO_PARAM_LEN; z])
      by done.
    unfold msg_parse. unfold buf_get at 1. unfold holding at 1. eng_simpl.
    consts. znat. cbn [app lookup list_lookup default from_option id].
    rewrite Hz. cbn [r_err].
    unfold or_error. mred. cbn [r_err r_param]. reflexivity. }
  unfold fatal. by eng_simpl.
Qed.

Lemma undefined_op_is_fatal_without_ack_witness :
  let e := set_state LYS_STATE_WAIT_FOR_START (boot (host [[2]; [200]])) in
  exists e',
    lys_param_wait 4 Null true e =
    Ret ({| w_err := LYS_ERROR_INVALID_PARAM; w_param := Null;
            w_param_set := true |}, e') /\
    tx (rtt e') = tx (rtt e) /\ rx (rtt e') = [] /\ fatal e'.
Proof.
  apply (undefined_op_is_fatal_without_ack 4
           (set_state LYS_STATE_WAIT_FOR_START (boot (host [[2]; [200]])))
           200 [[2]; [200]] [] Null true);
    [reflexivity|reflexivity|reflexivity|reflexivity|reflexivity|
     vm_compute; lia].
Defined.

(** ** What the caller holds between calls *)

(** X20: the parameter [lys_param_wait] hands back lives in the engine:
    [*p_param] is the address of [m_param] and its data points into the
    scratch buffer.  Two calls in a row hand back the same pointer, and
    after the second call it reads as the second value: what the first
    call handed back is gone unless the caller has copied it. *)
Theorem received_param_is_overwritten fuel e v1 v2 cs1 cs2 rest p ps :
  buf_ok e -> m_state e = LYS_STATE_WAIT_FOR_START ->
  sendable v1 = true -> sendable v2 = true ->
  delivers cs1 (wire (op_ord LYS_OP_PARAM) v1) = true ->
  delivers cs2 (wire (op_ord LYS_OP_PARAM) v2) = true ->
  rx (rtt e) = cs1 ++ cs2 ++ rest -> (pending e + 2 <= fuel)%nat ->
  exists w1 e1 w2 e2,
    lys_param_wait fuel p ps e = Ret (w1, e1) /\
    lys_param_wait fuel p ps e1 = Ret (w2, e2) /\
    w_param w1 = Static /\ w_param w2 = Static /\
    deref e1 (w_param w1) ≫= value_of e1 = Some v1 /\
    deref e2 (w_param w1) ≫= value_of e2 = Some v2.
Proof.
  intros Hok Hst Hv1 Hv2 Hd1 Hd2 Hrx Hfuel.
  destruct (lys_param_wait_param fuel e cs1 (cs2 ++ rest) v1 p ps)
    as (e1 & Hw1 & Hio1 & Hrx1 & Hst1 & Hval1); try done.
  pose proof (io_pending _ _ _ _ Hio1) as Hp1.
  destruct (lys_param_wait_param fuel e1 cs2 rest v2 p ps)
    as (e2 & Hw2 & Hio2 & Hrx2 & Hst2 & Hval2); try done;
    [apply Hio1|lia|].
  eexists _, e1, _, e2. repeat split; try done.
Qed.

Lemma received_param_is_overwritten_witness :
  let e := set_state LYS_STATE_WAIT_FOR_START
             (boot (host [[4; 5; 2; 7]; [4; 5; 2; 9]])) in
  exists w1 e1 w2 e2,
    lys_param_wait 4 Null false e = Ret (w1, e1) /\
    lys_param_wait 4 Null false e1 = Ret (w2, e2) /\
    w_param w1 = Static /\ w_param w2 = Static /\
    deref e1 (w_param w1) ≫= value_of e1 = Some (V_scalar 2 [7]) /\
    deref e2 (w_param w1) ≫= value_of e2 = Some (V_scalar 2 [9]).
Proof.
  apply (received_param_is_overwritten 4
           (set_state LYS_STATE_WAIT_FOR_START
              (boot (host [[4; 5; 2; 7]; [4; 5; 2; 9]])))
           (V_scalar 2 [7]) (V_scalar 2 [9]) [[4; 5; 2; 7]] [[4; 5; 2; 9]] []
           Null false);
    [reflexivity|reflexivity|reflexivity|reflexivity|reflexivity|
     reflexivity|reflexivity|vm_compute; lia].
Defined.

(** ** Starting over *)

(** X21: [lys_init] may be called at any time (lys.h: can be called
    multiple times).  It does no I/O and leaves a fresh engine, also
    after a fatal error, and the next [lys_param_wait] opens a new
    session: it sends INIT again and, after the host's ACK, takes START
    and moves to RUNNING. *)
Theorem lys_init_reopens_session fuel e acs cs rest p ps :
  buf_ok e -> delivers acs (simple_frame LYS_OP_ACK) = true ->
  delivers cs (simple_frame LYS_OP_START) = true ->
  rx (rtt e) = acs ++ cs ++ rest -> (pending e + 2 <= fuel)%nat ->
  exists e0 e',
    lys_init e = Ret (tt, e0) /\
    rtt e0 = rtt e /\ m_buf e0 = m_buf e /\
    lys_state_get e0 = LYS_STATE_UNKNOWN /\ lys_has_error e0 = false /\
    lys_param_wait fuel p ps e0 =
    Ret ({| w_err := LYS_ERROR_SUCCESS; w_param := Null;
            w_param_set := false |}, e') /\
    tx (rtt e') = tx (rtt e) ++ simple_frame LYS_OP_INIT ++ m_ack_buf /\
    lys_state_get e' = LYS_STATE_RUNNING /\ lys_has_error e' = false.
Proof.
  intros Hok Hda Hd Hrx Hfuel.
  set (e0 := set_error false (set_state LYS_STATE_UNKNOWN
                                (set_buf_index 0 e))).
  destruct (lys_param_wait_init fuel e0 acs (cs ++ rest))
    as (e1 & Heq & Hio1 & Hrx1 & Hs1); try done.
  pose proof (io_pending _ _ _ _ Hio1) as Hp1.
  change (pending e0) with (pending e) in Hp1.
  destruct Hio1 as (Hok1 & _ & Htx1 & _ & Her1).
  destruct (lys_param_wait_start fuel e1 cs rest p ps)
    as (e' & Hw & Hio & Hrx' & Hs'); try done; [lia|].
  destruct Hio as (_ & _ & Htx & _ & Her').
  exists e0, e'. rewrite Heq, Hw. unfold lys_state_get, lys_has_error.
  repeat split; try done; [|by rewrite Her', Her1].
  by rewrite Htx, Htx1, <- app_assoc.
Qed.

Lemma lys_init_reopens_session_witness :
  let e := set_error true (boot (host [[2; 6]; [2; 2]])) in
  exists e0 e',
    lys_init e = Ret (tt, e0) /\
    rtt e0 = rtt e /\ m_buf e0 = m_buf e /\
    lys_state_get e0 = LYS_STATE_UNKNOWN /\ lys_has_error e0 = false /\
    lys_param_wait 4 Null false e0 =
    Ret ({| w_err := LYS_ERROR_SUCCESS; w_param := Null;
            w_param_set := false |}, e') /\
    tx (rtt e') = tx (rtt e) ++ simple_frame LYS_OP_INIT ++ m_ack_buf /\
    lys_state_get e' = LYS_STATE_RUNNING /\ lys_has_error e' = false.
Proof.
  apply (lys_init_reopens_session 4
           (set_error true (boot (host [[2; 6]; [2; 2]])))
           [[2; 6]] [[2; 2]] [] Null false);
    [reflexivity|reflexivity|reflexivity|reflexivity|vm_compute; lia].
Defined.

(** ** Replies *)

(** A frame goes out whole and the reply is an op other than ACK. *)
Lemma msg_send_and_ack_other fuel op p e e1 reply cs rest :
  buf_ok e ->
  msg_create (op_ord op) p e = Ret (LYS_ERROR_SUCCESS, e1) ->
  reply <> LYS_OP_ACK -> reply <> LYS_OP_PARAM -> reply <> LYS_OP_LOG ->
  delivers cs (simple_frame reply) = true ->
  rx (rtt e) = cs ++ rest -> (pending e + 2 <= fuel)%nat ->
  exists e',
    msg_send_and_ack fuel op p e = Ret (LYS_ERROR_INVALID_STATE, e') /\
    io e e' cs (frame e1) /\ rx (rtt e') = rest /\ m_state e' = m_state e.
Proof.
  intros Hok Hc Hr1 Hr2 Hr3 Hd Hrx Hfuel.
  destruct (msg_create_spec _ _ _ _ _ Hc Hok)
    as (Hok1 & Hrtt & Hst & Her & [(_ & Hi & _)|?]); [|done].
  unfold msg_send_and_ack, bind. rewrite Hc.
  destruct (msg_send_spec fuel e1) as (room' & -> & Hr);
    [done|lia|unfold pending in *; by rewrite Hrtt|].
  unfold wait_for_ack, bind.
  erewrite (msg_receive_delivers fuel _ cs rest (simple_frame reply));
    eng_simpl; cbn [rx tx tx_room]; try done.
  2:{ by rewrite Hrtt. }
  2:{ unfold pending in *. eng_simpl. cbn [rx tx tx_room].
      rewrite Hrtt in *. lia. }
  erewrite (msg_parse_simple reply) by done.
  cbn [r_err r_op].
  replace (op_ord LYS_OP_ACK =? op_ord reply) with false
    by (by destruct reply).
  cbn [negb]. unfold ret.
  eexists. split; [done|]. unfold io. eng_simpl. cbn [rx tx tx_room].
  rewrite Hrtt in *. repeat split; try done.
  apply holding_buf_ok; [done|cbn; lia].
Qed.

(** X22: when the host answers a frame with an op other than ACK, the
    frame has gone out but the operation fails: [lys_finish] and
    [lys_param_send], called in state RESULT, return InvalidState with
    the sticky error flag set and the state UNKNOWN. *)
Theorem reply_other_than_ack_is_fatal fuel e reply cs rest :
  buf_ok e -> m_state e = LYS_STATE_RESULT ->
  reply <> LYS_OP_ACK -> reply <> LYS_OP_PARAM -> reply <> LYS_OP_LOG ->
  delivers cs (simple_frame reply) = true ->
  rx (rtt e) = cs ++ rest -> (pending e + 2 <= fuel)%nat ->
  (exists e',
     lys_finish fuel e = Ret (LYS_ERROR_INVALID_STATE, e') /\
     tx (rtt e') = tx (rtt e) ++ simple_frame LYS_OP_FINISHED /\
     rx (rtt e') = rest /\ fatal e') /\
  (forall v, sendable v = true ->
     exists e',
       lys_param_send fuel (Own (param_of v)) e =
       Ret (LYS_ERROR_INVALID_STATE, e') /\
       tx (rtt e') = tx (rtt e) ++ wire (op_ord LYS_OP_PARAM) v /\
       rx (rtt e') = rest /\ fatal e').
Proof.
  intros Hok Hst Hr1 Hr2 Hr3 Hd Hrx Hfuel. split.
  - destruct (msg_send_and_ack_other fuel LYS_OP_FINISHED Null e _ reply cs
                rest Hok
                (msg_create_simple LYS_OP_FINISHED Null e ltac:(done)
                   ltac:(done) Hok) Hr1 Hr2 Hr3 Hd Hrx Hfuel)
      as (e1 & Hsa & Hio & Hrx1 & Hs1).
    rewrite frame_holding in Hio. destruct Hio as (_ & _ & Htx & _).
    eexists. split.
    { unfold lys_finish, result_open. mred. rewrite Hst.
      rewrite bool_decide_eq_false_2 by done. mred. rewrite Hst.
      rewrite bool_decide_eq_true_2 by done. cbn [negb]. unfold or_error.
      mred. rewrite Hsa. reflexivity. }
    unfold fatal. by eng_simpl.
  - intros v Hv. unfold sendable in Hv. zbool.
    destruct (msg_send_and_ack_other fuel LYS_OP_PARAM (Own (param_of v)) e
                _ reply cs rest Hok
                (msg_create_param LYS_OP_PARAM v e ltac:(auto) Hok
                   ltac:(done) ltac:(done)) Hr1 Hr2 Hr3 Hd Hrx Hfuel)
      as (e1 & Hsa & Hio & Hrx1 & Hs1).
    rewrite frame_holding in Hio. destruct Hio as (_ & _ & Htx & _).
    eexists. split.
    { unfold lys_param_send, result_open. mred. rewrite Hst.
      rewrite bool_decide_eq_false_2 by done. mred. rewrite Hst.
      rewrite bool_decide_eq_true_2 by done. cbn [negb]. unfold or_error.
      mred. rewrite Hsa. reflexivity. }
    unfold fatal. by eng_simpl.
Qed.

Lemma reply_other_than_ack_is_fatal_witness :
  let e := set_state LYS_STATE_RESULT (boot (host [[2]; [2]])) in
  exists e',
    lys_finish 4 e = Ret (LYS_ERROR_INVALID_STATE, e') /\
    tx (rtt e') = tx (rtt e) ++ simple_frame LYS_OP_FINISHED /\
    rx (rtt e') = [] /\ fatal e'.
Proof.
  apply (reply_other_than_ack_is_fatal 4
           (set_state LYS_STATE_RESULT (boot (host [[2]; [2]])))
           LYS_OP_START [[2]; [2]] []);
    [reflexivity|reflexivity|discriminate|discriminate|discriminate|
     reflexivity|reflexivity|vm_compute; lia].
Defined.

(** ** Reporting an error *)

(** X23: [lys_error_send] works in every state: it writes the frame
    [02][00] (op UNKNOWN) and, when the host ACKs it, returns success;
    the sticky error flag is set and the state is UNKNOWN all the same,
    so that the session stays closed until [lys_init]. *)
Theorem lys_error_send_reports fuel e cs rest :
  buf_ok e -> delivers cs (simple_frame LYS_OP_ACK) = true ->
  rx (rtt e) = cs ++ rest -> (pending e + 2 <= fuel)%nat ->
  exists e',
    lys_error_send fuel e = Ret (LYS_ERROR_SUCCESS, e') /\
    tx (rtt e') = tx (rtt e) ++ [2; 0] /\ rx (rtt e') = rest /\
    fatal e' /\ ~ may_wait e'.
Proof.
  intros Hok Hd Hrx Hfuel.
  set (e0 := set_state LYS_STATE_UNKNOWN (set_error true e)).
  destruct (msg_send_and_ack_spec fuel LYS_OP_UNKNOWN Null e0 _ cs rest Hok
              (msg_create_simple LYS_OP_UNKNOWN Null e0 ltac:(done)
                 ltac:(done) Hok) Hd Hrx Hfuel)
    as (e1 & Hsa & Hio & Hrx1 & Hs1).
  rewrite frame_holding in Hio. destruct Hio as (_ & _ & Htx & _ & Her).
  exists e1. split.
  { unfold lys_error_send. mred. fold e0.
    unfold msg_send_and_ack in Hsa. by mred_in Hsa. }
  unfold fatal, may_wait. rewrite Hs1, Her. repeat split; try done.
  intros [?|[_ ?]]; done.
Qed.

Lemma lys_error_send_reports_witness :
  let e := set_state LYS_STATE_RUNNING (boot (host [[2; 6]])) in
  exists e',
    lys_error_send 3 e = Ret (LYS_ERROR_SUCCESS, e') /\
    tx (rtt e') = tx (rtt e) ++ [2; 0] /\ rx (rtt e') = [] /\
    fatal e' /\ ~ may_wait e'.
Proof.
  apply (lys_error_send_reports 3
           (set_state LYS_STATE_RUNNING (boot (host [[2; 6]]))) [[2; 6]] []);
    [reflexivity|reflexivity|reflexivity|vm_compute; lia].
Defined.

(** ** Sending results *)

(** In state RUNNING, [result_open] sends RESULT and moves to state
    RESULT. *)
Lemma result_open_spec fuel e cs rest :
  buf_ok e -> m_state e = LYS_STATE_RUNNING ->
  delivers cs (simple_frame LYS_OP_ACK) = true ->
  rx (rtt e) = cs ++ rest -> (pending e + 2 <= fuel)%nat ->
  exists e',
    result_open fuel e = Ret (LYS_ERROR_SUCCESS, e') /\
    io e e' cs (simple_frame LYS_OP_RESULT) /\ rx (rtt e') = rest /\
    m_state e' = LYS_STATE_RESULT.
Proof.
  intros Hok Hst Hd Hrx Hfuel.
  destruct (msg_send_and_ack_spec fuel LYS_OP_RESULT Null e _ cs rest Hok
              (msg_create_simple LYS_OP_RESULT Null e ltac:(done) ltac:(done)
                 Hok) Hd Hrx Hfuel) as (e1 & Hsa & Hio & Hrx1 & Hs1).
  rewrite frame_holding in Hio.
  eexists. split.
  { unfold result_open. mred. rewrite Hst.
    rewrite bool_decide_eq_true_2 by done. unfold or_error. mred.
    rewrite Hsa. reflexivity. }
  unfold io in *. by eng_simpl.
Qed.

Lemma result_open_idle fuel e :
  m_state e = LYS_STATE_RESULT ->
  result_open fuel e = Ret (LYS_ERROR_SUCCESS, e).
Proof.
  intros Hst. unfold result_open. mred. rewrite Hst.
  by rewrite bool_decide_eq_false_2 by done.
Qed.

(** In state RESULT, [lys_results_send] sends each value and FINISHED. *)
Lemma lys_results_send_spec fuel vs : forall acss e final rest,
  buf_ok e -> m_state e = LYS_STATE_RESULT ->
  Forall (fun v => sendable v = true) vs ->
  Forall2 (fun cs (_ : value) =>
             delivers cs (simple_frame LYS_OP_ACK) = true) acss vs ->
  delivers final (simple_frame LYS_OP_ACK) = true ->
  rx (rtt e) = concat acss ++ final ++ rest -> (pending e + 2 <= fuel)%nat ->
  exists e',
    lys_results_send fuel (map param_of vs) e = Ret (LYS_ERROR_SUCCESS, e') /\
    io e e' (concat acss ++ final)
       (concat (map (wire (op_ord LYS_OP_PARAM)) vs) ++
        simple_frame LYS_OP_FINISHED) /\
    rx (rtt e') = rest /\ m_state e' = LYS_STATE_RESULT.
Proof.
  induction vs as [|v vs IH]; intros acss e final rest Hok Hst Hvs Hacs Hfin
    Hrx Hfuel.
  - apply Forall2_nil_inv_r in Hacs as ->. cbn [concat app] in *.
    cbn [map lys_results_send].
    by apply lys_finish_spec.
  - apply Forall2_cons_inv_r in Hacs as (cs & acss' & Hcs & Hacs & ->).
    apply Forall_cons in Hvs as [Hv Hvs].
    cbn [concat] in Hrx. rewrite <- app_assoc in Hrx.
    destruct (lys_param_send_spec fuel e v cs (concat acss' ++ final ++ rest))
      as (e1 & Hs1 & Hio1 & Hrx1 & Hst1); try done.
    pose proof (io_pending _ _ _ _ Hio1) as Hp1.
    destruct (IH acss' e1 final rest) as (e' & Hs' & Hio' & Hrx' & Hst');
      try done; [by destruct Hio1|lia|].
    exists e'. split.
    { cbn [map lys_results_send]. mred. by rewrite Hs1. }
    split; [|done].
    pose proof (io_trans _ _ _ _ _ _ _ Hio1 Hio') as Hio.
    cbn [concat map]. by rewrite <- !app_assoc in *.
Qed.

(** In state RUNNING, RESULT goes first. *)
Lemma lys_results_send_running fuel e vs opening acss final rest :
  buf_ok e -> m_state e = LYS_STATE_RUNNING ->
  Forall (fun v => sendable v = true) vs ->
  delivers opening (simple_frame LYS_OP_ACK) = true ->
  Forall2 (fun cs (_ : value) =>
             delivers cs (simple_frame LYS_OP_ACK) = true) acss vs ->
  delivers final (simple_frame LYS_OP_ACK) = true ->
  rx (rtt e) = opening ++ concat acss ++ final ++ rest ->
  (pending e + 2 <= fuel)%nat ->
  exists e',
    lys_results_send fuel (map param_of vs) e = Ret (LYS_ERROR_SUCCESS, e') /\
    io e e' (opening ++ concat acss ++ final)
       (simple_frame LYS_OP_RESULT ++
        concat (map (wire (op_ord LYS_OP_PARAM)) vs) ++
        simple_frame LYS_OP_FINISHED) /\
    rx (rtt e') = rest /\ m_state e' = LYS_STATE_RESULT.
Proof.
  intros Hok Hst Hvs Hop Hacs Hfin Hrx Hfuel.
  destruct (result_open_spec fuel e opening (concat acss ++ final ++ rest))
    as (e1 & Ho & Hio1 & Hrx1 & Hst1); try done.
  pose proof (io_pending _ _ _ _ Hio1) as Hp1.
  destruct (lys_results_send_spec fuel vs acss e1 final rest)
    as (e' & Hs & Hio' & Hrx' & Hst'); try done;
    [by destruct Hio1|lia|].
  assert (Heq : lys_results_send fuel (map param_of vs) e =
                lys_results_send fuel (map param_of vs) e1).
  { destruct vs as [|v vs]; cbn [map lys_results_send].
    - unfold lys_finish. mred. rewrite Ho, (result_open_idle fuel e1) by done.
      done.
    - mred. unfold lys_param_send. mred.
      rewrite Ho, (result_open_idle fuel e1) by done. done. }
  exists e'. rewrite Heq. split; [done|]. split; [|done].
  by eapply io_trans.
Qed.

(** X24: [lys_results_send], called in state RUNNING with values that
    can each be encoded, writes RESULT, one PARAM frame for each value in
    the order of the list, and FINISHED, taking one ACK of the host after
    each frame; it returns success in state RESULT. *)
Theorem lys_results_send_sequence fuel e vs opening acss final rest :
  buf_ok e -> m_state e = LYS_STATE_RUNNING ->
  Forall (fun v => sendable v = true) vs ->
  delivers opening (simple_frame LYS_OP_ACK) = true ->
  Forall2 (fun cs (_ : value) =>
             delivers cs (simple_frame LYS_OP_ACK) = true) acss vs ->
  delivers final (simple_frame LYS_OP_ACK) = true ->
  rx (rtt e) = opening ++ concat acss ++ final ++ rest ->
  (pending e + 2 <= fuel)%nat ->
  exists e',
    lys_results_send fuel (map param_of vs) e = Ret (LYS_ERROR_SUCCESS, e') /\
    tx (rtt e') =
    tx (rtt e) ++ simple_frame LYS_OP_RESULT ++
    concat (map (wire (op_ord LYS_OP_PARAM)) vs) ++
    simple_frame LYS_OP_FINISHED /\
    rx (rtt e') = rest /\
    m_state e' = LYS_STATE_RESULT /\ m_error e' = m_error e.
Proof.
  intros Hok Hst Hvs Hop Hacs Hfin Hrx Hfuel.
  destruct (lys_results_send_running fuel e vs opening acss final rest)
    as (e' & Hs & Hio & Hrx' & Hst'); try done.
  destruct Hio as (_ & _ & Htx & _ & Her).
  by exists e'.
Qed.

Lemma lys_results_send_sequence_witness :
  let e := set_state LYS_STATE_RUNNING
             (boot (host [[2; 6]; [2]; [6]; [2; 6]; [2; 6]])) in
  exists e',
    lys_results_send 7
      (map param_of [V_scalar 0 [1; 0; 0; 0]; V_string [111; 107]]) e =
    Ret (LYS_ERROR_SUCCESS, e') /\
    tx (rtt e') =
    [2; 3; 7; 5; 0; 1; 0; 0; 0; 5; 5; 5; 111; 107; 2; 4] /\
    rx (rtt e') = [] /\
    m_state e' = LYS_STATE_RESULT /\ m_error e' = m_error e.
Proof.
  apply (lys_results_send_sequence 7
           (set_state LYS_STATE_RUNNING
              (boot (host [[2; 6]; [2]; [6]; [2; 6]; [2; 6]])))
           [V_scalar 0 [1; 0; 0; 0]; V_string [111; 107]]
           [[2; 6]] [[[2]; [6]]; [[2; 6]]] [[2; 6]] []);
    [reflexivity|reflexivity|by repeat constructor|reflexivity|
     by repeat constructor|reflexivity|reflexivity|vm_compute; lia].
Defined.

(** ** Copying received data to the caller *)

(** [str_copy] and [array_copy] copy as many bytes as were received,
    whatever the size of the storage they copy to. *)
Lemma param_store_overrun e q :
  (forall bytes n old,
     sendable (V_string bytes) = true ->
     value_of e q = Some (V_string bytes) ->
     (length old < length bytes)%nat ->
     param_store e
       {| param_type := type_ord LYS_PARAM_TYPE_STRING;
          data := P_str (Own {| len := n; p_data := Mem old |}) |} q =
     Undefined) /\
  (forall t count bytes t0 n old,
     sendable (V_array t count bytes) = true ->
     value_of e q = Some (V_array t count bytes) ->
     (length old < length bytes)%nat ->
     param_store e
       {| param_type := type_ord LYS_PARAM_TYPE_ARRAY;
          data := P_array (Own {| array_param_type := t0; item_count := n;
                                  array_data := Mem old |}) |} q =
     Undefined).
Proof.
  unfold sendable, value_of, param_store. split.
  - intros bs n old Hv Hq Hlt. zbool. cbn in H, H0. zbool.
    destruct (lys_param_type_of (param_type q)) as [tq|] eqn:Htq; [|done].
    assert (tq = LYS_PARAM_TYPE_STRING) as ->
      by (destruct tq; by simplify_option_eq).
    cbn [param_type data lys_param_type_of type_ord data_p_str].
    destruct (data_p_str (data q)) as [rq|] eqn:Hrq; [|done]. cbn in Hq.
    unfold str_copy.
    destruct (deref e rq) as [s|] eqn:Hs; [|done]. cbn in Hq.
    destruct (load e (p_data s) (len s)) as [bytes|] eqn:Hl; [|done].
    cbn in Hq. injection Hq as ->.
    apply load_length in Hl as Hlen. destruct Hlen as [_ Hlen].
    consts. rewrite Z.gtb_ltb.
    rewrite (proj2 (Z.ltb_ge _ _)), (proj2 (Z.eqb_neq 0 _)) by lia.
    cbn [orb p_data]. unfold memcpy_to_mem. rewrite Hl.
    by rewrite (proj2 (Z.leb_gt _ _)) by lia.
  - intros t count bs t0 n old Hv Hq Hlt. zbool. cbn in H, H0. zbool.
    destruct (lys_param_type_of (param_type q)) as [tq|] eqn:Htq; [|done].
    assert (tq = LYS_PARAM_TYPE_ARRAY) as ->
      by (destruct tq; by simplify_option_eq).
    cbn [param_type data lys_param_type_of type_ord data_p_array].
    destruct (data_p_array (data q)) as [rq|] eqn:Hrq; [|done]. cbn in Hq.
    unfold array_copy.
    destruct (deref e rq) as [a|] eqn:Hs; [|done]. cbn in Hq.
    destruct (load e (array_data a) _) as [bytes|] eqn:Hl; [|done].
    cbn in Hq. injection Hq as Ht Hn Hb. subst bytes.
    rewrite Ht, Hn in *.
    apply load_length in Hl as Hlen. destruct Hlen as [_ Hlen].
    match goal with H : is_scalar t = true |- _ =>
      apply is_scalar_cases in H as Hsc end.
    assert (lys_param_len_lookup t = Ok (size_of t) /\ size_of t <> 0)
      as [Hlk Hnz] by (destruct Hsc as [->|[->|[->|[->| ->]]]]; done).
    pose proof (size_of_range t).
    rewrite Hlk. consts. rewrite (proj2 (Z.eqb_neq 0 _)) by lia. cbn [orb].
    rewrite uint32_small by lia. rewrite Z.gtb_ltb.
    rewrite (proj2 (Z.ltb_ge _ _)) by lia.
    cbn [array_data]. unfold memcpy_to_mem. rewrite Hl.
    by rewrite (proj2 (Z.leb_gt _ _)) by lia.
Qed.

(** X25: [lys_params_receive] never checks the size of the storage an
    expected entry points to.  When the host sends a string, or an array,
    with more bytes than the storage of the entry that expects it, the
    copy runs past the end of that storage: the behaviour is undefined. *)
Theorem received_data_overruns_small_storage fuel e rest_params cs rest :
  buf_ok e -> m_state e = LYS_STATE_WAIT_FOR_START ->
  rx (rtt e) = cs ++ rest -> (pending e + 2 <= fuel)%nat ->
  (forall bytes n old,
     sendable (V_string bytes) = true ->
     delivers cs (wire (op_ord LYS_OP_PARAM) (V_string bytes)) = true ->
     (length old < length bytes)%nat ->
     lys_params_receive fuel
       ({| param_type := type_ord LYS_PARAM_TYPE_STRING;
           data := P_str (Own {| len := n; p_data := Mem old |}) |}
        :: rest_params) e = Undefined) /\
  (forall t count bytes t0 n old,
     sendable (V_array t count bytes) = true ->
     delivers cs (wire (op_ord LYS_OP_PARAM) (V_array t count bytes)) = true ->
     (length old < length bytes)%nat ->
     lys_params_receive fuel
       ({| param_type := type_ord LYS_PARAM_TYPE_ARRAY;
           data := P_array (Own {| array_param_type := t0; item_count := n;
                                   array_data := Mem old |}) |}
        :: rest_params) e = Undefined).
Proof.
  intros Hok Hst Hrx Hfuel. split.
  - intros bytes n old Hv Hd Hlt.
    destruct (lys_param_wait_param fuel e cs rest _ Null false Hok Hst Hv Hd
                Hrx Hfuel) as (e1 & Hw & _ & _ & Hs1 & Hval).
    pose proof (value_of_tag _ _ _ Hval) as Htag.
    unfold lys_params_receive. cbn [params_receive_loop]. mred. rewrite Hw.
    cbn [w_err w_param_set negb w_param deref]. unfold global, global_param.
    cbn [param_type]. rewrite Htag. cbn [tag_of]. rewrite Z.eqb_refl.
    cbn [negb].
    by rewrite (proj1 (param_store_overrun e1 (m_param e1)) bytes n old).
  - intros t count bytes t0 n old Hv Hd Hlt.
    destruct (lys_param_wait_param fuel e cs rest _ Null false Hok Hst Hv Hd
                Hrx Hfuel) as (e1 & Hw & _ & _ & Hs1 & Hval).
    pose proof (value_of_tag _ _ _ Hval) as Htag.
    unfold lys_params_receive. cbn [params_receive_loop]. mred. rewrite Hw.
    cbn [w_err w_param_set negb w_param deref]. unfold global, global_param.
    cbn [param_type]. rewrite Htag. cbn [tag_of]. rewrite Z.eqb_refl.
    cbn [negb].
    by rewrite (proj2 (param_store_overrun e1 (m_param e1))
                  t count bytes t0 n old).
Qed.

Lemma received_data_overruns_small_storage_witness :
  lys_params_receive 3
    [{| param_type := type_ord LYS_PARAM_TYPE_STRING;
        data := P_str (Own {| len := 4; p_data := Mem [0; 0; 0; 0] |}) |}]
    (set_state LYS_STATE_WAIT_FOR_START
       (boot (host [[8; 5; 5; 104; 101; 108; 108; 111]]))) = Undefined.
Proof.
  destruct (received_data_overruns_small_storage 3
              (set_state LYS_STATE_WAIT_FOR_START
                 (boot (host [[8; 5; 5; 104; 101; 108; 108; 111]])))
              [] [[8; 5; 5; 104; 101; 108; 108; 111]] [])
    as [H _]; [reflexivity|reflexivity|reflexivity|vm_compute; lia|].
  apply (H [104; 101; 108; 108; 111] 4 [0; 0; 0; 0]);
    [reflexivity|reflexivity|cbn; lia].
Defined.

(** ** Zero-length data on the receive path *)

Lemma msg_parse_empty_string e tail :
  m_buf e = [3; 5; 5] ++ tail ->
  msg_parse e =
  Ret ({| r_err := LYS_ERROR_SUCCESS; r_op := op_ord LYS_OP_PARAM;
          r_param := Static |},
       set_str {| len := 0; p_data := Buf LYS_DATA_INDEX |}
         (set_param {| param_type := type_ord LYS_PARAM_TYPE_STRING;
                       data := P_str Static |} e)).
Proof.
  intros Hb. unfold msg_parse, param_parse, buf_get. by rewrite Hb.
Qed.

Lemma msg_parse_empty_array e t tail :
  is_scalar t = true -> m_buf e = [4; 5; 6; t] ++ tail ->
  msg_parse e =
  Ret ({| r_err := LYS_ERROR_SUCCESS; r_op := op_ord LYS_OP_PARAM;
          r_param := Static |},
       set_array {| array_param_type := t; item_count := 0;
                    array_data := Buf LYS_ARRAY_DATA_INDEX |}
         (set_param {| param_type := type_ord LYS_PARAM_TYPE_ARRAY;
                       data := P_array Static |} e)).
Proof.
  intros Hs Hb. unfold msg_parse, param_parse, buf_get. eng_simpl.
  rewrite !Hb. apply is_scalar_cases in Hs.
  destruct Hs as [->|[->|[->|[->| ->]]]]; vm_compute; reflexivity.
Qed.

(** An empty array of a scalar type is stored with an item count of 0,
    and the loop goes on with the next entry. *)
Lemma empty_array_step fuel e cs rest t t0 n old rest_params :
  buf_ok e -> m_state e = LYS_STATE_WAIT_FOR_START ->
  rx (rtt e) = cs ++ rest -> (pending e + 2 <= fuel)%nat ->
  is_scalar t = true -> delivers cs [4; 5; 6; t] = true ->
  exists e',
    io e e' cs m_ack_buf /\ rx (rtt e') = rest /\
    m_state e' = LYS_STATE_WAIT_FOR_START /\
    params_receive_loop fuel
      ({| param_type := type_ord LYS_PARAM_TYPE_ARRAY;
          data := P_array (Own {| array_param_type := t0; item_count := n;
                                  array_data := Mem old |}) |}
       :: rest_params) e =
    (r <- params_receive_loop fuel rest_params ;;
     ret (r.1,
          {| param_type := type_ord LYS_PARAM_TYPE_ARRAY;
             data := P_array (Own {| array_param_type := t;
                                     item_count := 0;
                                     array_data := Mem old |}) |}
          :: r.2))%lys e'.
Proof.
  intros Hok Hst Hrx Hfuel Hs Hd.
  set (f := [4; 5; 6; t]) in *.
  set (e0 := set_rtt {| rx := rest; tx := tx (rtt e);
                        tx_room := tx_room (rtt e) |} (holding f e)).
  pose proof (msg_parse_empty_array e0 t (drop (length f) (m_buf e)) Hs
                eq_refl) as Hp.
  destruct (msg_receive_and_ack_spec fuel e cs rest f _ _ Hok eq_refl Hd
              Hrx Hfuel Hp) as (room' & Hra & Hroom); [done..|].
  assert (Hok0 : buf_ok (holding f e)) by (by apply holding_buf_ok).
  eexists. split; [|split; [|split]].
  4:{ cbn [params_receive_loop].
      unfold lys_param_wait. mred. rewrite Hst.
      rewrite bool_decide_eq_false_2 by done. cbn [andb]. mred. rewrite Hst.
      rewrite bool_decide_eq_true_2 by done.
      cbn [negb]. mred. rewrite Hra. unfold or_error. mred.
      cbn [r_err r_op r_param lys_op_of op_ord]. mred.
      cbn [w_err w_param_set negb w_param deref].
      unfold global, global_param. eng_simpl.
      cbn [param_type type_ord Z.eqb Pos.eqb negb].
      unfold param_store.
      cbn [param_type lys_param_type_of data data_p_array].
      unfold array_copy. cbn [deref]. unfold global, global_array.
      eng_simpl. cbn [array_param_type item_count array_data].
      apply is_scalar_cases in Hs.
      assert (Hl : lys_param_len_lookup t = Ok (size_of t) /\
                   1 <= size_of t <= 4)
        by (destruct Hs as [->|[->|[->|[->| ->]]]]; cbn; split;
            try done; lia).
      destruct Hl as [-> Hsz]. consts.
      rewrite (proj2 (Z.eqb_neq 0 (size_of t))) by lia. cbn [orb].
      rewrite Z.mul_0_r. change (uint32 0) with 0. cbn [Z.gtb Z.compare].
      unfold memcpy_to_mem, load. unfold buf_ok, e0, holding in *.
      eng_simpl. rewrite length_app, length_drop. cbn [length].
      consts.
      rewrite !(proj2 (Z.leb_le _ _)) by lia. cbn [andb Z.to_nat take app].
      rewrite drop_0. reflexivity. }
  - unfold io, buf_ok, e0, holding in *. eng_simpl. cbn [rx tx tx_room].
    by repeat split.
  - done.
  - by eng_simpl.
Qed.

(** X26: what [lys_params_receive] makes of zero-length data that
    [msg_parse] lets through.  An empty string (frame [03][05][05]) is
    received and ACKed, and then refused by [str_copy]: InvalidParam, the
    entries untouched, the state still WAIT_FOR_START and the sticky error
    flag as it was.  An empty array of a scalar type (frame
    [04][05][06][type]) is received, ACKed and stored: when START
    follows, the call succeeds and the entry holds that item type and an
    item count of 0, its data untouched. *)
Theorem zero_length_data_on_receive fuel e cs final rest :
  buf_ok e -> m_state e = LYS_STATE_WAIT_FOR_START ->
  rx (rtt e) = cs ++ final ++ rest -> (pending e + 2 <= fuel)%nat ->
  (forall lhs rest_params,
     delivers cs [3; 5; 5] = true ->
     let p := {| param_type := type_ord LYS_PARAM_TYPE_STRING;
                 data := P_str lhs |} in
     exists e',
       lys_params_receive fuel (p :: rest_params) e =
       Ret ((LYS_ERROR_INVALID_PARAM, p :: rest_params), e') /\
       tx (rtt e') = tx (rtt e) ++ m_ack_buf /\
       rx (rtt e') = final ++ rest /\
       m_state e' = LYS_STATE_WAIT_FOR_START /\ m_error e' = m_error e) /\
  (forall t t0 n old,
     is_scalar t = true -> delivers cs [4; 5; 6; t] = true ->
     delivers final (simple_frame LYS_OP_START) = true ->
     exists e',
       lys_params_receive fuel
         [{| param_type := type_ord LYS_PARAM_TYPE_ARRAY;
             data := P_array (Own {| array_param_type := t0; item_count := n;
                                     array_data := Mem old |}) |}] e =
       Ret ((LYS_ERROR_SUCCESS,
             [{| param_type := type_ord LYS_PARAM_TYPE_ARRAY;
                 data := P_array (Own {| array_param_type := t;
                                         item_count := 0;
                                         array_data := Mem old |}) |}]),
            e') /\
       tx (rtt e') = tx (rtt e) ++ m_ack_buf ++ m_ack_buf /\
       rx (rtt e') = rest /\
       m_state e' = LYS_STATE_RUNNING /\ m_error e' = m_error e).
Proof.
  intros Hok Hst Hrx Hfuel. split.
  - intros lhs rest_params Hd p.
    set (f := [3; 5; 5]) in *.
    set (e0 := set_rtt {| rx := final ++ rest; tx := tx (rtt e);
                          tx_room := tx_room (rtt e) |} (holding f e)).
    pose proof (msg_parse_empty_string e0 (drop (length f) (m_buf e))
                  eq_refl) as Hp.
    destruct (msg_receive_and_ack_spec fuel e cs (final ++ rest) f _ _ Hok
                eq_refl Hd Hrx Hfuel Hp) as (room' & Hra & Hroom); [done..|].
    eexists. split.
    { unfold lys_params_receive. cbn [params_receive_loop].
      unfold lys_param_wait. mred. rewrite Hst.
      rewrite bool_decide_eq_false_2 by done. cbn [andb]. mred. rewrite Hst.
      rewrite bool_decide_eq_true_2 by done.
      cbn [negb]. mred. rewrite Hra. unfold or_error. mred.
      cbn [r_err r_op r_param lys_op_of op_ord]. mred.
      cbn [w_err w_param_set negb w_param deref].
      unfold global, global_param. eng_simpl.
      cbn [param_type type_ord Z.eqb Pos.eqb negb].
      unfold param_store.
      cbn [param_type lys_param_type_of data data_p_str].
      unfold str_copy. cbn [deref]. unfold global, global_str. eng_simpl.
      cbn [len Z.eqb orb]. rewrite orb_true_r. mred. cbn [fst snd].
      reflexivity. }
    by eng_simpl.
  - intros t t0 n old Hs Hd Hfin.
    destruct (empty_array_step fuel e cs (final ++ rest) t t0 n old [])
      as (e1 & Hio1 & Hrx1 & Hst1 & Hloop); try done.
    pose proof (io_pending _ _ _ _ Hio1) as Hp1.
    destruct Hio1 as (Hok1 & _ & Htx1 & _ & Her1).
    destruct (lys_param_wait_start fuel e1 final rest Null false)
      as (e' & Hw & Hio' & Hrx' & Hst'); try done; [lia|].
    destruct Hio' as (_ & _ & Htx' & _ & Her').
    exists e'. split.
    { unfold lys_params_receive. mred. rewrite Hloop.
      cbn [params_receive_loop]. mred. cbn [fst snd]. by rewrite Hw. }
    repeat split; try done; [|congruence].
    by rewrite Htx', Htx1, <- app_assoc.
Qed.

Lemma zero_length_data_on_receive_witness :
  let e := set_state LYS_STATE_WAIT_FOR_START
             (boot (host [[4; 5; 6; 2]; [2; 2]])) in
  exists e',
    lys_params_receive 4
      [{| param_type := type_ord LYS_PARAM_TYPE_ARRAY;
          data := P_array (Own {| array_param_type := 0; item_count := 2;
                                  array_data := Mem [1; 0; 0; 0; 2; 0; 0; 0]
                               |}) |}] e =
    Ret ((LYS_ERROR_SUCCESS,
          [{| param_type := type_ord LYS_PARAM_TYPE_ARRAY;
              data := P_array (Own {| array_param_type := 2;
                                      item_count := 0;
                                      array_data :=
                                        Mem [1; 0; 0; 0; 2; 0; 0; 0] |}) |}]),
         e') /\
    tx (rtt e') = tx (rtt e) ++ m_ack_buf ++ m_ack_buf /\
    rx (rtt e') = [] /\
    m_state e' = LYS_STATE_RUNNING /\ m_error e' = m_error e.
Proof.
  destruct (zero_length_data_on_receive 4
              (set_state LYS_STATE_WAIT_FOR_START
                 (boot (host [[4; 5; 6; 2]; [2; 2]])))
              [[4; 5; 6; 2]] [[2; 2]] [])
    as [_ H]; [reflexivity|reflexivity|reflexivity|vm_compute; lia|].
  apply (H 2 0 2 [1; 0; 0; 0; 2; 0; 0; 0]); reflexivity.
Defined.

(** ** START before the last parameter *)

(** X27: when the host sends START while [lys_params_receive] still
    expects a parameter, START is taken as usual: it is ACKed and the
    state moves to RUNNING.  Only then does the call notice that no
    parameter came and return InvalidParam, the entries untouched and the
    sticky error flag as it was, so that the engine goes on in state
    RUNNING. *)
Theorem early_start_leaves_engine_running fuel e p rest_params cs rest :
  buf_ok e -> m_state e = LYS_STATE_WAIT_FOR_START ->
  delivers cs (simple_frame LYS_OP_START) = true ->
  rx (rtt e) = cs ++ rest -> (pending e + 2 <= fuel)%nat ->
  exists e',
    lys_params_receive fuel (p :: rest_params) e =
    Ret ((LYS_ERROR_INVALID_PARAM, p :: rest_params), e') /\
    tx (rtt e') = tx (rtt e) ++ m_ack_buf /\ rx (rtt e') = rest /\
    m_state e' = LYS_STATE_RUNNING /\ m_error e' = m_error e.
Proof.
  intros Hok Hst Hd Hrx Hfuel.
  destruct (lys_param_wait_start fuel e cs rest Null false Hok Hst Hd Hrx
              Hfuel) as (e1 & Hw & (_ & _ & Htx & _ & He) & Hrx1 & Hs1).
  exists e1. split; [|done].
  unfold lys_params_receive. cbn [params_receive_loop]. mred. rewrite Hw.
  reflexivity.
Qed.

Lemma early_start_leaves_engine_running_witness :
  let e := set_state LYS_STATE_WAIT_FOR_START (boot (host [[2]; [2]])) in
  exists e',
    lys_params_receive 4 m_params e =
    Ret ((LYS_ERROR_INVALID_PARAM, m_params), e') /\
    tx (rtt e') = tx (rtt e) ++ m_ack_buf /\ rx (rtt e') = [] /\
    m_state e' = LYS_STATE_RUNNING /\ m_error e' = m_error e.
Proof.
  apply (early_start_leaves_engine_running 4
           (set_state LYS_STATE_WAIT_FOR_START (boot (host [[2]; [2]])))
           _ _ [[2]; [2]] []);
    [reflexivity|reflexivity|reflexivity|reflexivity|vm_compute; lia].
Defined.

(** ** The whole exchange of [lys_params_receive] *)

Lemma lys_params_receive_running fuel e p_params vs css final rest :
  buf_ok e -> m_state e = LYS_STATE_WAIT_FOR_START ->
  expects p_params vs -> brings css vs ->
  delivers final (simple_frame LYS_OP_START) = true ->
  rx (rtt e) = concat css ++ final ++ rest ->
  (pending e + 2 <= fuel)%nat ->
  exists stored e',
    lys_params_receive fuel p_params e =
    Ret ((LYS_ERROR_SUCCESS, stored), e') /\
    io e e' (concat css ++ final)
       (concat (map (fun _ => m_ack_buf) vs) ++ m_ack_buf) /\
    rx (rtt e') = rest /\ m_state e' = LYS_STATE_RUNNING /\
    holds stored vs.
Proof.
  intros Hok Hst Hps Hcss Hfinal Hrx Hfuel.
  destruct (params_receive_loop_spec fuel p_params vs Hps css e (final ++ rest)
              Hcss Hok Hst Hrx Hfuel)
    as (stored & e1 & Hloop & Hio1 & Hrx1 & Hst1 & Hheld).
  pose proof (io_pending _ _ _ _ Hio1) as Hp1.
  assert (Hok1 : buf_ok e1) by apply Hio1.
  destruct (lys_param_wait_start fuel e1 final rest Null false Hok1 Hst1
              Hfinal Hrx1 ltac:(lia)) as (e2 & Hw & Hio2 & Hrx2 & Hst2).
  exists stored, e2. split.
  { unfold lys_params_receive. mred. rewrite Hloop. cbn [fst snd]. mred.
    rewrite Hw. reflexivity. }
  split; [by eapply io_trans|done].
Qed.

Lemma lys_params_receive_fresh fuel e p_params vs acs css final rest :
  buf_ok e -> m_state e = LYS_STATE_UNKNOWN -> m_error e = false ->
  expects p_params vs -> brings css vs ->
  delivers acs (simple_frame LYS_OP_ACK) = true ->
  delivers final (simple_frame LYS_OP_START) = true ->
  rx (rtt e) = acs ++ concat css ++ final ++ rest ->
  (pending e + 2 <= fuel)%nat ->
  exists stored e',
    lys_params_receive fuel p_params e =
    Ret ((LYS_ERROR_SUCCESS, stored), e') /\
    io e e' (acs ++ concat css ++ final)
       (simple_frame LYS_OP_INIT ++
        concat (map (fun _ => m_ack_buf) vs) ++ m_ack_buf) /\
    rx (rtt e') = rest /\ m_state e' = LYS_STATE_RUNNING /\
    holds stored vs.
Proof.
  intros Hok Hst Her Hps Hcss Hack Hfinal Hrx Hfuel.
  destruct (lys_param_wait_init fuel e acs _ Hok Hst Her Hack Hrx Hfuel)
    as (e1 & Hsame & Hio & Hrx1 & Hst1).
  rewrite (lys_params_receive_init fuel p_params e e1 Hsame).
  pose proof (io_pending _ _ _ _ Hio) as Hp1.
  assert (Hok1 : buf_ok e1) by apply Hio.
  destruct (lys_params_receive_running fuel e1 p_params vs css final rest)
    as (stored & e' & Hr & Hio' & Hrest); try done; [lia|].
  exists stored, e'. split; [done|]. split; [|done].
  by eapply io_trans.
Qed.

(** X28: the whole exchange of a successful [lys_params_receive] on a
    fresh engine, for any number of expected parameters: it writes INIT,
    then one ACK for each PARAM frame and one for START, and nothing
    else; it takes from the transport exactly the host's ACK, the PARAM
    frames and START; and it leaves the values stored, the state RUNNING
    and the sticky error flag clear. *)
Theorem lys_params_receive_exchange fuel e p_params vs acs css final rest :
  buf_ok e -> m_state e = LYS_STATE_UNKNOWN -> m_error e = false ->
  expects p_params vs -> brings css vs ->
  delivers acs (simple_frame LYS_OP_ACK) = true ->
  delivers final (simple_frame LYS_OP_START) = true ->
  rx (rtt e) = acs ++ concat css ++ final ++ rest ->
  (pending e + 2 <= fuel)%nat ->
  exists stored e',
    lys_params_receive fuel p_params e =
    Ret ((LYS_ERROR_SUCCESS, stored), e') /\
    tx (rtt e') =
    tx (rtt e) ++ simple_frame LYS_OP_INIT ++
    concat (replicate (length vs + 1) m_ack_buf) /\
    rx (rtt e') = rest /\ holds stored vs /\
    m_state e' = LYS_STATE_RUNNING /\ m_error e' = false.
Proof.
  intros Hok Hst Her Hps Hcss Hack Hfinal Hrx Hfuel.
  destruct (lys_params_receive_fresh fuel e p_params vs acs css final rest)
    as (stored & e' & Hr & Hio & Hrest & Hst' & Hheld); try done.
  destruct Hio as (_ & _ & Htx & _ & Her').
  exists stored, e'. repeat split; try done; [|congruence].
  rewrite Htx. do 2 f_equal.
  clear. induction vs as [|v vs IH]; [done|].
  cbn [map concat length Nat.add replicate]. by rewrite <- app_assoc, IH.
Qed.

Lemma lys_params_receive_exchange_witness :
  let e := boot (host [[2]; []; [6]; [7; 5; 0; 42]; [0; 0; 0]; [4; 5; 2; 7];
                       [2; 2]; [9]]) in
  exists stored e',
    lys_params_receive 10 m_params e =
    Ret ((LYS_ERROR_SUCCESS, stored), e') /\
    tx (rtt e') = tx (rtt e) ++ [2; 1] ++ [2; 6; 2; 6; 2; 6] /\
    rx (rtt e') = [[9]] /\
    holds stored [V_scalar 0 [42; 0; 0; 0]; V_scalar 2 [7]] /\
    m_state e' = LYS_STATE_RUNNING /\ m_error e' = false.
Proof.
  apply (lys_params_receive_exchange 10
           (boot (host [[2]; []; [6]; [7; 5; 0; 42]; [0; 0; 0]; [4; 5; 2; 7];
                        [2; 2]; [9]]))
           m_params [V_scalar 0 [42; 0; 0; 0]; V_scalar 2 [7]]
           [[2]; []; [6]]
           [[[7; 5; 0; 42]; [0; 0; 0]]; [[4; 5; 2; 7]]]
           [[2; 2]] [[9]]);
    [reflexivity|reflexivity|reflexivity|by repeat constructor|
     by repeat constructor|reflexivity|reflexivity|reflexivity|
     vm_compute; lia].
Defined.

(** ** The application *)





(** ** What holds after every call *)

(** X30: after [lys_init], whatever public operations the caller runs,
    with whatever arguments, and whatever the host sends, the engine
    stays well-formed: [m_buf] is an array of 64 bytes, and
    [lys_has_error] is true only in state UNKNOWN (lys.h: an error that
    caused the library to enter the UNKNOWN state). *)
Theorem engine_stays_well_formed script e e0 e' :
  buf_ok e -> lys_init e = Ret (tt, e0) -> run script e0 = Ret (tt, e') ->
  buf_ok e' /\
  (lys_has_error e' = true -> lys_state_get e' = LYS_STATE_UNKNOWN).
Proof.
  intros Hok Hi Hr.
  assert (Hok0 : buf_ok e0) by (by injection Hi as <-).
  apply lys_init_session_ok in Hi.
  destruct (run_invariant script e0 e' Hok0 Hi Hr) as [Hok' [_ Hs]].
  by split.
Qed.

Lemma engine_stays_well_formed_witness :
  lys_init (boot (host [[2; 6]; [2; 9]; [2; 6]])) = Ret (tt, sample_start) /\
  run sample_script sample_start = Ret (tt, sample_end) /\
  buf_ok sample_end /\
  (lys_has_error sample_end = true ->
   lys_state_get sample_end = LYS_STATE_UNKNOWN).
Proof.
  assert (Hok : buf_ok (boot (host [[2; 6]; [2; 9]; [2; 6]])))
    by reflexivity.
  assert (Hi : lys_init (boot (host [[2; 6]; [2; 9]; [2; 6]])) =
               Ret (tt, sample_start)) by reflexivity.
  assert (Hr : run sample_script sample_start = Ret (tt, sample_end))
    by (vm_compute; reflexivity).
  split; [exact Hi|]. split; [exact Hr|].
  exact (engine_stays_well_formed _ _ _ _ Hok Hi Hr).
Defined.

